(** * Tailwind JIT: the at-rule expander ([expandTailwindAtRules])

    A shallow embedding of the module that exports [expandTailwindAtRules]: candidate
    collection with the per-extractor extraction cache, the stylesheet
    assembler [buildStylesheet], root resolution in PostCSS documents and the
    pass that replaces the [@tailwind] directives of a CSS tree.

    Conventions of the embedding.
    - A JS string is a [string]; every character is one code unit below 256.
    - A BigInt is a [Z]; [&] is [Z.land] (both are two's complement on an
      unbounded width) and a BigInt is truthy when it is not zero.
    - A JS [Set] is a list without repetitions in insertion order.
    - A PostCSS node is a value of [Node]; [nid] stands for the identity of
      the JS object, so that references kept by the pass ([layerNodes]) are
      resolved by [nid] in the current tree.
    - The module-level state ([extractorCache], the log, the allocator of
      fresh objects) is threaded explicitly in [World].
    - The two lookup objects of the configuration are plain objects. The
      pass is modelled for file extensions that they define or that are no
      member name of [Object.prototype] (as [constructor] or [toString]
      are): [getExtractorMember] and [getTransformerMember] tell what the
      lookups return on every string. *)

From Stdlib Require Import ZArith Ascii String List.
From stdpp Require Import gmap strings list fin_maps sorting.

Local Open Scope string_scope.
Local Open Scope list_scope.
Local Open Scope Z_scope.
Local Set Warnings "-register-all,-abstract-large-number,-clear-no-such-hyp".

(** ** JS strings *)

(** White space of [String.prototype.trim] and of the regexp class [\s],
    restricted to code units below 256: TAB, LF, VT, FF, CR, SP, NBSP. *)
Definition isWhiteSpace (c : ascii) : bool :=
  let n := nat_of_ascii c in
  bool_decide (n = 9%nat) || bool_decide (n = 10%nat) || bool_decide (n = 11%nat)
  || bool_decide (n = 12%nat) || bool_decide (n = 13%nat) || bool_decide (n = 32%nat)
  || bool_decide (n = 160%nat).

Fixpoint trimStart (s : string) : string :=
  match s with
  | EmptyString => EmptyString
  | String c s' => if isWhiteSpace c then trimStart s' else s
  end.

Fixpoint trimEnd (s : string) : string :=
  match s with
  | EmptyString => EmptyString
  | String c s' =>
      match trimEnd s' with
      | EmptyString => if isWhiteSpace c then EmptyString else String c EmptyString
      | t => String c t
      end
  end.

(** [line.trim()] *)
Definition trim (s : string) : string := trimEnd (trimStart s).

(** [content.split('\n')]: never empty, [""] splits into [[""]]. *)
Fixpoint split_newline (s : string) : list string :=
  match s with
  | EmptyString => [EmptyString]
  | String c s' =>
      if bool_decide (c = "010"%char) then EmptyString :: split_newline s'
      else match split_newline s' with
           | [] => [String c EmptyString]
           | l :: ls => String c l :: ls
           end
  end.

(** [content.replace(/(?:^|\s)class:/g, ' ')]: [skip] counts the characters
    of a match still to be dropped, [atStart] is true at index 0 only. *)
Fixpoint replaceClassDirective (skip : nat) (atStart : bool) (s : string) : string :=
  match s with
  | EmptyString => EmptyString
  | String c s' =>
      match skip with
      | S k => replaceClassDirective k false s'
      | O =>
          if atStart && String.prefix "class:" s
          then String " " (replaceClassDirective 5 false s')
          else if isWhiteSpace c && String.prefix "class:" s'
          then String " " (replaceClassDirective 6 false s')
          else String c (replaceClassDirective 0 false s')
      end
  end.

(** ** JS sets, in insertion order *)

Section JSSet.
Context {A : Type} (same : A → A → bool).

Definition Set_has (s : list A) (x : A) : bool := existsb (same x) s.

Definition Set_add (s : list A) (x : A) : list A :=
  if Set_has s x then s else s ++ [x].

(** [for (let x of xs) s.add(x)] *)
Definition Set_addAll (s : list A) (xs : list A) : list A :=
  fold_left Set_add xs s.

(** [new Set(xs)] *)
Definition Set_new (xs : list A) : list A := Set_addAll [] xs.
End JSSet.

Definition sameString (a b : string) : bool := bool_decide (a = b).

(** ** PostCSS nodes *)

Inductive Node : Type :=
  mkNode {
    nid : nat;                      (* identity of the object *)
    type : string;                  (* 'document', 'root', 'atrule', 'rule', ... *)
    name : string;                  (* at-rules: the name after [@] *)
    params : string;                (* at-rules: the parameters *)
    source : option nat;            (* source location, [None] for [undefined] *)
    parentLayer : option string;    (* [raws.tailwind?.parentLayer] *)
    nodes : list Node               (* children; [[]] for leaves *)
  }.

(** Rule nodes kept in a [Set] are compared by reference. *)
Definition sameNode (a b : Node) : bool := bool_decide (nid a = nid b).

(** An array [[sort, rule]] made by the rule generator. The rule cache is a
    [Set] of such arrays and holds them by reference: [entryId] stands for
    the identity of the array, so that two arrays with the same key and the
    same rule node are two entries of the rule cache. *)
Record RuleEntry := {
  entryId : nat;
  entrySort : Z;
  entryRule : Node
}.

Definition sameEntry (a b : RuleEntry) : bool := bool_decide (entryId a = entryId b).

(** The two elements of the array, as [buildStylesheet] destructures it. *)
Definition entryPair (e : RuleEntry) : Z * Node := (entrySort e, entryRule e).

(** [Container.walk]: every descendant, in document order (a node before
    its children); the node itself is not visited. *)
Fixpoint walk (n : Node) : list Node :=
  match n with
  | mkNode _ _ _ _ _ _ cs => flat_map (fun c => c :: walk c) cs
  end.

(** [walkAtRules(callback)] visits the at-rules of [walk]. *)
Definition walkAtRules (n : Node) : list Node :=
  filter (fun c => type c = "atrule") (walk n).

(** [node.index(child) !== -1]: [child] is one of the children of [node]. *)
Definition hasChild (node child : Node) : bool :=
  existsb (sameNode child) (nodes node).

(** [target.before(add)]: [add] is inserted in the parent of the node
    [target], immediately before it. *)
Fixpoint insertBefore (target : nat) (add : list Node) (n : Node) : Node :=
  match n with
  | mkNode i t nm p s pl cs =>
      mkNode i t nm p s pl
        (flat_map (fun c => if bool_decide (nid c = target) then add ++ [c]
                            else [insertBefore target add c]) cs)
  end.

(** [target.remove()] *)
Fixpoint removeNode (target : nat) (n : Node) : Node :=
  match n with
  | mkNode i t nm p s pl cs =>
      mkNode i t nm p s pl
        (flat_map (fun c => if bool_decide (nid c = target) then []
                            else [removeNode target c]) cs)
  end.

(** [target.append(add)] *)
Fixpoint appendTo (target : nat) (add : list Node) (n : Node) : Node :=
  match n with
  | mkNode i t nm p s pl cs =>
      if bool_decide (i = target) then mkNode i t nm p s pl (cs ++ add)
      else mkNode i t nm p s pl (map (appendTo target add) cs)
  end.

(** ** Layer nodes *)

Record LayerNodes := {
  ln_base : option Node;
  ln_components : option Node;
  ln_utilities : option Node;
  ln_variants : option Node
}.

Definition noLayerNodes : LayerNodes :=
  {| ln_base := None; ln_components := None; ln_utilities := None; ln_variants := None |}.

(** [Object.keys(layerNodes)] *)
Definition layerNames : list string := ["base"; "components"; "utilities"; "variants"].

(** [Object.values(layerNodes)] *)
Definition layerNodes_values (l : LayerNodes) : list (option Node) :=
  [ln_base l; ln_components l; ln_utilities l; ln_variants l].

(** [layerNodes[key]] *)
Definition layerNodes_get (l : LayerNodes) (key : string) : option Node :=
  if bool_decide (key = "base") then ln_base l
  else if bool_decide (key = "components") then ln_components l
  else if bool_decide (key = "utilities") then ln_utilities l
  else if bool_decide (key = "variants") then ln_variants l
  else None.

(** [layerNodes[key] = rule], for [key] one of [layerNames]. *)
Definition layerNodes_set (l : LayerNodes) (key : string) (rule : Node) : LayerNodes :=
  if bool_decide (key = "base") then
    {| ln_base := Some rule; ln_components := ln_components l;
       ln_utilities := ln_utilities l; ln_variants := ln_variants l |}
  else if bool_decide (key = "components") then
    {| ln_base := ln_base l; ln_components := Some rule;
       ln_utilities := ln_utilities l; ln_variants := ln_variants l |}
  else if bool_decide (key = "utilities") then
    {| ln_base := ln_base l; ln_components := ln_components l;
       ln_utilities := Some rule; ln_variants := ln_variants l |}
  else if bool_decide (key = "variants") then
    {| ln_base := ln_base l; ln_components := ln_components l;
       ln_utilities := ln_utilities l; ln_variants := Some rule |}
  else l.

(** The callback of the first [root.walkAtRules] of the pass. *)
Definition recordLayerNode (layerNodes : LayerNodes) (rule : Node) : LayerNodes :=
  if bool_decide (name rule = "tailwind") then
    if bool_decide (params rule ∈ layerNames)
    then layerNodes_set layerNodes (params rule) rule
    else layerNodes
  else layerNodes.

Definition scanLayerNodes (root : Node) : LayerNodes :=
  fold_left recordLayerNode (walkAtRules root) noLayerNodes.

(** [Object.values(layerNodes).every((n) => n === null)] *)
Definition allNull (l : LayerNodes) : bool :=
  forallb (fun n : option Node => match n with None => true | Some _ => false end)
    (layerNodes_values l).

(** [root.walkAtRules('layer', ...)] of the end of the pass: every at-rule
    named [layer] whose parameter is a layer name is removed. *)
Definition isLayerMarker (c : Node) : bool :=
  bool_decide (type c = "atrule") && bool_decide (name c = "layer")
  && bool_decide (params c ∈ layerNames).

Fixpoint removeLayerAtRules (n : Node) : Node :=
  match n with
  | mkNode i t nm p s pl cs =>
      mkNode i t nm p s pl
        (flat_map (fun c => if isLayerMarker c then [] else [removeLayerAtRules c]) cs)
  end.

(** The same walk started at the node [target] of the tree. *)
Fixpoint cleanupAt (target : nat) (n : Node) : Node :=
  match n with
  | mkNode i t nm p s pl cs =>
      if bool_decide (i = target) then removeLayerAtRules n
      else mkNode i t nm p s pl (map (cleanupAt target) cs)
  end.

(** Modelled from the spec: [util/cloneNodes] is not part of the sources.
    "Insert a deep copy of the bucket's rules; copies inherit the original
    directive's source-location metadata; copies must be independent
    objects". Every node of a copy is a fresh object ([next] is the first
    unused identity) and takes the directive's [source] when it has one. *)
Fixpoint cloneNode (src : option nat) (n : Node) (next : nat) : Node * nat :=
  match n with
  | mkNode _ t nm p s pl cs =>
      let '(cs', next') :=
        (fix cloneList (l : list Node) (k : nat) : list Node * nat :=
           match l with
           | [] => ([], k)
           | c :: r =>
               let '(c', k1) := cloneNode src c k in
               let '(r', k2) := cloneList r k1 in
               (c' :: r', k2)
           end) cs (S next) in
      (mkNode next t nm p (match src with Some _ => src | None => s end) pl cs', next')
  end.

Fixpoint cloneNodes (l : list Node) (src : option nat) (next : nat) : list Node * nat :=
  match l with
  | [] => ([], next)
  | c :: r =>
      let '(c', k1) := cloneNode src c next in
      let '(r', k2) := cloneNodes r src k1 in
      (c' :: r', k2)
  end.

(** ** Extractors, transformers and the extraction cache *)

(** An extractor is a function; [eid] stands for its identity, the key of
    the [WeakMap] [extractorCache]. *)
Record Extractor := {
  eid : nat;
  extract : string → list string
}.

(** Modelled from the spec: the [quick-lru] package is not part of the
    sources. "A bounded least-recently-used map from a trimmed source line to
    the set of candidates it yields; capacity 25,000 entries; eviction is
    LRU". The entries are kept most recently used first; the capacity is
    positive (the constructor of the package rejects any other). *)
Record LRU := {
  maxSize : positive;
  entries : list (string * list string)
}.

Definition LRU_new (maxSize : positive) : LRU := {| maxSize := maxSize; entries := [] |}.

Definition LRU_lookup (key : string) (c : LRU) : option (list string) :=
  snd <$> List.find (fun e => sameString key e.1) (entries c).

Definition LRU_has (key : string) (c : LRU) : bool :=
  match LRU_lookup key c with Some _ => true | None => false end.

Definition LRU_without (key : string) (c : LRU) : list (string * list string) :=
  List.filter (fun e => negb (sameString key e.1)) (entries c).

(** [get] makes the entry the most recently used one. *)
Definition LRU_get (key : string) (c : LRU) : option (list string) * LRU :=
  match LRU_lookup key c with
  | Some v => (Some v, {| maxSize := maxSize c; entries := (key, v) :: LRU_without key c |})
  | None => (None, c)
  end.

(** [set] makes the entry the most recently used one and evicts the least
    recently used entries beyond the capacity. *)
Definition LRU_set (key : string) (v : list string) (c : LRU) : LRU :=
  {| maxSize := maxSize c;
     entries := take (Pos.to_nat (maxSize c)) ((key, v) :: LRU_without key c) |}.

(** What a pass does to the outside, in order. Modelled from the spec:
    [util/log] is not part of the sources. "Advisory warnings identified by a
    stable code and human-readable message (non-fatal)": a call of
    [log.warn(key, messages)] is the entry [Warn key]. *)
Inductive Event :=
  | ExtractorCall (extractor : nat) (line : string)   (* [extractor(line)] was run *)
  | CacheHit (extractor : nat) (line : string)        (* the line was served by the cache *)
  | GenerateRules (candidates : list string)          (* [generateRules] was called *)
  | Warn (key : string).                              (* [log.warn(key, ...)] *)

Global Instance Event_eq_dec : EqDecision Event.
Proof. solve_decision. Defined.

(** The state of one call of [getClassCandidates]: the two sets it is given
    and the module-level cache and log. *)
Record Collector := {
  candidates : list string;
  seen : gset string;
  extractorCache : gmap nat LRU;
  trace : list Event
}.

(** [extractorCache.get(extractor)]; the entry exists once the head of
    [getClassCandidates] has run. *)
Definition cacheOf (extractor : Extractor) (st : Collector) : LRU :=
  default (LRU_new 25000) (extractorCache st !! eid extractor).

(** The body of the loop of [getClassCandidates]. After [has(line)]
    answered true, [get(line)] returns the cached set ([LRU_has_lookup],
    [LRU_get_value]). *)
Definition processLine (extractor : Extractor) (st : Collector) (line : string) : Collector :=
  let line := trim line in
  if bool_decide (line ∈ seen st) then st
  else
    let seen' := {[line]} ∪ seen st in
    if LRU_has line (cacheOf extractor st) then
      let '(cached, lru) := LRU_get line (cacheOf extractor st) in
      {| candidates := Set_addAll sameString (candidates st) (default [] cached);
         seen := seen';
         extractorCache := <[eid extractor := lru]> (extractorCache st);
         trace := trace st ++ [CacheHit (eid extractor) line] |}
    else
      let extractorMatches :=
        List.filter (fun s => negb (sameString s "!*")) (extract extractor line) in
      let lineMatchesSet := Set_new sameString extractorMatches in
      {| candidates := Set_addAll sameString (candidates st) lineMatchesSet;
         seen := seen';
         extractorCache :=
           <[eid extractor := LRU_set line lineMatchesSet (cacheOf extractor st)]>
             (extractorCache st);
         trace := trace st ++ [ExtractorCall (eid extractor) line] |}.

Definition getClassCandidates (content : string) (extractor : Extractor)
    (st : Collector) : Collector :=
  let st :=
    match extractorCache st !! eid extractor with
    | Some _ => st
    | None =>
        {| candidates := candidates st; seen := seen st;
           extractorCache := <[eid extractor := LRU_new 25000]> (extractorCache st);
           trace := trace st |}
    end in
  fold_left (processLine extractor) (split_newline content) st.

(** ** Configuration and build context *)

(** The two lookup objects of the configuration, by their own properties. *)
Record Config := {
  content_extract : gmap string Extractor;          (* [tailwindConfig.content.extract] *)
  content_transform : gmap string (string → string) (* [tailwindConfig.content.transform] *)
}.

Record ContentUnit := {
  content : string;
  extension : string
}.

Record LayerOrder := {
  lo_base : Z;
  lo_defaults : Z;
  lo_components : Z;
  lo_utilities : Z;
  lo_user : Z
}.

Record Stylesheet := {
  ss_base : list Node;
  ss_defaults : list Node;
  ss_components : list Node;
  ss_utilities : list Node;
  ss_variants : list Node;
  ss_user : list Node
}.

Record Context := {
  tailwindConfig : Config;
  changedContent : list ContentUnit;
  classCache : gmap string (list (Z * Node));
  ruleCache : list RuleEntry;
  stylesheetCache : option Stylesheet;
  minimumScreen : Z;
  layerOrder : LayerOrder
}.

(** The collaborators the module imports: the rule generator, which reads
    the context and updates its class cache, and the default extractor. *)
Record Collaborators := {
  generateRules : list string → Context → list RuleEntry * gmap string (list (Z * Node));
  defaultExtractor : Extractor
}.

Definition builtInExtractors (env : Collaborators) : gmap string Extractor :=
  {[ "DEFAULT" := defaultExtractor env ]}.

Definition builtInTransformers : gmap string (string → string) :=
  <[ "DEFAULT" := (fun content : string => content) ]>
    {[ "svelte" := replaceClassDirective 0 true ]}.

(** [a || b] on values that are a function or [undefined]. *)
Definition orElse {A : Type} (a b : option A) : option A :=
  match a with Some _ => a | None => b end.

(** The names a plain object inherits from [Object.prototype]. The value of
    each is a function (for [__proto__], the prototype object), so it is
    truthy in a chain of [||]. *)
Definition objectPrototypeKeys : list string :=
  [ "constructor"; "__defineGetter__"; "__defineSetter__"; "hasOwnProperty";
    "__lookupGetter__"; "__lookupSetter__"; "isPrototypeOf"; "propertyIsEnumerable";
    "toString"; "valueOf"; "__proto__"; "toLocaleString" ].

(** What [obj[key]] evaluates to when it is not [undefined]: an own property
    of the object, or the member of [Object.prototype] of that name. *)
Inductive Member (A : Type) : Type :=
  | Own (a : A)
  | Inherited (key : string).
Arguments Own {A} a.
Arguments Inherited {A} key.

(** [obj[key]] on the plain object whose own properties are [obj]. *)
Definition readProperty {A : Type} (obj : gmap string A) (key : string)
    : option (Member A) :=
  match obj !! key with
  | Some a => Some (Own a)
  | None => if bool_decide (key ∈ objectPrototypeKeys) then Some (Inherited key) else None
  end.

(** The chain of [||] of [getExtractor], on every string: for a member name
    of [Object.prototype] that the configuration does not define, the first
    operand is the inherited member, which is no extractor. *)
Definition getExtractorMember (env : Collaborators) (tailwindConfig : Config)
    (fileExtension : string) : Member Extractor :=
  let extractors := content_extract tailwindConfig in
  default (Own (defaultExtractor env))
    (orElse (readProperty extractors fileExtension)
       (orElse (readProperty extractors "DEFAULT")
          (orElse (readProperty (builtInExtractors env) fileExtension)
             (readProperty (builtInExtractors env) "DEFAULT")))).

(** The chain of [||] of [getTransformer], on every string. *)
Definition getTransformerMember (tailwindConfig : Config) (fileExtension : string)
    : Member (string → string) :=
  let transformers := content_transform tailwindConfig in
  default (Own (fun content : string => content))
    (orElse (readProperty transformers fileExtension)
       (orElse (readProperty transformers "DEFAULT")
          (orElse (readProperty builtInTransformers fileExtension)
             (readProperty builtInTransformers "DEFAULT")))).

(** [getExtractor] where it returns an extractor: on the file extensions
    that the configuration defines or that are no member name of
    [Object.prototype], the chain is decided by the own properties
    ([getExtractor_fallback]). The pass is modelled on these extensions. *)
Definition getExtractor (env : Collaborators) (tailwindConfig : Config)
    (fileExtension : string) : Extractor :=
  let extractors := content_extract tailwindConfig in
  default (defaultExtractor env)
    (orElse (extractors !! fileExtension)
       (orElse (extractors !! "DEFAULT")
          (orElse (builtInExtractors env !! fileExtension)
             (builtInExtractors env !! "DEFAULT")))).

(** [getTransformer] where it returns a transformer, as [getExtractor]
    above ([getTransformer_fallback]). *)
Definition getTransformer (tailwindConfig : Config) (fileExtension : string)
    : string → string :=
  let transformers := content_transform tailwindConfig in
  default (fun content : string => content)
    (orElse (transformers !! fileExtension)
       (orElse (transformers !! "DEFAULT")
          (orElse (builtInTransformers !! fileExtension)
             (builtInTransformers !! "DEFAULT")))).

(** ** The stylesheet assembler *)

(** Modelled from the spec: [util/bigSign] is not part of the sources. "Two
    rules compare via the sign of their key difference". *)
Definition bigSign (n : Z) : Z := Z.sgn n.

(** The comparator [([a], [z]) => bigSign(a - z)]. *)
Definition compareRules (a z : Z * Node) : Z := bigSign (a.1 - z.1).

(** [Array.prototype.sort(compare)]: the stable sort of the array. *)
Section ArraySort.
Context {A : Type} (compare : A → A → Z).

Fixpoint insertSorted (x : A) (l : list A) : list A :=
  match l with
  | [] => [x]
  | y :: l' => if compare x y <=? 0 then x :: l else y :: insertSorted x l'
  end.

Fixpoint Array_sort (l : list A) : list A :=
  match l with
  | [] => []
  | x :: l' => insertSorted x (Array_sort l')
  end.
End ArraySort.

(** A BigInt in a condition: [0n] is false. *)
Definition truthy (n : Z) : bool := negb (n =? 0).

Definition emptyStylesheet : Stylesheet :=
  {| ss_base := []; ss_defaults := []; ss_components := []; ss_utilities := [];
     ss_variants := []; ss_user := [] |}.

(** The body of the loop of [buildStylesheet]. *)
Definition routeRule (context : Context) (returnValue : Stylesheet)
    (entry : Z * Node) : Stylesheet :=
  let '(sort, rule) := entry in
  let r := returnValue in
  if minimumScreen context <=? sort then
    {| ss_base := ss_base r; ss_defaults := ss_defaults r; ss_components := ss_components r;
       ss_utilities := ss_utilities r; ss_variants := Set_add sameNode (ss_variants r) rule;
       ss_user := ss_user r |}
  else if truthy (Z.land sort (lo_base (layerOrder context))) then
    {| ss_base := Set_add sameNode (ss_base r) rule; ss_defaults := ss_defaults r;
       ss_components := ss_components r; ss_utilities := ss_utilities r;
       ss_variants := ss_variants r; ss_user := ss_user r |}
  else if truthy (Z.land sort (lo_defaults (layerOrder context))) then
    {| ss_base := ss_base r; ss_defaults := Set_add sameNode (ss_defaults r) rule;
       ss_components := ss_components r; ss_utilities := ss_utilities r;
       ss_variants := ss_variants r; ss_user := ss_user r |}
  else if truthy (Z.land sort (lo_components (layerOrder context))) then
    {| ss_base := ss_base r; ss_defaults := ss_defaults r;
       ss_components := Set_add sameNode (ss_components r) rule;
       ss_utilities := ss_utilities r; ss_variants := ss_variants r; ss_user := ss_user r |}
  else if truthy (Z.land sort (lo_utilities (layerOrder context))) then
    {| ss_base := ss_base r; ss_defaults := ss_defaults r; ss_components := ss_components r;
       ss_utilities := Set_add sameNode (ss_utilities r) rule;
       ss_variants := ss_variants r; ss_user := ss_user r |}
  else if truthy (Z.land sort (lo_user (layerOrder context))) then
    {| ss_base := ss_base r; ss_defaults := ss_defaults r; ss_components := ss_components r;
       ss_utilities := ss_utilities r; ss_variants := ss_variants r;
       ss_user := Set_add sameNode (ss_user r) rule |}
  else r.

Definition buildStylesheet (rules : list (Z * Node)) (context : Context) : Stylesheet :=
  let sortedRules := Array_sort compareRules rules in
  fold_left (routeRule context) sortedRules emptyStylesheet.

(** ** Root resolution in a PostCSS document *)

Definition isSome {A : Type} (o : option A) : bool :=
  match o with Some _ => true | None => false end.

(** The predicate of [doc.nodes.filter] in [findRootInDocument]. *)
Definition holdsLayerNode (layerNodes : LayerNodes) (node : Node) : bool :=
  if negb (bool_decide (type node = "root")) then false
  else if match ln_components layerNodes with
          | Some components => hasChild node components
          | None => false
          end then true
  else if match ln_utilities layerNodes with
          | Some utilities => hasChild node utilities
          | None => false
          end then true
  else false.

(** Returns the node chosen and the warnings logged. *)
Definition findRootInDocument (doc : Node) (layerNodes : LayerNodes) : Node * list Event :=
  if isSome (ln_variants layerNodes) then (doc, [])
  else
    let roots := List.filter (holdsLayerNode layerNodes) (nodes doc) in
    match last roots with
    | None => (doc, [Warn "postcss-document-root-missing"])
    | Some root => (root, [])
    end.

(** ** The pass *)

(** The state around a pass: the build context, the module-level
    [extractorCache], what was logged and called so far, and the first
    identity not yet given to an object. *)
Record World := {
  w_context : Context;
  w_extractorCache : gmap nat LRU;
  w_trace : list Event;
  w_nextId : nat
}.

(** "Find potential rules in changed files": one [Set] of candidates and one
    [Set] of seen lines for all the content units of the pass. *)
Definition collectUnit (env : Collaborators) (tailwindConfig : Config)
    (st : Collector) (unit : ContentUnit) : Collector :=
  let transformer := getTransformer tailwindConfig (extension unit) in
  let extractor := getExtractor env tailwindConfig (extension unit) in
  getClassCandidates (transformer (content unit)) extractor st.

Definition collectCandidates (env : Collaborators) (context : Context)
    (cache : gmap nat LRU) (trace : list Event) : Collector :=
  fold_left (collectUnit env (tailwindConfig context)) (changedContent context)
    {| candidates := Set_new sameString ["*"]; seen := ∅;
       extractorCache := cache; trace := trace |}.

Definition withClassCache (context : Context)
    (classCache : gmap string (list (Z * Node))) : Context :=
  {| tailwindConfig := tailwindConfig context; changedContent := changedContent context;
     classCache := classCache; ruleCache := ruleCache context;
     stylesheetCache := stylesheetCache context; minimumScreen := minimumScreen context;
     layerOrder := layerOrder context |}.

(** The body of the [if] of "Build stylesheet"; [buildStylesheet] is given
    [[...context.ruleCache]], the entries in the order of the [Set]. *)
Definition rebuildStylesheet (context : Context) (rules : list RuleEntry) : Context :=
  let ruleCache := Set_addAll sameEntry (ruleCache context) rules in
  {| tailwindConfig := tailwindConfig context; changedContent := changedContent context;
     classCache := classCache context; ruleCache := ruleCache;
     stylesheetCache := Some (buildStylesheet (entryPair <$> ruleCache) context);
     minimumScreen := minimumScreen context; layerOrder := layerOrder context |}.

(** The test of that [if], on the context left by [generateRules]. *)
Definition stylesheetIsStale (context : Context) (classCacheCount : nat) : bool :=
  negb (isSome (stylesheetCache context))
  || negb (bool_decide (size (classCache context) = classCacheCount)).

(** "Generate the actual CSS" and "Build stylesheet". *)
Definition assemble (env : Collaborators) (context : Context)
    (candidates : list string) : Context :=
  let classCacheCount := size (classCache context) in
  let '(rules, classCache) := generateRules env candidates context in
  let context := withClassCache context classCache in
  if stylesheetIsStale context classCacheCount
  then rebuildStylesheet context rules
  else context.

(** [directive.before(cloneNodes(bucket, directive.source))] followed by
    [directive.remove()]. *)
Definition replaceDirective (directive : Node) (bucket : list Node)
    (tree : Node) (next : nat) : Node * nat :=
  let '(clones, next) := cloneNodes bucket (source directive) next in
  (removeNode (nid directive) (insertBefore (nid directive) clones tree), next).

(** [if (layerNodes.x) { ... }] *)
Definition replaceIfPresent (directive : option Node) (bucket : list Node)
    (tree : Node) (next : nat) : Node * nat :=
  match directive with
  | Some d => replaceDirective d bucket tree next
  | None => (tree, next)
  end.

(** The predicate of the post-filtering of the variants. *)
Definition keepVariant (layerNodes : LayerNodes) (node : Node) : bool :=
  let parentLayer := parentLayer node in
  if bool_decide (parentLayer = Some "components") then isSome (ln_components layerNodes)
  else if bool_decide (parentLayer = Some "utilities") then isSome (ln_utilities layerNodes)
  else true.

Definition filterVariants (layerNodes : LayerNodes) (screenNodes : list Node) : list Node :=
  List.filter (keepVariant layerNodes) screenNodes.

Definition hasUtilityVariants (variantNodes : list Node) : bool :=
  existsb (fun node => bool_decide (parentLayer node = Some "utilities")) variantNodes.

(** [context.stylesheetCache] when it is destructured; it is never [null]
    there ([assemble_stylesheetCache]). *)
Definition currentStylesheet (context : Context) : Stylesheet :=
  default emptyStylesheet (stylesheetCache context).

(** The placement of the variants: at the directive, or appended to the
    effective root. *)
Definition placeVariants (layerNodes : LayerNodes) (variantNodes : list Node)
    (root : Node) (tree : Node) (next : nat) : Node * nat :=
  match ln_variants layerNodes with
  | Some d => replaceDirective d variantNodes tree next
  | None =>
      if bool_decide (0 < length variantNodes)%nat then
        let '(clones, next) := cloneNodes variantNodes (source root) next in
        (appendTo (nid root) clones tree, next)
      else (tree, next)
  end.

Definition utilitiesWarning (layerNodes : LayerNodes) (utilityNodes variantNodes : list Node)
    : list Event :=
  if isSome (ln_utilities layerNodes) && bool_decide (length utilityNodes = 0%nat)
     && negb (hasUtilityVariants variantNodes)
  then [Warn "content-problems"] else [].

Definition withChangedContent (context : Context) (changed : list ContentUnit) : Context :=
  {| tailwindConfig := tailwindConfig context; changedContent := changed;
     classCache := classCache context; ruleCache := ruleCache context;
     stylesheetCache := stylesheetCache context; minimumScreen := minimumScreen context;
     layerOrder := layerOrder context |}.

(** "Experimental PostCSS document node support": the node the variants are
    appended to and the [layer] at-rules are cleaned from. *)
Definition resolveRoot (root : Node) (layerNodes : LayerNodes) : Node * list Event :=
  if bool_decide (type root = "document") then findRootInDocument root layerNodes
  else (root, []).

(** The function returned by [expandTailwindAtRules(context)], applied to
    the tree [root]; the result is the state after the pass and the tree. *)
Definition expandTailwindAtRules (env : Collaborators) (w : World) (root : Node)
    : World * Node :=
  let layerNodes := scanLayerNodes root in
  if allNull layerNodes then (w, root)
  else
    let tree := root in
    let '(root, warnings) := resolveRoot root layerNodes in
    let st := collectCandidates env (w_context w) (w_extractorCache w)
                (w_trace w ++ warnings) in
    let context := assemble env (w_context w) (candidates st) in
    let sheet := currentStylesheet context in
    let next := w_nextId w in
    let '(tree, next) :=
      replaceIfPresent (ln_base layerNodes) (ss_base sheet ++ ss_defaults sheet) tree next in
    let '(tree, next) :=
      replaceIfPresent (ln_components layerNodes) (ss_components sheet) tree next in
    let '(tree, next) :=
      replaceIfPresent (ln_utilities layerNodes) (ss_utilities sheet) tree next in
    let variantNodes := filterVariants layerNodes (ss_variants sheet) in
    let '(tree, next) := placeVariants layerNodes variantNodes root tree next in
    let advisory := utilitiesWarning layerNodes (ss_utilities sheet) variantNodes in
    let context := withChangedContent context [] in
    let tree := cleanupAt (nid root) tree in
    ({| w_context := context;
        w_extractorCache := extractorCache st;
        w_trace := trace st ++ [GenerateRules (candidates st)] ++ advisory;
        w_nextId := next |}, tree).

(** ** The routing precedence, as the specification words it *)

Inductive Bucket := Variants | Base | Defaults | Components | Utilities | User.

Global Instance Bucket_eq_dec : EqDecision Bucket.
Proof. solve_decision. Defined.

Definition bucket (b : Bucket) (s : Stylesheet) : list Node :=
  match b with
  | Variants => ss_variants s
  | Base => ss_base s
  | Defaults => ss_defaults s
  | Components => ss_components s
  | Utilities => ss_utilities s
  | User => ss_user s
  end.

(** The layer bit flags in the order in which they are tested. *)
Definition layerFlags (context : Context) : list (Bucket * Z) :=
  [ (Base, lo_base (layerOrder context));
    (Defaults, lo_defaults (layerOrder context));
    (Components, lo_components (layerOrder context));
    (Utilities, lo_utilities (layerOrder context));
    (User, lo_user (layerOrder context)) ].

(** "If its key meets or exceeds the minimum variant threshold, route to
    variants; else test the layer bit flags in fixed order, routing to the
    first matching bucket"; [None] when nothing matches. *)
Definition bucketOfKey (context : Context) (sort : Z) : option Bucket :=
  if bool_decide (minimumScreen context ≤ sort) then Some Variants
  else fst <$> List.find (fun f => bool_decide (Z.land sort f.2 ≠ 0)) (layerFlags context).

(** The rules of [rules] that the precedence sends to [b], in order. *)
Definition routedTo (context : Context) (b : Bucket) (rules : list (Z * Node)) : list Node :=
  snd <$> filter (fun e => bucketOfKey context e.1 = Some b) rules.

(** ** What a pass did, read off the trace *)

Definition eventLine (ev : Event) : option string :=
  match ev with
  | ExtractorCall _ line | CacheHit _ line => Some line
  | GenerateRules _ | Warn _ => None
  end.

Definition eventExtractor (ev : Event) : option nat :=
  match ev with
  | ExtractorCall e _ | CacheHit e _ => Some e
  | GenerateRules _ | Warn _ => None
  end.

(** The lines that went past the [seen] test, in order. *)
Definition processedLines (evs : list Event) : list string := omap eventLine evs.

(** The set built from the matches of the extractor on a line. *)
Definition lineMatches (extractor : Extractor) (line : string) : list string :=
  Set_new sameString
    (List.filter (fun s => negb (sameString s "!*")) (extract extractor line)).

(** The trimmed lines of a text. *)
Definition trimmedLines (content : string) : list string :=
  trim <$> split_newline content.

(** The trimmed lines of a content unit, after its transformer. *)
Definition unitLines (tailwindConfig : Config) (unit : ContentUnit) : list string :=
  trimmedLines (getTransformer tailwindConfig (extension unit) (content unit)).

(** The first changed-content unit that contains the line. *)
Definition firstUnitWith (tailwindConfig : Config) (units : list ContentUnit)
    (line : string) : option ContentUnit :=
  List.find (fun unit => bool_decide (line ∈ unitLines tailwindConfig unit)) units.

(** [extractorCache.get(extractor)] by the identity of the extractor. *)
Definition lruOf (cache : gmap nat LRU) (e : nat) : LRU :=
  default (LRU_new 25000) (cache !! e).

(** The event belongs to the extractor of the first unit with its line. *)
Definition ownedByFirstUnit (env : Collaborators) (tailwindConfig : Config)
    (units : list ContentUnit) (ev : Event) : Prop :=
  ∀ line, eventLine ev = Some line →
    ∃ unit, firstUnitWith tailwindConfig units line = Some unit ∧
      eventExtractor ev = Some (eid (getExtractor env tailwindConfig (extension unit))).

(** Where a candidate of a pass can come from: the wildcard, or a line and
    the extractor of the first unit with that line, either run on the line
    or through the set that extractor's cache held for the line when the
    pass began. *)
Definition candidateOrigin (env : Collaborators) (tailwindConfig : Config)
    (units : list ContentUnit) (cache : gmap nat LRU) (c : string) : Prop :=
  c = "*" ∨
  ∃ line unit, firstUnitWith tailwindConfig units line = Some unit ∧
    let extractor := getExtractor env tailwindConfig (extension unit) in
    (c ∈ lineMatches extractor line ∨
     ∃ cached, LRU_lookup line (lruOf cache (eid extractor)) = Some cached ∧ c ∈ cached).

(** The invariant of the collection of a pass that began with the cache
    [cache0] and the trace [tr0]: [units] are the units begun so far and
    [lines] tells which lines were met so far. *)
Definition collectingInv (env : Collaborators) (cfg : Config) (cache0 : gmap nat LRU)
    (tr0 : list Event) (units : list ContentUnit) (lines : string → Prop)
    (st : Collector) : Prop :=
  ∃ new, trace st = tr0 ++ new ∧
    NoDup (processedLines new) ∧
    (∀ l, l ∈ seen st ↔ l ∈ processedLines new) ∧
    (∀ l, l ∈ seen st ↔ lines l) ∧
    (∀ ev, ev ∈ new → ownedByFirstUnit env cfg units ev) ∧
    (∀ e l S, l ∉ seen st →
       LRU_lookup l (lruOf (extractorCache st) e) = Some S →
       LRU_lookup l (lruOf cache0 e) = Some S) ∧
    (∀ c, c ∈ candidates st → candidateOrigin env cfg units cache0 c).

(** The lines met once the units [units] are done. *)
Definition linesOfUnits (cfg : Config) (units : list ContentUnit) (l : string) : Prop :=
  ∃ u, u ∈ units ∧ l ∈ unitLines cfg u.

(** ** The local variables of a pass that gets past the bail-out *)

(** [candidates] and [seen] after "Find potential rules in changed files". *)
Definition passCollector (env : Collaborators) (w : World) (root : Node) : Collector :=
  collectCandidates env (w_context w) (w_extractorCache w)
    (w_trace w ++ (resolveRoot root (scanLayerNodes root)).2).

(** [context] after "Build stylesheet". *)
Definition passContext (env : Collaborators) (w : World) (root : Node) : Context :=
  assemble env (w_context w) (candidates (passCollector env w root)).

(** The buckets destructured from [context.stylesheetCache]. *)
Definition passStylesheet (env : Collaborators) (w : World) (root : Node) : Stylesheet :=
  currentStylesheet (passContext env w root).

(** [variantNodes] *)
Definition passVariantNodes (env : Collaborators) (w : World) (root : Node) : list Node :=
  filterVariants (scanLayerNodes root) (ss_variants (passStylesheet env w root)).

(** The tree and the allocator once the base, components and utilities
    directives are replaced. *)
Definition passLayersReplaced (env : Collaborators) (w : World) (root : Node) : Node * nat :=
  let layerNodes := scanLayerNodes root in
  let sheet := passStylesheet env w root in
  let '(tree, next) :=
    replaceIfPresent (ln_base layerNodes) (ss_base sheet ++ ss_defaults sheet)
      root (w_nextId w) in
  let '(tree, next) :=
    replaceIfPresent (ln_components layerNodes) (ss_components sheet) tree next in
  replaceIfPresent (ln_utilities layerNodes) (ss_utilities sheet) tree next.

(** An at-rule [@tailwind key]. *)
Definition isDirective (key : string) (rule : Node) : Prop :=
  name rule = "tailwind" ∧ params rule = key.

Global Instance isDirective_dec (key : string) (rule : Node) : Decision (isDirective key rule).
Proof. unfold isDirective. apply _. Defined.

(** ** What the pass leaves alone in the tree *)

(** The nodes the pass removes: the recorded Layer Nodes and the [layer]
    at-rules of the final cleanup. *)
Definition removedByPass (layerNodes : LayerNodes) (c : Node) : bool :=
  isLayerMarker c
  || existsb (fun o : option Node =>
                match o with Some d => bool_decide (nid d = nid c) | None => false end)
       (layerNodes_values layerNodes).

(** Same object, with every field of its own as it was; the children are
    not compared. *)
Definition sameHead (d c : Node) : Prop :=
  nid c = nid d ∧ type c = type d ∧ name c = name d ∧ params c = params d ∧
  source c = source d ∧ parentLayer c = parentLayer d.

(** [d] lies in the tree [n], below nodes that the pass does not remove. *)
Inductive keptIn (layerNodes : LayerNodes) (d : Node) : Node → Prop :=
  | keptIn_child (n c : Node) :
      c ∈ nodes n → removedByPass layerNodes c = false → sameHead d c →
      keptIn layerNodes d n
  | keptIn_below (n c : Node) :
      c ∈ nodes n → removedByPass layerNodes c = false → keptIn layerNodes d c →
      keptIn layerNodes d n.

(** [d] itself, children included, is a child of [n] or of a node below
    [n], under nodes that the pass does not remove. *)
Inductive untouchedIn (layerNodes : LayerNodes) (d : Node) : Node → Prop :=
  | untouchedIn_child (n : Node) :
      d ∈ nodes n → removedByPass layerNodes d = false →
      untouchedIn layerNodes d n
  | untouchedIn_below (n c : Node) :
      c ∈ nodes n → removedByPass layerNodes c = false → untouchedIn layerNodes d c →
      untouchedIn layerNodes d n.

(** ** A small project, to run the definitions on *)

Module Example.

(** Stands for the default extractor: the line itself, and the noise
    token. *)
Definition lineExtractor : Extractor :=
  {| eid := 0; extract := fun line => [line; "!*"; line] |}.

(** A second extractor, chosen for [svelte] files. *)
Definition prefixExtractor : Extractor :=
  {| eid := 1; extract := fun line => [String.append "x-" line] |}.

Definition ruleNode (i : nat) (layer : option string) : Node :=
  mkNode i "rule" "" "" None layer [].

Definition rulesFor (candidate : string) : list (Z * Node) :=
  if bool_decide (candidate = "*") then [(1, ruleNode 100 None)]
  else if bool_decide (candidate = "btn") then [(4, ruleNode 101 None)]
  else if bool_decide (candidate = "p-4") then [(8, ruleNode 102 None)]
  else if bool_decide (candidate = "md:btn") then [(36, ruleNode 103 (Some "components"))]
  else if bool_decide (candidate = "md:p-4") then [(40, ruleNode 104 (Some "utilities"))]
  else if bool_decide (candidate = "print") then [(64, ruleNode 105 None)]
  else [].

(** The arrays of a candidate: the generator keeps them, so that a later
    call returns the same objects (array [i] holds the rule node [i]). *)
Definition entriesFor (candidate : string) : list RuleEntry :=
  (λ e : Z * Node, {| entryId := nid e.2; entrySort := e.1; entryRule := e.2 |})
    <$> rulesFor candidate.

Definition env : Collaborators :=
  {| generateRules := fun candidates context =>
       (flat_map entriesFor candidates,
        fold_left (fun m c => <[c := rulesFor c]> m) candidates (classCache context));
     defaultExtractor := lineExtractor |}.

Definition config : Config :=
  {| content_extract := {[ "svelte" := prefixExtractor ]};
     content_transform := ∅ |}.

Definition layers : LayerOrder :=
  {| lo_base := 1; lo_defaults := 2; lo_components := 4; lo_utilities := 8;
     lo_user := 16 |}.

Definition context : Context :=
  {| tailwindConfig := config;
     changedContent :=
       [ {| content := "p-4
  md:p-4
md:btn
print
p-4"; extension := "html" |};
         {| content := "class:p-4
btn"; extension := "svelte" |} ];
     classCache := ∅;
     ruleCache := [];
     stylesheetCache := None;
     minimumScreen := 32;
     layerOrder := layers |}.

Definition world : World :=
  {| w_context := context; w_extractorCache := ∅; w_trace := []; w_nextId := 1000 |}.

(** The same project when no content was found. *)
Definition idleWorld : World :=
  {| w_context := withChangedContent context [];
     w_extractorCache := ∅; w_trace := []; w_nextId := 1000 |}.

(** The collector at the start of a pass, with one line already seen. *)
Definition collector : Collector :=
  {| candidates := ["*"]; seen := {[ "p-4" ]}; extractorCache := ∅; trace := [] |}.

Definition atRule (i : nat) (name params : string) : Node :=
  mkNode i "atrule" name params (Some i) None [].

(** [@tailwind base; @tailwind utilities; @tailwind utilities; .a {}] *)
Definition root : Node :=
  mkNode 0 "root" "" "" None None
    [ atRule 1 "tailwind" "base"; atRule 2 "tailwind" "utilities";
      atRule 3 "tailwind" "utilities"; mkNode 4 "rule" "" "" None None [] ].

(** A tree without directives. *)
Definition plainRoot : Node :=
  mkNode 0 "root" "" "" None None
    [ mkNode 1 "rule" "" "" None None []; atRule 2 "media" "print" ].

(** A document of three roots; the directives are in the first two. *)
Definition document : Node :=
  mkNode 0 "document" "" "" None None
    [ mkNode 10 "root" "" "" None None [ atRule 11 "tailwind" "base" ];
      mkNode 20 "root" "" "" None None [ atRule 21 "tailwind" "utilities" ];
      mkNode 30 "root" "" "" None None [ mkNode 31 "rule" "" "" None None [] ] ].

(** The rule list of [buildStylesheet] in the examples. *)
Definition rules : list (Z * Node) :=
  [ (40, ruleNode 104 (Some "utilities")); (8, ruleNode 102 None);
    (1, ruleNode 100 None); (0, ruleNode 106 None); (12, ruleNode 107 None) ].

End Example.

(** ** Notions used to state what the code keeps *)

(** [pat] occurs somewhere in [s]. *)
Definition occursIn (pat s : string) : Prop :=
  ∃ pre post, s = String.append pre (String.append pat post).

(** The identities of the nodes below [n], and of a list of subtrees. *)
Definition idsBelow (n : Node) : list nat := nid <$> walk n.

Definition idsOf (l : list Node) : list nat :=
  flat_map (fun c => nid c :: idsBelow c) l.

(** No cached set holds the noise token. *)
Definition cleanCache (cache : gmap nat LRU) : Prop :=
  ∀ e line cached, LRU_lookup line (lruOf cache e) = Some cached → "!*" ∉ cached.

(** A test for [occursIn]. *)
Fixpoint containsb (pat s : string) : bool :=
  String.prefix pat s
  || match s with
     | EmptyString => false
     | String _ s' => containsb pat s'
     end.

(** The loop of [getClassCandidates] replayed with the set [served line]
    for every line that gets past the [seen] test. *)
Definition replayStep (served : string → option (list string))
    (s : list string * gset string) (raw : string) : list string * gset string :=
  let line := trim raw in
  if bool_decide (line ∈ s.2) then s
  else (Set_addAll sameString s.1 (default [] (served line)), {[line]} ∪ s.2).

(** An at-rule [@tailwind name] with a recognized layer name. *)
Definition isLayerDirective (rule : Node) : Prop :=
  name rule = "tailwind" ∧ params rule ∈ layerNames.

(** ** Further cases of the small project *)

Module Cases.

(** A configuration with [DEFAULT] entries in both lookup objects. *)
Definition config : Config :=
  {| content_extract := {[ "DEFAULT" := Example.prefixExtractor ]};
     content_transform := {[ "DEFAULT" := String.append "T:" ]} |}.

(** A document whose only directive is [@tailwind base]. *)
Definition baseDocument : Node :=
  mkNode 0 "document" "" "" None None
    [ mkNode 10 "root" "" "" None None [ Example.atRule 11 "tailwind" "base" ] ].

(** [@tailwind utilities; @layer utilities { .a {} } @media print { @layer base; }] *)
Definition layeredRoot : Node :=
  mkNode 0 "root" "" "" None None
    [ Example.atRule 1 "tailwind" "utilities";
      mkNode 2 "atrule" "layer" "utilities" None None
        [ mkNode 3 "rule" "" "" None None [] ];
      mkNode 4 "atrule" "media" "print" None None
        [ Example.atRule 5 "layer" "base" ] ].

(** Layer Nodes for [components] and [utilities]. *)
Definition bothLayers : LayerNodes :=
  {| ln_base := None;
     ln_components := Some (Example.atRule 6 "tailwind" "components");
     ln_utilities := Some (Example.atRule 7 "tailwind" "utilities");
     ln_variants := None |}.

(** The collector at the start of a pass. *)
Definition collector : Collector :=
  {| candidates := ["*"]; seen := ∅; extractorCache := ∅; trace := [] |}.

(** [@layer base { @tailwind utilities; } @tailwind utilities;] *)
Definition nestedDuplicate : Node :=
  mkNode 0 "root" "" "" None None
    [ mkNode 1 "atrule" "layer" "base" None None
        [ Example.atRule 2 "tailwind" "utilities" ];
      Example.atRule 3 "tailwind" "utilities" ].

End Cases.

(** * Properties *)

(** ** Sets in insertion order *)

Section JSSetFacts.
Context {A K : Type} (same : A → A → bool) (key : A → K).
Hypothesis same_key : ∀ x y, same x y = true ↔ key x = key y.

Lemma Set_has_spec (s : list A) (x : A) :
  Set_has same s x = true ↔ key x ∈ key <$> s.
Proof using same_key.
  unfold Set_has. rewrite existsb_exists, list_elem_of_fmap.
  split.
  - intros (y & Hy & Hs). exists y. split; [by apply same_key|].
    by apply list_elem_of_In.
  - intros (y & Hk & Hy). exists y. split; [by apply list_elem_of_In|].
    by apply same_key.
Qed.

Lemma Set_add_elem (s : list A) (x : A) (k : K) :
  k ∈ key <$> Set_add same s x ↔ k ∈ key <$> s ∨ k = key x.
Proof using same_key.
  unfold Set_add. destruct (Set_has same s x) eqn:Hx.
  - apply Set_has_spec in Hx. split; [tauto|]. intros [?| ->]; done.
  - rewrite fmap_app, elem_of_app. simpl. rewrite list_elem_of_singleton. tauto.
Qed.

Lemma Set_addAll_elem (xs s : list A) (k : K) :
  k ∈ key <$> Set_addAll same s xs ↔ k ∈ key <$> s ∨ k ∈ key <$> xs.
Proof using same_key.
  revert s. induction xs as [|x xs IH]; intros s; simpl.
  - rewrite elem_of_nil. tauto.
  - unfold Set_addAll in *. simpl. rewrite IH, Set_add_elem, elem_of_cons. tauto.
Qed.

Lemma Set_add_NoDup (s : list A) (x : A) :
  NoDup (key <$> s) → NoDup (key <$> Set_add same s x).
Proof using same_key.
  intros Hs. unfold Set_add. destruct (Set_has same s x) eqn:Hx; [done|].
  rewrite fmap_app. apply NoDup_app. split; [done|]. split; [|apply NoDup_singleton].
  intros k Hk Hin. apply list_elem_of_singleton in Hin. subst.
  apply Set_has_spec in Hk. congruence.
Qed.

Lemma Set_addAll_NoDup (xs s : list A) :
  NoDup (key <$> s) → NoDup (key <$> Set_addAll same s xs).
Proof using same_key.
  revert s. induction xs as [|x xs IH]; intros s Hs; [done|].
  unfold Set_addAll in *. simpl. apply IH. by apply Set_add_NoDup.
Qed.

Lemma Set_addAll_app (s xs ys : list A) :
  Set_addAll same s (xs ++ ys) = Set_addAll same (Set_addAll same s xs) ys.
Proof. unfold Set_addAll. apply fold_left_app. Qed.
End JSSetFacts.

Lemma sameString_key (x y : string) : sameString x y = true ↔ id x = id y.
Proof. unfold sameString. by rewrite bool_decide_eq_true. Qed.

Lemma sameNode_key (x y : Node) : sameNode x y = true ↔ nid x = nid y.
Proof. unfold sameNode. by rewrite bool_decide_eq_true. Qed.

Lemma sameEntry_key (x y : RuleEntry) : sameEntry x y = true ↔ entryId x = entryId y.
Proof. unfold sameEntry. by rewrite bool_decide_eq_true. Qed.

(** What [for (let x of xs) s.add(x)] appends to the set: the first
    occurrence of every element of [xs] that the set did not hold. *)
Lemma Set_addAll_added {A K : Type} (same : A → A → bool) (key : A → K)
    (same_key : ∀ x y, same x y = true ↔ key x = key y) (xs s : list A) :
  ∃ added, Set_addAll same s xs = s ++ added ∧
    added `sublist_of` xs ∧
    NoDup (key <$> added) ∧
    (∀ e, e ∈ added → key e ∉ key <$> s).
Proof.
  revert s. induction xs as [|x xs IH]; intros s.
  { exists []. rewrite app_nil_r. split; [done|]. split; [constructor|].
    split; [constructor|]. by intros e ?%elem_of_nil. }
  unfold Set_addAll in *. simpl. unfold Set_add at 2.
  destruct (Set_has same s x) eqn:Hx.
  - destruct (IH s) as (added & -> & Hsub & Hnd & Hnew).
    exists added. split; [done|]. split; [by apply sublist_cons|]. by split.
  - destruct (IH (s ++ [x])) as (added & -> & Hsub & Hnd & Hnew).
    assert (Hxs : key x ∉ key <$> s).
    { intros Hin. apply (Set_has_spec same key same_key) in Hin. congruence. }
    exists (x :: added). split; [by rewrite <- app_assoc|].
    split; [by apply sublist_skip|]. split.
    + rewrite fmap_cons. constructor; [|done].
      intros (e & He & Hin)%list_elem_of_fmap. apply (Hnew e Hin).
      rewrite fmap_app, elem_of_app. right. rewrite <- He. by left.
    + intros e [->|He]%elem_of_cons; [done|].
      intros Hin. apply (Hnew e He). rewrite fmap_app, elem_of_app. by left.
Qed.

(** Membership in a set of strings after a union. *)
Lemma candidates_union (s xs : list string) (x : string) :
  x ∈ Set_addAll sameString s xs ↔ x ∈ s ∨ x ∈ xs.
Proof.
  pose proof (Set_addAll_elem sameString id sameString_key xs s x) as H.
  by rewrite !list_fmap_id in H.
Qed.

Lemma Set_new_strings_NoDup (xs : list string) : NoDup (Set_new sameString xs).
Proof.
  pose proof (Set_addAll_NoDup sameString id sameString_key xs []) as H.
  rewrite !list_fmap_id in H. apply H. constructor.
Qed.

(** ** The stable sort *)

Section ArraySortFacts.
Context {A : Type} (compare : A → A → Z).

Lemma insertSorted_perm (x : A) (l : list A) : insertSorted compare x l ≡ₚ x :: l.
Proof.
  induction l as [|y l IH]; simpl; [done|].
  destruct (compare x y <=? 0); [done|].
  rewrite IH. apply Permutation_swap.
Qed.

Lemma Array_sort_perm (l : list A) : Array_sort compare l ≡ₚ l.
Proof.
  induction l as [|x l IH]; simpl; [done|].
  by rewrite insertSorted_perm, IH.
Qed.
End ArraySortFacts.

Definition keyLe (a z : Z * Node) : Prop := a.1 ≤ z.1.

Lemma compareRules_le (a z : Z * Node) :
  (compareRules a z <=? 0) = true ↔ keyLe a z.
Proof.
  unfold compareRules, bigSign, keyLe. rewrite Z.leb_le.
  destruct (Z.sgn_spec (a.1 - z.1)) as [[? ->]|[[? ->]|[? ->]]]; lia.
Qed.

Lemma insertSorted_sorted (x : Z * Node) (l : list (Z * Node)) :
  StronglySorted keyLe l → StronglySorted keyLe (insertSorted compareRules x l).
Proof.
  induction 1 as [|y l Hl IH Hy]; simpl.
  - repeat constructor.
  - destruct (compareRules x y <=? 0) eqn:Hc.
    + apply compareRules_le in Hc. constructor; [by constructor|].
      constructor; [done|]. eapply Forall_impl; [exact Hy|].
      unfold keyLe in *. intros; lia.
    + constructor; [done|].
      assert (keyLe y x) as Hyx.
      { destruct (Z.le_gt_cases x.1 y.1) as [Hle|Hle].
        - apply (compareRules_le x y) in Hle. congruence.
        - unfold keyLe. lia. }
      rewrite insertSorted_perm. by constructor.
  Qed.

Lemma Array_sort_sorted (l : list (Z * Node)) :
  StronglySorted keyLe (Array_sort compareRules l).
Proof.
  induction l as [|x l IH]; simpl; [constructor|]. by apply insertSorted_sorted.
Qed.

(** The sort is stable: entries of one key keep their order. *)
Lemma insertSorted_stable (x : Z * Node) (l : list (Z * Node)) (k : Z) :
  filter (λ e, e.1 = k) (insertSorted compareRules x l)
  = filter (λ e, e.1 = k) (x :: l).
Proof.
  induction l as [|y l IH]; simpl; [done|].
  destruct (compareRules x y <=? 0) eqn:Hc; [done|].
  assert (y.1 < x.1) as Hlt.
  { destruct (Z.le_gt_cases x.1 y.1) as [Hle|Hgt]; [|lia].
    apply (compareRules_le x y) in Hle. congruence. }
  rewrite (filter_cons _ y), IH, !filter_cons.
  repeat case_decide; try done. lia.
Qed.

Lemma Array_sort_stable (l : list (Z * Node)) (k : Z) :
  filter (λ e, e.1 = k) (Array_sort compareRules l) = filter (λ e, e.1 = k) l.
Proof.
  induction l as [|x l IH]; simpl; [done|].
  by rewrite insertSorted_stable, !filter_cons, IH.
Qed.

(** ** The stylesheet assembler *)

Lemma truthy_decide (n : Z) : truthy n = bool_decide (n ≠ 0).
Proof.
  unfold truthy. destruct (Z.eqb_spec n 0); simpl; symmetry.
  - by apply bool_decide_eq_false; intros ?.
  - by apply bool_decide_eq_true.
Qed.

Lemma leb_decide (a b : Z) : (a <=? b) = bool_decide (a ≤ b).
Proof.
  destruct (Z.leb_spec a b); symmetry.
  - by apply bool_decide_eq_true.
  - apply bool_decide_eq_false. lia.
Qed.

(** One turn of the loop adds the rule to the bucket of the precedence and
    leaves the other buckets alone. *)
Lemma routeRule_bucket (context : Context) (r : Stylesheet) (e : Z * Node) (b : Bucket) :
  bucket b (routeRule context r e) =
  if decide (bucketOfKey context e.1 = Some b)
  then Set_add sameNode (bucket b r) e.2 else bucket b r.
Proof.
  destruct e as [sort rule]. unfold routeRule, bucketOfKey, layerFlags.
  rewrite leb_decide, !truthy_decide. simpl.
  repeat (case_bool_decide; simpl;
          [destruct b; simpl; first [done | by case_decide]|]).
  destruct b; simpl; first [done | by case_decide].
Qed.

Lemma routeRules_bucket (context : Context) (l : list (Z * Node)) (r : Stylesheet)
    (b : Bucket) :
  bucket b (fold_left (routeRule context) l r) =
  Set_addAll sameNode (bucket b r) (routedTo context b l).
Proof.
  revert r. induction l as [|e l IH]; intros r; [done|].
  simpl. rewrite IH, routeRule_bucket. unfold routedTo.
  rewrite filter_cons. by case_decide.
Qed.

Lemma routedTo_elem (context : Context) (b : Bucket) (l : list (Z * Node)) (k : nat) :
  k ∈ nid <$> routedTo context b l ↔
  ∃ e, e ∈ l ∧ nid e.2 = k ∧ bucketOfKey context e.1 = Some b.
Proof.
  unfold routedTo. rewrite list_elem_of_fmap. split.
  - intros (n & -> & Hn). apply list_elem_of_fmap in Hn as (e & -> & He).
    apply list_elem_of_filter in He as [Hb He]. by exists e.
  - intros (e & He & <- & Hb). exists e.2. split; [done|].
    apply list_elem_of_fmap. exists e. split; [done|]. by apply list_elem_of_filter.
Qed.

(** A rule node is in a bucket exactly when one of its entries is routed
    there; no bucket holds a rule node twice. *)
Lemma buildStylesheet_bucket (rules : list (Z * Node)) (context : Context) (b : Bucket) :
  NoDup (nid <$> bucket b (buildStylesheet rules context)) ∧
  ∀ rule, (∃ n, n ∈ bucket b (buildStylesheet rules context) ∧ nid n = nid rule) ↔
          ∃ e, e ∈ rules ∧ nid e.2 = nid rule ∧ bucketOfKey context e.1 = Some b.
Proof.
  assert (Hb : bucket b (buildStylesheet rules context)
               = Set_new sameNode (routedTo context b (Array_sort compareRules rules))).
  { unfold buildStylesheet. rewrite routeRules_bucket. by destruct b. }
  rewrite Hb. split.
  - apply (Set_addAll_NoDup sameNode nid sameNode_key). constructor.
  - intros rule. unfold Set_new.
    pose proof (Set_addAll_elem sameNode nid sameNode_key
                  (routedTo context b (Array_sort compareRules rules)) [] (nid rule)) as H.
    rewrite routedTo_elem in H. simpl in H. rewrite elem_of_nil in H.
    split.
    + intros (n & Hn & Hid).
      assert (Hin : nid rule ∈ nid <$> Set_addAll sameNode []
                      (routedTo context b (Array_sort compareRules rules)))
        by (rewrite <- Hid; by apply list_elem_of_fmap_2).
      apply H in Hin as [[]|(e & He & Hk & Hr)].
      exists e. split; [|done]. by rewrite <- (Array_sort_perm compareRules rules).
    + intros (e & He & Hk & Hr).
      assert (Hin : nid rule ∈ nid <$> Set_addAll sameNode []
                      (routedTo context b (Array_sort compareRules rules))).
      { apply H. right. exists e. split; [|done].
        by rewrite (Array_sort_perm compareRules rules). }
      apply list_elem_of_fmap in Hin as (n & Hid & Hn). by exists n.
Qed.

(** C1. [buildStylesheet] sorts the rule list by ascending sort key (the
    comparator is the sign of the key difference; entries of one key keep
    their order) and scans it once. Each
    bucket of the result is the set, in that order, of the rules the
    precedence sends to it: variants when the key is at or above
    [minimumScreen], otherwise the first of base, defaults, components,
    utilities, user whose bit is set in the key. So a rule is in a bucket
    exactly when one of its entries is routed there; a rule with a single
    key is in the bucket of the precedence and in no other, and in none at
    all when neither the threshold nor a layer bit matches. *)
Theorem buildStylesheet_partition (rules : list (Z * Node)) (context : Context) :
  let sortedRules := Array_sort compareRules rules in
  let sheet := buildStylesheet rules context in
  sortedRules ≡ₚ rules ∧
  StronglySorted keyLe sortedRules ∧
  (∀ k, filter (λ e, e.1 = k) sortedRules = filter (λ e, e.1 = k) rules) ∧
  (∀ b, bucket b sheet = Set_new sameNode (routedTo context b sortedRules)) ∧
  (∀ b rule, Set_has sameNode (bucket b sheet) rule = true ↔
     ∃ e, e ∈ rules ∧ nid e.2 = nid rule ∧ bucketOfKey context e.1 = Some b) ∧
  (∀ sort rule, (sort, rule) ∈ rules →
     (∀ e, e ∈ rules → nid e.2 = nid rule → e.1 = sort) →
     ∀ b, Set_has sameNode (bucket b sheet) rule = true ↔
          bucketOfKey context sort = Some b).
Proof.
  intros sortedRules sheet.
  assert (Hperm : sortedRules ≡ₚ rules) by apply Array_sort_perm.
  assert (Hbuckets : ∀ b, bucket b sheet
                          = Set_new sameNode (routedTo context b sortedRules)).
  { intros b. unfold sheet, buildStylesheet. rewrite routeRules_bucket.
    by destruct b. }
  assert (Hmem : ∀ b rule, Set_has sameNode (bucket b sheet) rule = true ↔
     ∃ e, e ∈ rules ∧ nid e.2 = nid rule ∧ bucketOfKey context e.1 = Some b).
  { intros b rule. rewrite Hbuckets.
    rewrite (Set_has_spec sameNode nid sameNode_key). unfold Set_new.
    rewrite (Set_addAll_elem sameNode nid sameNode_key), routedTo_elem.
    simpl. rewrite elem_of_nil. split.
    - intros [[]|(e & He & Hk & Hb)]. exists e. by rewrite <- Hperm.
    - intros (e & He & Hk & Hb). right. exists e. by rewrite Hperm. }
  split; [done|]. split; [apply Array_sort_sorted|].
  split; [apply Array_sort_stable|]. split; [done|]. split; [done|].
  intros sort rule Hin Huniq b. rewrite Hmem. split.
  - intros (e & He & Hk & Hb). by rewrite <- (Huniq e He Hk).
  - intros Hb. by exists (sort, rule).
Qed.

(** ** The extraction cache *)

Lemma LRU_has_lookup (key : string) (c : LRU) :
  LRU_has key c = true ↔ is_Some (LRU_lookup key c).
Proof.
  unfold LRU_has. destruct (LRU_lookup key c); split; try done.
Qed.

Lemma LRU_get_value (key : string) (c : LRU) : (LRU_get key c).1 = LRU_lookup key c.
Proof. unfold LRU_get. by destruct (LRU_lookup key c). Qed.

Lemma find_take {A : Type} (f : A → bool) (n : nat) (l : list A) (x : A) :
  List.find f (take n l) = Some x → List.find f l = Some x.
Proof.
  revert n. induction l as [|y l IH]; intros [|n]; simpl; try done.
  destruct (f y); [done|]. apply IH.
Qed.

Lemma find_without (key other : string) (es : list (string * list string)) :
  key ≠ other →
  List.find (fun e => sameString key e.1)
    (List.filter (fun e => negb (sameString other e.1)) es)
  = List.find (fun e => sameString key e.1) es.
Proof.
  intros Hne. induction es as [|[k v] es IH]; simpl; [done|].
  unfold sameString in *. simpl.
  destruct (bool_decide_reflect (other = k)) as [<-|Hk]; simpl.
  - rewrite bool_decide_eq_false_2 by done. exact IH.
  - by rewrite IH.
Qed.

Lemma LRU_lookup_get_same (key : string) (c : LRU) (v : list string) :
  LRU_lookup key c = Some v → LRU_lookup key (LRU_get key c).2 = Some v.
Proof.
  intros H. unfold LRU_get. rewrite H. unfold LRU_lookup, sameString. simpl.
  by rewrite bool_decide_eq_true_2.
Qed.

Lemma LRU_lookup_get_other (key other : string) (c : LRU) :
  key ≠ other → LRU_lookup key (LRU_get other c).2 = LRU_lookup key c.
Proof.
  intros Hne. unfold LRU_get. destruct (LRU_lookup other c) eqn:Ho; [|done].
  unfold LRU_lookup at 1. simpl. unfold sameString at 1.
  rewrite bool_decide_eq_false_2 by done. unfold LRU_without.
  by rewrite find_without.
Qed.

Lemma LRU_lookup_set_same (key : string) (v : list string) (c : LRU) :
  LRU_lookup key (LRU_set key v c) = Some v.
Proof.
  unfold LRU_set, LRU_lookup. simpl.
  destruct (Pos2Nat.is_succ (maxSize c)) as [n ->]. simpl.
  unfold sameString. by rewrite bool_decide_eq_true_2.
Qed.

Lemma LRU_lookup_set_other (key other : string) (v S : list string) (c : LRU) :
  key ≠ other →
  LRU_lookup key (LRU_set other v c) = Some S → LRU_lookup key c = Some S.
Proof.
  intros Hne. unfold LRU_set, LRU_lookup. simpl.
  destruct (List.find _ (take _ _)) as [e|] eqn:Hf; [|done].
  intros [= <-]. apply find_take in Hf. simpl in Hf.
  unfold sameString in Hf at 1. rewrite bool_decide_eq_false_2 in Hf by done.
  unfold LRU_without in Hf. rewrite find_without in Hf by done. by rewrite Hf.
Qed.

(** ** The candidate collector *)

Lemma lineMatches_spec (extractor : Extractor) (line c : string) :
  c ∈ lineMatches extractor line ↔ c ∈ extract extractor line ∧ c ≠ "!*".
Proof.
  unfold lineMatches, Set_new. rewrite candidates_union, elem_of_nil.
  rewrite list_elem_of_In, filter_In, <- list_elem_of_In.
  unfold sameString. rewrite negb_true_iff, bool_decide_eq_false. tauto.
Qed.

Lemma cacheOf_insert (extractor : Extractor) (st : Collector) (lru : LRU)
    (cands : list string) (sn : gset string) (tr : list Event) :
  cacheOf extractor
    {| candidates := cands; seen := sn;
       extractorCache := <[eid extractor := lru]> (extractorCache st); trace := tr |} = lru.
Proof. unfold cacheOf. simpl. by rewrite lookup_insert_eq. Qed.

(** A line already seen is skipped. *)
Lemma processLine_seen (extractor : Extractor) (st : Collector) (line : string) :
  trim line ∈ seen st → processLine extractor st line = st.
Proof. intros H. unfold processLine. by rewrite bool_decide_eq_true_2. Qed.

(** An unseen line found in the cache: the cached set is added, the
    extractor is not run. *)
Lemma processLine_hit (extractor : Extractor) (st : Collector) (line : string)
    (cached : list string) :
  trim line ∉ seen st →
  LRU_lookup (trim line) (cacheOf extractor st) = Some cached →
  let st' := processLine extractor st line in
  candidates st' = Set_addAll sameString (candidates st) cached ∧
  seen st' = {[trim line]} ∪ seen st ∧
  trace st' = trace st ++ [CacheHit (eid extractor) (trim line)] ∧
  LRU_lookup (trim line) (cacheOf extractor st') = Some cached.
Proof.
  intros Hseen Hc. unfold processLine. rewrite bool_decide_eq_false_2 by done.
  assert (LRU_has (trim line) (cacheOf extractor st) = true) as ->.
  { apply LRU_has_lookup. by rewrite Hc. }
  pose proof (LRU_get_value (trim line) (cacheOf extractor st)) as Hv.
  pose proof (LRU_lookup_get_same _ _ _ Hc) as Hl.
  destruct (LRU_get (trim line) (cacheOf extractor st)) as [v lru]. simpl in *.
  rewrite Hv, Hc. simpl. repeat split. by rewrite cacheOf_insert.
Qed.

(** An unseen line not in the cache: the extractor is run once, [!*] is
    dropped, the set of the matches is stored and added. *)
Lemma processLine_miss (extractor : Extractor) (st : Collector) (line : string) :
  trim line ∉ seen st →
  LRU_lookup (trim line) (cacheOf extractor st) = None →
  let st' := processLine extractor st line in
  let lineMatchesSet := lineMatches extractor (trim line) in
  candidates st' = Set_addAll sameString (candidates st) lineMatchesSet ∧
  seen st' = {[trim line]} ∪ seen st ∧
  trace st' = trace st ++ [ExtractorCall (eid extractor) (trim line)] ∧
  LRU_lookup (trim line) (cacheOf extractor st') = Some lineMatchesSet.
Proof.
  intros Hseen Hc. unfold processLine. rewrite bool_decide_eq_false_2 by done.
  assert (LRU_has (trim line) (cacheOf extractor st) = false) as ->.
  { unfold LRU_has. by rewrite Hc. }
  simpl. repeat split. rewrite cacheOf_insert. apply LRU_lookup_set_same.
Qed.

Lemma processedLines_app (a b : list Event) :
  processedLines (a ++ b) = processedLines a ++ processedLines b.
Proof. unfold processedLines. apply omap_app. Qed.

(** What one turn of the loop adds to the trace and to [seen]. *)
Lemma processLine_step (extractor : Extractor) (st : Collector) (line : string) :
  ∃ new, trace (processLine extractor st line) = trace st ++ new ∧
    processedLines new = (if decide (trim line ∈ seen st) then [] else [trim line]) ∧
    seen (processLine extractor st line) = {[trim line]} ∪ seen st ∧
    (∀ ev, ev ∈ new → eventExtractor ev = Some (eid extractor)).
Proof.
  destruct (decide (trim line ∈ seen st)) as [Hs|Hs].
  - rewrite processLine_seen by done. exists []. rewrite app_nil_r.
    repeat split; [set_solver | by intros ? ?%elem_of_nil].
  - destruct (LRU_lookup (trim line) (cacheOf extractor st)) as [cached|] eqn:Hc.
    + destruct (processLine_hit extractor st line cached Hs Hc) as (_ & H2 & H3 & _).
      eexists. split; [exact H3|]. repeat split; [done|].
      by intros ev ->%list_elem_of_singleton.
    + destruct (processLine_miss extractor st line Hs Hc) as (_ & H2 & H3 & _).
      eexists. split; [exact H3|]. repeat split; [done|].
      by intros ev ->%list_elem_of_singleton.
Qed.

(** The loop over the lines of one call. *)
Lemma processLines_trace (extractor : Extractor) (raws : list string) (st : Collector) :
  let st' := fold_left (processLine extractor) raws st in
  ∃ new, trace st' = trace st ++ new ∧
    NoDup (processedLines new) ∧
    (∀ l, l ∈ processedLines new ↔ l ∈ trim <$> raws ∧ l ∉ seen st) ∧
    (∀ ev, ev ∈ new → eventExtractor ev = Some (eid extractor)) ∧
    seen st' = list_to_set (trim <$> raws) ∪ seen st.
Proof.
  revert st. induction raws as [|raw raws IH]; intros st; simpl.
  - exists []. rewrite app_nil_r. repeat split; try constructor; set_solver.
  - destruct (processLine_step extractor st raw) as (n1 & Ht1 & Hp1 & Hs1 & He1).
    destruct (IH (processLine extractor st raw)) as (n2 & Ht2 & Hnd & Hp2 & He2 & Hs2).
    exists (n1 ++ n2). rewrite Ht2, Ht1, Hs2, Hs1, processedLines_app, Hp1.
    split; [by rewrite app_assoc|].
    assert (Hfresh : ∀ l, l ∈ processedLines n2 → l ≠ trim raw).
    { intros l Hl ->. apply Hp2 in Hl as [_ Hl]. rewrite Hs1 in Hl. set_solver. }
    split; [|split; [|split]].
    + case_decide; simpl; [done|]. constructor; [|done].
      intros Hin. by apply Hfresh in Hin.
    + intros l.
      rewrite elem_of_app, Hp2, Hs1, elem_of_cons, elem_of_union, elem_of_singleton.
      case_decide.
      * rewrite elem_of_nil.
        destruct (decide (l = trim raw)) as [->|Hne]; tauto.
      * rewrite list_elem_of_singleton.
        destruct (decide (l = trim raw)) as [->|Hne]; tauto.
    + intros ev [?|?]%elem_of_app; auto.
    + by rewrite (assoc_L (∪)), (comm_L (∪) _ {[trim raw]}).
Qed.

(** The whole call. *)
Lemma getClassCandidates_trace (content : string) (extractor : Extractor)
    (st0 : Collector) :
  ∃ new,
    trace (getClassCandidates content extractor st0) = trace st0 ++ new ∧
    NoDup (processedLines new) ∧
    (∀ l, l ∈ processedLines new ↔ l ∈ trimmedLines content ∧ l ∉ seen st0) ∧
    (∀ ev, ev ∈ new → eventExtractor ev = Some (eid extractor)) ∧
    seen (getClassCandidates content extractor st0)
      = list_to_set (trimmedLines content) ∪ seen st0.
Proof.
  unfold getClassCandidates, trimmedLines.
  destruct (extractorCache st0 !! eid extractor).
  - apply (processLines_trace extractor (split_newline content)).
  - exact (processLines_trace extractor (split_newline content)
             {| candidates := candidates st0; seen := seen st0;
                extractorCache := <[eid extractor := LRU_new 25000]> (extractorCache st0);
                trace := trace st0 |}).
Qed.

(** The events of the collection are cache hits and extractor calls. *)
Lemma collectUnits_events (env : Collaborators) (cfg : Config)
    (units : list ContentUnit) (st : Collector) :
  ∃ new, trace (fold_left (collectUnit env cfg) units st) = trace st ++ new ∧
    ∀ ev, ev ∈ new → is_Some (eventExtractor ev).
Proof.
  revert st. induction units as [|u units IH]; intros st; simpl.
  - exists []. rewrite app_nil_r. split; [done|]. by intros ? ?%elem_of_nil.
  - destruct (IH (collectUnit env cfg st u)) as (n2 & Ht2 & He2).
    destruct (getClassCandidates_trace
                (getTransformer cfg (extension u) (content u))
                (getExtractor env cfg (extension u)) st) as (n1 & Ht1 & _ & _ & He1 & _).
    fold (collectUnit env cfg st u) in Ht1.
    exists (n1 ++ n2). rewrite Ht2, Ht1, app_assoc. split; [done|].
    intros ev [Hev|Hev]%elem_of_app; [|by apply He2].
    rewrite (He1 ev Hev). by eexists.
Qed.

(** ** One set of seen lines for the whole pass *)

Lemma find_append {A : Type} (f : A → bool) (l k : list A) :
  List.find f (l ++ k) = match List.find f l with Some x => Some x | None => List.find f k end.
Proof. induction l as [|x l IH]; simpl; [done|]. by destruct (f x). Qed.

Lemma find_nothing {A : Type} (f : A → bool) (l : list A) :
  (∀ x, x ∈ l → f x = false) → List.find f l = None.
Proof.
  induction l as [|x l IH]; intros H; simpl; [done|].
  rewrite (H x) by constructor. apply IH. intros y Hy. apply H. by constructor.
Qed.

Section CollectFacts.
Variable env : Collaborators.
Variable cfg : Config.
Variable cache0 : gmap nat LRU.
Variable tr0 : list Event.

Local Abbreviation collecting := (collectingInv env cfg cache0 tr0).
Local Abbreviation linesOf := (linesOfUnits cfg).

Lemma firstUnitWith_app_l (units more : list ContentUnit) (l : string) (u : ContentUnit) :
  firstUnitWith cfg units l = Some u → firstUnitWith cfg (units ++ more) l = Some u.
Proof. unfold firstUnitWith. rewrite find_append. by intros ->. Qed.

Lemma firstUnitWith_new (units : list ContentUnit) (u : ContentUnit) (l : string) :
  (∀ u', u' ∈ units → l ∉ unitLines cfg u') →
  l ∈ unitLines cfg u →
  firstUnitWith cfg (units ++ [u]) l = Some u.
Proof.
  intros Hold Hu. unfold firstUnitWith. rewrite find_append.
  rewrite find_nothing.
  - simpl. by rewrite bool_decide_eq_true_2.
  - intros u' Hin. apply bool_decide_eq_false. by apply Hold.
Qed.

Lemma ownedByFirstUnit_app (units more : list ContentUnit) (ev : Event) :
  ownedByFirstUnit env cfg units ev → ownedByFirstUnit env cfg (units ++ more) ev.
Proof.
  intros H line Hl. destruct (H line Hl) as (u & Hu & He).
  exists u. split; [by apply firstUnitWith_app_l|done].
Qed.

Lemma candidateOrigin_app (units more : list ContentUnit) (c : string) :
  candidateOrigin env cfg units cache0 c →
  candidateOrigin env cfg (units ++ more) cache0 c.
Proof.
  intros [->|(l & u & Hu & H)]; [by left|].
  right. exists l, u. split; [by apply firstUnitWith_app_l|done].
Qed.

Lemma lruOf_insert (m : gmap nat LRU) (e e' : nat) (lru : LRU) :
  lruOf (<[e := lru]> m) e' = if decide (e = e') then lru else lruOf m e'.
Proof. unfold lruOf. rewrite lookup_insert. by case_decide. Qed.

(** A turn of the loop never puts a set under another line than its own. *)
Lemma processLine_cache (extractor : Extractor) (st : Collector) (raw : string)
    (e : nat) (l : string) (S : list string) :
  l ≠ trim raw →
  LRU_lookup l (lruOf (extractorCache (processLine extractor st raw)) e) = Some S →
  LRU_lookup l (lruOf (extractorCache st) e) = Some S.
Proof.
  intros Hne. unfold processLine. case_bool_decide; [done|].
  destruct (LRU_has (trim raw) (cacheOf extractor st)).
  - destruct (LRU_get (trim raw) (cacheOf extractor st)) as [v lru] eqn:Hg.
    simpl. rewrite lruOf_insert. case_decide; [subst e|done].
    replace lru with (LRU_get (trim raw) (cacheOf extractor st)).2 by by rewrite Hg.
    by rewrite LRU_lookup_get_other.
  - simpl. rewrite lruOf_insert. case_decide; [subst e|done].
    by apply LRU_lookup_set_other.
Qed.

Lemma collecting_ext (units : list ContentUnit) (lines lines' : string → Prop)
    (st : Collector) :
  (∀ l, lines l ↔ lines' l) → collecting units lines st → collecting units lines' st.
Proof.
  intros Heq (new & Ht & Hnd & Hsp & Hsl & Hrest). exists new.
  repeat (split; [done|]). split; [|done]. intros l. by rewrite <- Heq.
Qed.

Lemma collecting_more (units more : list ContentUnit) (lines : string → Prop)
    (st : Collector) :
  collecting units lines st → collecting (units ++ more) lines st.
Proof.
  intros (new & Ht & Hnd & Hsp & Hsl & Hown & Hcache & Hcand). exists new.
  repeat (split; [done|]). split; [|split; [done|]].
  - intros ev Hev. by apply ownedByFirstUnit_app, Hown.
  - intros c Hc. by apply candidateOrigin_app, Hcand.
Qed.

(** One line of the unit [u], all the units before it being done. *)
Lemma collecting_line (units : list ContentUnit) (u : ContentUnit)
    (lines : string → Prop) (st : Collector) (raw : string) :
  let extractor := getExtractor env cfg (extension u) in
  collecting (units ++ [u]) lines st →
  (∀ u' l, u' ∈ units → l ∈ unitLines cfg u' → lines l) →
  trim raw ∈ unitLines cfg u →
  collecting (units ++ [u]) (λ l, lines l ∨ l = trim raw)
    (processLine extractor st raw).
Proof.
  intros extractor (new & Ht & Hnd & Hsp & Hsl & Hown & Hcache & Hcand) Hdone Hraw.
  destruct (decide (trim raw ∈ seen st)) as [Hs|Hs].
  { rewrite processLine_seen by done. exists new.
    repeat (split; [done|]). split; [|done].
    intros l. rewrite Hsl. split; [tauto|]. intros [?| ->]; [done|]. by apply Hsl. }
  assert (Hfirst : firstUnitWith cfg (units ++ [u]) (trim raw) = Some u).
  { apply firstUnitWith_new; [|done]. intros u' Hu' Hin. apply Hs, Hsl. eauto. }
  assert (Hcache' : ∀ e l S, l ∉ {[trim raw]} ∪ seen st →
     LRU_lookup l (lruOf (extractorCache (processLine extractor st raw)) e) = Some S →
     LRU_lookup l (lruOf cache0 e) = Some S).
  { intros e l S Hl HS. apply not_elem_of_union in Hl as [Hl1 Hl2].
    apply not_elem_of_singleton in Hl1.
    apply Hcache; [done|]. by eapply processLine_cache. }
  assert (Hseen' : ∀ ev, processedLines [ev] = [trim raw] →
     (∀ l, l ∈ {[trim raw]} ∪ seen st ↔ l ∈ processedLines (new ++ [ev])) ∧
     NoDup (processedLines (new ++ [ev])) ∧
     (∀ l, l ∈ {[trim raw]} ∪ seen st ↔ lines l ∨ l = trim raw)).
  { intros ev Hev. rewrite processedLines_app, Hev. split; [|split].
    - intros l. rewrite elem_of_union, elem_of_singleton, elem_of_app,
        list_elem_of_singleton, Hsp. tauto.
    - apply NoDup_app. split; [done|]. split; [|apply NoDup_singleton].
      intros l Hl ->%list_elem_of_singleton. by apply Hs, Hsp.
    - intros l. rewrite elem_of_union, elem_of_singleton, Hsl. tauto. }
  destruct (LRU_lookup (trim raw) (cacheOf extractor st)) as [cached|] eqn:Hc.
  - destruct (processLine_hit extractor st raw cached Hs Hc) as (H1 & H2 & H3 & _).
    destruct (Hseen' (CacheHit (eid extractor) (trim raw)) eq_refl) as (Ha & Hb & Hd).
    exists (new ++ [CacheHit (eid extractor) (trim raw)]).
    rewrite H1, H2, H3, Ht. split; [by rewrite app_assoc|].
    repeat (split; [done|]). split; [|split; [done|]].
    + intros ev [Hev| ->%list_elem_of_singleton]%elem_of_app; [by apply Hown|].
      intros line [= <-]. by exists u.
    + intros c [Hcd|Hcd]%candidates_union; [by apply Hcand|].
      right. exists (trim raw), u. split; [done|]. right. exists cached.
      split; [|done]. by apply Hcache.
  - destruct (processLine_miss extractor st raw Hs Hc) as (H1 & H2 & H3 & _).
    destruct (Hseen' (ExtractorCall (eid extractor) (trim raw)) eq_refl) as (Ha & Hb & Hd).
    exists (new ++ [ExtractorCall (eid extractor) (trim raw)]).
    rewrite H1, H2, H3, Ht. split; [by rewrite app_assoc|].
    repeat (split; [done|]). split; [|split; [done|]].
    + intros ev [Hev| ->%list_elem_of_singleton]%elem_of_app; [by apply Hown|].
      intros line [= <-]. by exists u.
    + intros c [Hcd|Hcd]%candidates_union; [by apply Hcand|].
      right. exists (trim raw), u. split; [done|]. by left.
Qed.

Lemma collecting_lines (units : list ContentUnit) (u : ContentUnit)
    (raws : list string) (lines : string → Prop) (st : Collector) :
  let extractor := getExtractor env cfg (extension u) in
  collecting (units ++ [u]) lines st →
  (∀ u' l, u' ∈ units → l ∈ unitLines cfg u' → lines l) →
  (∀ raw, raw ∈ raws → trim raw ∈ unitLines cfg u) →
  collecting (units ++ [u]) (λ l, lines l ∨ l ∈ trim <$> raws)
    (fold_left (processLine extractor) raws st).
Proof.
  intros extractor. revert lines st.
  induction raws as [|raw raws IH]; intros lines st Hst Hdone Hraws; cbn [fold_left].
  - eapply collecting_ext; [|exact Hst]. intros l. rewrite fmap_nil, elem_of_nil. tauto.
  - apply (collecting_ext _ (λ l, (lines l ∨ l = trim raw) ∨ l ∈ trim <$> raws)).
    + intros l. rewrite fmap_cons, elem_of_cons. tauto.
    + apply IH.
      * apply collecting_line; [done|done|]. apply Hraws. by left.
      * intros u' l Hu' Hl. left. eauto.
      * intros r Hr. apply Hraws. by right.
Qed.

Lemma collecting_unit (units : list ContentUnit) (u : ContentUnit) (st : Collector) :
  collecting units (linesOf units) st →
  collecting (units ++ [u]) (linesOf (units ++ [u])) (collectUnit env cfg st u).
Proof.
  intros Hst. apply (collecting_more _ [u]) in Hst.
  unfold collectUnit, getClassCandidates.
  set (extractor := getExtractor env cfg (extension u)).
  set (raws := split_newline (getTransformer cfg (extension u) (content u))).
  match goal with |- collecting _ _ (fold_left _ _ ?s) => set (st1 := s) end.
  assert (Hst1 : collecting (units ++ [u]) (linesOf units) st1).
  { subst st1. destruct (extractorCache st !! eid extractor) eqn:He; [done|].
    destruct Hst as (new & Ht & Hnd & Hsp & Hsl & Hown & Hcache & Hcand).
    exists new. repeat (split; [done|]). split; [|done].
    intros e l S Hl. simpl. rewrite lruOf_insert. case_decide; [subst e|by apply Hcache].
    intros HS. apply Hcache; [done|]. unfold lruOf. by rewrite He. }
  eapply collecting_ext; [|apply (collecting_lines units u raws (linesOf units) st1 Hst1)].
  - intros l. unfold linesOfUnits. fold (unitLines cfg u). split.
    + intros [(u' & Hu' & Hl)|Hl].
      * exists u'. split; [|done]. apply elem_of_app. by left.
      * exists u. split; [|done]. apply elem_of_app. right. by constructor.
    + intros (u' & [Hu'| ->%list_elem_of_singleton]%elem_of_app & Hl).
      * left. by exists u'.
      * by right.
  - intros u' l Hu' Hl. by exists u'.
  - intros raw Hraw. unfold unitLines, trimmedLines. by apply list_elem_of_fmap_2.
Qed.

Lemma collecting_units (rest units : list ContentUnit) (st : Collector) :
  collecting units (linesOf units) st →
  collecting (units ++ rest) (linesOf (units ++ rest))
    (fold_left (collectUnit env cfg) rest st).
Proof.
  revert units st. induction rest as [|u rest IH]; intros units st Hst; simpl.
  - by rewrite app_nil_r.
  - rewrite (cons_middle u units rest), app_assoc. apply IH. by apply collecting_unit.
Qed.

Lemma collecting_start :
  collecting [] (linesOf [])
    {| candidates := Set_new sameString ["*"]; seen := ∅;
       extractorCache := cache0; trace := tr0 |}.
Proof.
  exists []. simpl. rewrite app_nil_r. split; [done|]. split; [constructor|].
  split; [intros l; by rewrite elem_of_nil, elem_of_empty|].
  split; [|split; [intros ? ?%elem_of_nil; done|split; [done|]]].
  - intros l. unfold linesOfUnits. rewrite elem_of_empty. split; [done|].
    by intros (u & ?%elem_of_nil & _).
  - intros c ->%list_elem_of_singleton. by left.
Qed.
End CollectFacts.

(** C10. The set of seen lines is one for the whole pass. The lines that get
    past the [seen] test are pairwise distinct over all the changed-content
    units and all the extractors, and each of them is handled by the extractor
    of the first unit that contains it: a later unit with the same trimmed
    line, whichever extractor it selects, does not process the line. Every
    candidate of the result is the wildcard or comes from such a line through
    the extractor of the first unit with the line (run on the line, or by the
    set its cache held for the line at the start of the pass); what the
    extractor of a later unit would yield for the line enters the result only
    when it is produced that way. *)
Theorem collectCandidates_shared_seen (env : Collaborators) (context : Context)
    (cache : gmap nat LRU) (tr : list Event) :
  let st := collectCandidates env context cache tr in
  let cfg := tailwindConfig context in
  let units := changedContent context in
  ∃ new, trace st = tr ++ new ∧
    NoDup (processedLines new) ∧
    (∀ l, l ∈ processedLines new ↔ ∃ u, u ∈ units ∧ l ∈ unitLines cfg u) ∧
    (∀ ev, ev ∈ new → ownedByFirstUnit env cfg units ev) ∧
    (∀ c, c ∈ candidates st → candidateOrigin env cfg units cache c).
Proof.
  intros st cfg units.
  pose proof (collecting_units env cfg cache tr units [] _
                (collecting_start env cfg cache tr)) as H.
  destruct H as (new & Ht & Hnd & Hsp & Hsl & Hown & _ & Hcand).
  exists new. repeat (split; [done|]). split; [|done].
  intros l. rewrite <- Hsp. apply Hsl.
Qed.

(** ** The lines of one call *)

Lemma List_filter_all {A : Type} (f : A → bool) (l : list A) :
  (∀ x, x ∈ l → f x = true) → List.filter f l = l.
Proof.
  induction l as [|x l IH]; intros H; simpl; [done|].
  rewrite (H x) by constructor. f_equal. apply IH. intros y Hy. apply H. by constructor.
Qed.

Lemma find_front (key : string) (front rest : list (string * list string)) :
  key ∈ front.*1 →
  List.find (λ e, sameString key e.1) (front ++ rest)
  = List.find (λ e, sameString key e.1) front.
Proof.
  intros Hk. rewrite find_append.
  destruct (List.find _ front) eqn:Hf; [done|].
  apply list_elem_of_fmap in Hk as (e & -> & He).
  apply list_elem_of_In in He. apply (find_none _ _ Hf) in He.
  unfold sameString in He. by rewrite bool_decide_eq_true_2 in He.
Qed.

Lemma without_front (line : string) (front back : list (string * list string)) :
  line ∉ front.*1 →
  List.filter (λ e, negb (sameString line e.1)) (front ++ back)
  = front ++ List.filter (λ e, negb (sameString line e.1)) back.
Proof.
  intros Hl. rewrite List.filter_app. f_equal. apply List_filter_all.
  intros e He. apply negb_true_iff, bool_decide_eq_false. intros ->.
  apply Hl. by apply list_elem_of_fmap_2.
Qed.

Lemma LRU_get_front (line : string) (v : list string) (c : LRU)
    (front back : list (string * list string)) :
  entries c = front ++ back → line ∉ front.*1 → LRU_lookup line c = Some v →
  ∃ back', entries (LRU_get line c).2 = ((line, v) :: front) ++ back'.
Proof.
  intros He Hl Hv. unfold LRU_get. rewrite Hv. simpl. unfold LRU_without.
  rewrite He, without_front by done. by eexists.
Qed.

Lemma LRU_set_front (line : string) (v : list string) (c : LRU)
    (front back : list (string * list string)) :
  entries c = front ++ back → line ∉ front.*1 →
  (S (length front) ≤ Pos.to_nat (maxSize c))%nat →
  ∃ back', entries (LRU_set line v c) = ((line, v) :: front) ++ back'.
Proof.
  intros He Hl Hcap. unfold LRU_set. simpl. unfold LRU_without.
  rewrite He, without_front by done.
  change ((line, v) :: front ++ ?b) with (((line, v) :: front) ++ b).
  rewrite take_app_ge by (simpl; lia). by eexists.
Qed.

Lemma LRU_lookup_front (key : string) (c : LRU)
    (front back : list (string * list string)) :
  entries c = front ++ back → key ∈ front.*1 →
  LRU_lookup key c = snd <$> List.find (λ e, sameString key e.1) front.
Proof. intros He Hk. unfold LRU_lookup. by rewrite He, find_front. Qed.

(** What one turn does to the most recent entries [front] of the cache, as
    long as the lines of the call fit in the cache. *)
Lemma processLine_front (extractor : Extractor) (st : Collector) (raw : string)
    (front back : list (string * list string)) (all : gset string) :
  entries (cacheOf extractor st) = front ++ back →
  NoDup front.*1 →
  (∀ k, k ∈ front.*1 → k ∈ seen st ∧ k ∈ all) →
  trim raw ∈ all →
  (size all ≤ Pos.to_nat (maxSize (cacheOf extractor st)))%nat →
  trim raw ∉ seen st →
  let st' := processLine extractor st raw in
  ∃ v back',
    entries (cacheOf extractor st') = ((trim raw, v) :: front) ++ back' ∧
    maxSize (cacheOf extractor st') = maxSize (cacheOf extractor st) ∧
    candidates st' = Set_addAll sameString (candidates st) v ∧
    seen st' = {[trim raw]} ∪ seen st.
Proof.
  intros He Hnd Hfront Hall Hcap Hseen.
  assert (Hl : trim raw ∉ front.*1) by (intros Hin; by apply Hfront in Hin as [? _]).
  assert (Hlen : (S (length front) ≤ Pos.to_nat (maxSize (cacheOf extractor st)))%nat).
  { etrans; [|exact Hcap].
    assert (Hnd' : NoDup (trim raw :: front.*1)) by by constructor.
    rewrite <- (length_fmap fst front).
    change (S (length front.*1)) with (length (trim raw :: front.*1)).
    rewrite <- (size_list_to_set (C := gset string)) by done.
    apply subseteq_size. intros k [->|Hk]%elem_of_list_to_set%elem_of_cons; [done|].
    by apply Hfront. }
  destruct (LRU_lookup (trim raw) (cacheOf extractor st)) as [v|] eqn:Hv.
  - destruct (processLine_hit extractor st raw v Hseen Hv) as (H1 & H2 & _ & _).
    destruct (LRU_get_front _ _ _ _ _ He Hl Hv) as (back' & Hb).
    exists v, back'. split; [|split; [|by split]].
    + unfold processLine. rewrite bool_decide_eq_false_2 by done.
      assert (LRU_has (trim raw) (cacheOf extractor st) = true) as ->
        by (apply LRU_has_lookup; by rewrite Hv).
      destruct (LRU_get (trim raw) (cacheOf extractor st)) as [o lru].
      by rewrite cacheOf_insert.
    + unfold processLine. rewrite bool_decide_eq_false_2 by done.
      assert (LRU_has (trim raw) (cacheOf extractor st) = true) as ->
        by (apply LRU_has_lookup; by rewrite Hv).
      unfold LRU_get. rewrite Hv. by rewrite cacheOf_insert.
  - destruct (processLine_miss extractor st raw Hseen Hv) as (H1 & H2 & _ & _).
    destruct (LRU_set_front (trim raw) (lineMatches extractor (trim raw))
                _ _ _ He Hl Hlen) as (back' & Hb).
    exists (lineMatches extractor (trim raw)), back'.
    split; [|split; [|by split]].
    + unfold processLine. rewrite bool_decide_eq_false_2 by done.
      assert (LRU_has (trim raw) (cacheOf extractor st) = false) as ->
        by (unfold LRU_has; by rewrite Hv).
      by rewrite cacheOf_insert.
    + unfold processLine. rewrite bool_decide_eq_false_2 by done.
      assert (LRU_has (trim raw) (cacheOf extractor st) = false) as ->
        by (unfold LRU_has; by rewrite Hv).
      by rewrite cacheOf_insert.
Qed.

Lemma replayStep_seen (served : string → option (list string)) (raw : string)
    (cands : list string) (sn : gset string) :
  trim raw ∈ sn → replayStep served (cands, sn) raw = (cands, sn).
Proof. intros H. unfold replayStep. simpl. by rewrite bool_decide_eq_true_2. Qed.

Lemma replayStep_unseen (served : string → option (list string)) (raw : string)
    (cands v : list string) (sn : gset string) :
  trim raw ∉ sn → served (trim raw) = Some v →
  replayStep served (cands, sn) raw
  = (Set_addAll sameString cands v, {[trim raw]} ∪ sn).
Proof.
  intros H Hv. unfold replayStep. simpl.
  by rewrite bool_decide_eq_false_2, Hv.
Qed.

(** The first call: every line that gets past [seen] ends in the cache, and
    stays there with the set it contributed. *)
Lemma first_call_fills_cache (extractor : Extractor) (all : gset string)
    (lines : list string) (st : Collector) (front back : list (string * list string)) :
  entries (cacheOf extractor st) = front ++ back →
  NoDup front.*1 →
  (∀ k, k ∈ front.*1 → k ∈ seen st ∧ k ∈ all) →
  (∀ raw, raw ∈ lines → trim raw ∈ all) →
  (size all ≤ Pos.to_nat (maxSize (cacheOf extractor st)))%nat →
  let st' := fold_left (processLine extractor) lines st in
  let served := λ k, LRU_lookup k (cacheOf extractor st') in
  (candidates st', seen st')
  = fold_left (replayStep served) lines (candidates st, seen st) ∧
  (∀ k, k ∈ front.*1 → served k = LRU_lookup k (cacheOf extractor st)) ∧
  (∀ raw, raw ∈ lines → trim raw ∉ seen st → is_Some (served (trim raw))).
Proof.
  revert st front back.
  induction lines as [|raw rest IH]; intros st front back He Hnd Hfront Hall Hcap.
  { simpl. split; [done|]. split; [done|]. by intros raw ?%elem_of_nil. }
  cbn [fold_left].
  destruct (decide (trim raw ∈ seen st)) as [Hs|Hs].
  - rewrite processLine_seen by done.
    destruct (IH st front back He Hnd Hfront) as (I1 & I2 & I3);
      [intros r Hr; apply Hall; by right|done|].
    split; [|split; [done|]].
    + by rewrite replayStep_seen.
    + intros r [->|Hr]%elem_of_cons Hr'; [done|by apply I3].
  - destruct (processLine_front extractor st raw front back all He Hnd Hfront)
      as (v & back' & E1 & E2 & E3 & E4); [apply Hall; by left|done|done|].
    set (s1 := processLine extractor st raw) in *.
    assert (Hl : trim raw ∉ front.*1) by (intros Hin; by apply Hfront in Hin as [? _]).
    destruct (IH s1 ((trim raw, v) :: front) back' E1) as (I1 & I2 & I3).
    { rewrite fmap_cons. by constructor. }
    { intros k [->|Hk]%elem_of_cons; rewrite E4.
      - split; [set_solver|]. apply Hall. by left.
      - destruct (Hfront k Hk). split; [set_solver|done]. }
    { intros r Hr. apply Hall. by right. }
    { by rewrite E2. }
    assert (Hv : LRU_lookup (trim raw) (cacheOf extractor s1) = Some v).
    { rewrite (LRU_lookup_front _ _ _ _ E1) by (rewrite fmap_cons; by left).
      simpl. unfold sameString. by rewrite bool_decide_eq_true_2. }
    split; [|split].
    + rewrite I1. f_equal. rewrite (replayStep_unseen _ _ _ v) by
        (try done; rewrite (I2 (trim raw)) by (rewrite fmap_cons; by left); done).
      by rewrite E3, E4.
    + intros k Hk. rewrite I2 by (rewrite fmap_cons; by right).
      rewrite (LRU_lookup_front _ _ _ _ E1) by (rewrite fmap_cons; by right).
      rewrite (LRU_lookup_front _ _ _ _ He) by done.
      simpl. unfold sameString at 1. rewrite bool_decide_eq_false_2; [done|].
      intros ->. by apply Hfront in Hk as [? _].
    + intros r Hr Hr'. destruct (decide (trim r = trim raw)) as [Heq|Hne].
      * rewrite Heq. rewrite (I2 (trim raw)) by (rewrite fmap_cons; by left).
        rewrite Hv. by eexists.
      * apply elem_of_cons in Hr as [->|Hr]; [done|].
        apply I3; [done|]. rewrite E4. set_solver.
Qed.

(** A line that was seen keeps, for the rest of the call, the set the cache
    holds for it, as long as the cache holds one. *)
Lemma processLines_seen_cache (extractor : Extractor) (raws : list string)
    (st : Collector) (l : string) (S : list string) :
  l ∈ seen st →
  LRU_lookup l (cacheOf extractor (fold_left (processLine extractor) raws st)) = Some S →
  LRU_lookup l (cacheOf extractor st) = Some S.
Proof.
  revert st. induction raws as [|raw raws IH]; intros st Hl; [done|].
  cbn [fold_left]. intros HS.
  destruct (decide (trim raw ∈ seen st)) as [Hs|Hs].
  { rewrite processLine_seen in HS by done. by apply IH. }
  apply IH in HS.
  - apply (processLine_cache extractor st raw (eid extractor)); [|done].
    intros ->. done.
  - destruct (processLine_step extractor st raw) as (_ & _ & _ & -> & _). set_solver.
Qed.

(** The loop over the lines of one call: where the candidates come from and
    what the cache holds for the lines the extractor was run on. *)
Lemma processLines_candidates (extractor : Extractor) (raws : list string)
    (st : Collector) :
  let st' := fold_left (processLine extractor) raws st in
  let e := eid extractor in
  ∃ new, trace st' = trace st ++ new ∧
    (∀ ev, ev ∈ new →
       ∃ line, (line ∉ seen st) ∧ (ev = CacheHit e line ∨ ev = ExtractorCall e line)) ∧
    (∀ line, CacheHit e line ∈ new → is_Some (LRU_lookup line (cacheOf extractor st))) ∧
    (∀ c, c ∈ candidates st' ↔
       c ∈ candidates st ∨
       ∃ line,
         (ExtractorCall e line ∈ new ∧ c ∈ extract extractor line ∧ c ≠ "!*") ∨
         (CacheHit e line ∈ new ∧
          ∃ cached, LRU_lookup line (cacheOf extractor st) = Some cached ∧ c ∈ cached)) ∧
    (∀ line S, ExtractorCall e line ∈ new →
       LRU_lookup line (cacheOf extractor st') = Some S →
       S = lineMatches extractor line).
Proof.
  revert st. induction raws as [|raw raws IH]; intros st; cbn [fold_left].
  { exists []. rewrite app_nil_r. split; [done|].
    split; [by intros ev ?%elem_of_nil|]. split; [by intros l ?%elem_of_nil|].
    split; [|by intros l S ?%elem_of_nil].
    intros c. split; [by left|]. intros [?|(l & [[H _]|[H _]])]; [done| |];
      by apply elem_of_nil in H. }
  destruct (decide (trim raw ∈ seen st)) as [Hs|Hs].
  { rewrite processLine_seen by done. apply IH. }
  set (t := trim raw) in *.
  set (st1 := processLine extractor st raw).
  destruct (IH st1) as (new2 & Ht2 & Hshape2 & Hhit2 & Hcand2 & Hstore2).
  assert (Hback : ∀ l S, l ≠ t →
            LRU_lookup l (cacheOf extractor st1) = Some S →
            LRU_lookup l (cacheOf extractor st) = Some S).
  { intros l S Hne. apply (processLine_cache extractor st raw (eid extractor)). done. }
  assert (Hseen1 : seen st1 = {[t]} ∪ seen st).
  { destruct (processLine_step extractor st raw) as (_ & _ & _ & H & _). exact H. }
  assert (Hfresh : ∀ ev, ev ∈ new2 →
            ∃ line, line ≠ t ∧ (line ∉ seen st) ∧
              (ev = CacheHit (eid extractor) line ∨ ev = ExtractorCall (eid extractor) line)).
  { intros ev Hev. destruct (Hshape2 ev Hev) as (line & Hl & Hor).
    exists line. rewrite Hseen1 in Hl. split; [set_solver|]. split; [set_solver|done]. }
  assert (Hhitline : ∀ line, CacheHit (eid extractor) line ∈ new2 → line ≠ t).
  { intros line Hin. destruct (Hfresh _ Hin) as (l & Hne & _ & [[= ->]|[=]]). done. }
  assert (Hhit2' : ∀ line, CacheHit (eid extractor) line ∈ new2 →
            ∀ cached, LRU_lookup line (cacheOf extractor st1) = Some cached ↔
                      LRU_lookup line (cacheOf extractor st) = Some cached).
  { intros line Hin cached. split; [apply Hback; by apply Hhitline|].
    intros Hc. destruct (Hhit2 line Hin) as [cached' Hc'].
    pose proof (Hback line cached' (Hhitline line Hin) Hc') as Hc''.
    rewrite Hc in Hc''. by injection Hc'' as <-. }
  destruct (LRU_lookup t (cacheOf extractor st)) as [v|] eqn:Hv.
  - destruct (processLine_hit extractor st raw v Hs Hv) as (H1 & _ & H3 & _).
    fold st1 t in H1, H3.
    exists (CacheHit (eid extractor) t :: new2).
    split; [by rewrite Ht2, H3, <- app_assoc|]. split; [|split; [|split]].
    + intros ev [->|Hev]%elem_of_cons; [exists t; by split; [|left]|].
      destruct (Hfresh ev Hev) as (line & _ & Hl & Hor). by exists line.
    + intros line [[= ->]|Hin]%elem_of_cons; [by rewrite Hv|].
      destruct (Hhit2 line Hin) as [cached Hc]. exists cached.
      by apply (Hhit2' line Hin).
    + intros c. rewrite Hcand2, H1, candidates_union. split.
      * intros [[Hc|Hc]|(line & [(Hin & Hx)|(Hin & cached & Hl & Hx)])].
        -- by left.
        -- right. exists t. right. split; [by left|]. by exists v.
        -- right. exists line. left. split; [by right|done].
        -- right. exists line. right. split; [by right|]. exists cached.
           split; [by apply (Hhit2' line Hin)|done].
      * intros [Hc|(line & [(Hin & Hx)|(Hin & cached & Hl & Hx)])].
        -- by left; left.
        -- apply elem_of_cons in Hin as [[=]|Hin]. right. exists line. by left.
        -- apply elem_of_cons in Hin as [[= ->]|Hin].
           ++ rewrite Hv in Hl. injection Hl as <-. by left; right.
           ++ right. exists line. right. split; [done|]. exists cached.
              split; [by apply (Hhit2' line Hin)|done].
    + intros line S [[=]|Hin]%elem_of_cons. by apply Hstore2.
  - destruct (processLine_miss extractor st raw Hs Hv) as (H1 & _ & H3 & H4).
    fold st1 t in H1, H3, H4.
    exists (ExtractorCall (eid extractor) t :: new2).
    split; [by rewrite Ht2, H3, <- app_assoc|]. split; [|split; [|split]].
    + intros ev [->|Hev]%elem_of_cons; [exists t; by split; [|right]|].
      destruct (Hfresh ev Hev) as (line & _ & Hl & Hor). by exists line.
    + intros line [[=]|Hin]%elem_of_cons.
      destruct (Hhit2 line Hin) as [cached Hc]. exists cached.
      by apply (Hhit2' line Hin).
    + intros c. rewrite Hcand2, H1, candidates_union, lineMatches_spec. split.
      * intros [[Hc|Hc]|(line & [(Hin & Hx)|(Hin & cached & Hl & Hx)])].
        -- by left.
        -- right. exists t. left. split; [by left|done].
        -- right. exists line. left. split; [by right|done].
        -- right. exists line. right. split; [by right|]. exists cached.
           split; [by apply (Hhit2' line Hin)|done].
      * intros [Hc|(line & [(Hin & Hx)|(Hin & cached & Hl & Hx)])].
        -- by left; left.
        -- apply elem_of_cons in Hin as [[= ->]|Hin]; [by left; right|].
           right. exists line. by left.
        -- apply elem_of_cons in Hin as [[=]|Hin].
           right. exists line. right. split; [done|]. exists cached.
           split; [by apply (Hhit2' line Hin)|done].
    + intros line S [[= ->]|Hin]%elem_of_cons HS; [|by apply Hstore2].
      apply (processLines_seen_cache extractor raws st1 t S) in HS.
      * rewrite H4 in HS. by injection HS as <-.
      * rewrite Hseen1. set_solver.
Qed.

(** The state the loop of a call starts from: the state given, with a new
    cache for the extractor when it had none. *)
Lemma getClassCandidates_loop (content : string) (extractor : Extractor)
    (st0 : Collector) :
  ∃ st1, candidates st1 = candidates st0 ∧ seen st1 = seen st0 ∧
    trace st1 = trace st0 ∧
    cacheOf extractor st1 = cacheOf extractor st0 ∧
    (∀ other, other ≠ eid extractor →
       extractorCache st1 !! other = extractorCache st0 !! other) ∧
    getClassCandidates content extractor st0
    = fold_left (processLine extractor) (split_newline content) st1.
Proof.
  unfold getClassCandidates.
  destruct (extractorCache st0 !! eid extractor) as [lru|] eqn:Hc.
  - by exists st0.
  - exists {| candidates := candidates st0; seen := seen st0;
               extractorCache := <[eid extractor := LRU_new 25000]> (extractorCache st0);
               trace := trace st0 |}.
    do 3 (split; [done|]).
    split; [unfold cacheOf; simpl; by rewrite lookup_insert_eq, Hc|].
    split; [|done]. intros other Hne. simpl. by rewrite lookup_insert_ne.
Qed.

(** C3. A call of [getClassCandidates] is the loop over the lines of the
    content, split at the line feeds, in order; the state of the loop is the
    one given, with a new cache for the extractor when it had none. In one
    turn of the loop a trimmed line that was seen is skipped; an unseen line
    found in the extractor's cache adds the cached set to the candidates
    without running the extractor; an unseen line not in the cache runs the
    extractor, drops [!*], makes a set of the matches, stores that set in
    the extractor's cache under the line and adds it to the candidates.

    For the whole call: the lines that get past the [seen] test are the
    trimmed lines of the content that were not seen before, each once, and
    each is either served by the cache or given to the extractor. A line is
    served by the cache only if the cache held it before the call. The
    candidates after the call are the candidates before it, the matches
    other than [!*] of the extractor on the lines it was run on, and the sets
    the cache held before the call for the lines it served. A line the
    extractor was run on is cached with the duplicate-free set of those
    matches for as long as the cache keeps it, and when the distinct lines of
    the content fit in the cache every processed line is cached after the
    call. *)
Theorem getClassCandidates_lines (content : string) (extractor : Extractor)
    (st0 : Collector) :
  let st' := getClassCandidates content extractor st0 in
  let e := eid extractor in
  let cache0 := cacheOf extractor st0 in
  let cache' := cacheOf extractor st' in
  (∀ st line, trim line ∈ seen st → processLine extractor st line = st) ∧
  (∀ st line cached,
     trim line ∉ seen st →
     LRU_lookup (trim line) (cacheOf extractor st) = Some cached →
     let st' := processLine extractor st line in
     (∀ c, c ∈ candidates st' ↔ c ∈ candidates st ∨ c ∈ cached) ∧
     trace st' = trace st ++ [CacheHit (eid extractor) (trim line)] ∧
     LRU_lookup (trim line) (cacheOf extractor st') = Some cached) ∧
  (∀ st line,
     trim line ∉ seen st →
     LRU_lookup (trim line) (cacheOf extractor st) = None →
     let st' := processLine extractor st line in
     let lineMatchesSet := lineMatches extractor (trim line) in
     trace st' = trace st ++ [ExtractorCall (eid extractor) (trim line)] ∧
     NoDup lineMatchesSet ∧
     (∀ c, c ∈ lineMatchesSet ↔ c ∈ extract extractor (trim line) ∧ c ≠ "!*") ∧
     LRU_lookup (trim line) (cacheOf extractor st') = Some lineMatchesSet ∧
     (∀ c, c ∈ candidates st' ↔ c ∈ candidates st ∨ c ∈ lineMatchesSet)) ∧
  (∃ st1, candidates st1 = candidates st0 ∧ seen st1 = seen st0 ∧
     trace st1 = trace st0 ∧ cacheOf extractor st1 = cache0 ∧
     (∀ other, other ≠ e → extractorCache st1 !! other = extractorCache st0 !! other) ∧
     st' = fold_left (processLine extractor) (split_newline content) st1) ∧
  (∃ new,
     trace st' = trace st0 ++ new ∧
     NoDup (processedLines new) ∧
     (∀ l, l ∈ processedLines new ↔ l ∈ trimmedLines content ∧ l ∉ seen st0) ∧
     (∀ ev, ev ∈ new → ∃ line, ev = CacheHit e line ∨ ev = ExtractorCall e line) ∧
     seen st' = list_to_set (trimmedLines content) ∪ seen st0 ∧
     (∀ line, CacheHit e line ∈ new → is_Some (LRU_lookup line cache0)) ∧
     (∀ c, c ∈ candidates st' ↔
        c ∈ candidates st0 ∨
        ∃ line,
          (ExtractorCall e line ∈ new ∧ c ∈ extract extractor line ∧ c ≠ "!*") ∨
          (CacheHit e line ∈ new ∧
           ∃ cached, LRU_lookup line cache0 = Some cached ∧ c ∈ cached)) ∧
     (∀ line S, ExtractorCall e line ∈ new → LRU_lookup line cache' = Some S →
        NoDup S ∧ ∀ c, c ∈ S ↔ c ∈ extract extractor line ∧ c ≠ "!*") ∧
     ((size (list_to_set (trimmedLines content) : gset string)
       ≤ Pos.to_nat (maxSize cache0))%nat →
      ∀ line, line ∈ processedLines new → is_Some (LRU_lookup line cache'))).
Proof.
  intros st' e cache0 cache'.
  split; [intros; by apply processLine_seen|].
  split; [|split; [|split]].
  - intros st line cached Hs Hc.
    destruct (processLine_hit extractor st line cached Hs Hc) as (H1 & _ & H3 & H4).
    simpl. split; [|done]. intros c. rewrite H1. apply candidates_union.
  - intros st line Hs Hc.
    destruct (processLine_miss extractor st line Hs Hc) as (H1 & _ & H3 & H4).
    simpl. split; [done|]. split; [apply Set_new_strings_NoDup|].
    split; [intros c; apply lineMatches_spec|]. split; [done|].
    intros c. rewrite H1. apply candidates_union.
  - apply getClassCandidates_loop.
  - destruct (getClassCandidates_trace content extractor st0)
      as (new & Ht & Hnd & Hlines & _ & Hseen).
    destruct (getClassCandidates_loop content extractor st0)
      as (st1 & Hc1 & Hs1 & Ht1 & Hl1 & _ & Hloop).
    destruct (processLines_candidates extractor (split_newline content) st1)
      as (new' & Ht' & Hshape & Hhit & Hcand & Hstore).
    rewrite <- Hloop in Ht', Hcand, Hstore. fold st' in Ht, Hseen, Ht', Hcand, Hstore.
    rewrite Ht1, Ht in Ht'. apply app_inv_head in Ht'. subst new'.
    rewrite Hl1 in Hhit, Hcand. rewrite Hc1 in Hcand.
    exists new. do 3 (split; [done|]). split; [|split; [done|]].
    { intros ev Hev. destruct (Hshape ev Hev) as (line & _ & Hor). by exists line. }
    do 2 (split; [done|]). split.
    + intros line S Hin HS. rewrite (Hstore line S Hin HS).
      split; [apply Set_new_strings_NoDup|]. intros c. apply lineMatches_spec.
    + intros Hcap line Hin. apply Hlines in Hin as [Hin Hns].
      apply list_elem_of_fmap in Hin as (raw & -> & Hraw).
      destruct (first_call_fills_cache extractor
                  (list_to_set (trimmedLines content)) (split_newline content)
                  st1 [] (entries (cacheOf extractor st1))) as (_ & _ & Hfull).
      * done.
      * constructor.
      * by intros k ?%elem_of_nil.
      * intros r Hr. apply elem_of_list_to_set. by apply list_elem_of_fmap_2.
      * by rewrite Hl1.
      * unfold cache', st'. rewrite Hloop. apply Hfull; [done|]. by rewrite Hs1.
Qed.

(** ** The pass *)

Lemma allNull_spec (l : LayerNodes) :
  allNull l = true ↔
  ln_base l = None ∧ ln_components l = None ∧ ln_utilities l = None ∧ ln_variants l = None.
Proof.
  unfold allNull, layerNodes_values. simpl.
  destruct (ln_base l), (ln_components l), (ln_utilities l), (ln_variants l);
    simpl; split; intros H; try done; by destruct H as (? & ? & ? & ?).
Qed.

(** The pass, past the bail-out, in terms of its local variables. *)
Lemma expandTailwindAtRules_unfold (env : Collaborators) (w : World) (root : Node) :
  allNull (scanLayerNodes root) = false →
  let layerNodes := scanLayerNodes root in
  let effective := (resolveRoot root layerNodes).1 in
  let st := passCollector env w root in
  let sheet := passStylesheet env w root in
  let variantNodes := passVariantNodes env w root in
  let replaced := passLayersReplaced env w root in
  let placed := placeVariants layerNodes variantNodes effective replaced.1 replaced.2 in
  expandTailwindAtRules env w root =
  ({| w_context := withChangedContent (passContext env w root) [];
      w_extractorCache := extractorCache st;
      w_trace := trace st ++ [GenerateRules (candidates st)]
                 ++ utilitiesWarning layerNodes (ss_utilities sheet) variantNodes;
      w_nextId := placed.2 |},
   cleanupAt (nid effective) placed.1).
Proof.
  intros Hnull. unfold expandTailwindAtRules. rewrite Hnull.
  unfold passVariantNodes, passLayersReplaced, passStylesheet, passContext, passCollector.
  destruct (resolveRoot root (scanLayerNodes root)) as [effective warnings]. simpl.
  repeat match goal with
         | |- context [replaceIfPresent ?a ?b ?c ?d] =>
             destruct (replaceIfPresent a b c d) as [? ?] eqn:?
         end.
  simpl.
  match goal with
  | |- context [placeVariants ?a ?b ?c ?d ?e] =>
      destruct (placeVariants a b c d e) as [? ?] eqn:?
  end.
  done.
Qed.

Lemma assemble_cases (env : Collaborators) (context : Context) (candidates : list string) :
  let classCacheCount := size (classCache context) in
  let rules := (generateRules env candidates context).1 in
  let generated := withClassCache context (generateRules env candidates context).2 in
  assemble env context candidates =
  if stylesheetIsStale generated classCacheCount
  then rebuildStylesheet generated rules else generated.
Proof. unfold assemble. by destruct (generateRules env candidates context). Qed.

Lemma stylesheetIsStale_spec (context : Context) (classCacheCount : nat) :
  stylesheetIsStale context classCacheCount = true ↔
  stylesheetCache context = None ∨ size (classCache context) ≠ classCacheCount.
Proof.
  unfold stylesheetIsStale. rewrite orb_true_iff, !negb_true_iff, bool_decide_eq_false.
  destruct (stylesheetCache context); simpl; split; intros [?|?]; auto; done.
Qed.

(** When the buckets are destructured the stylesheet cache is not [null]. *)
Lemma assemble_stylesheetCache (env : Collaborators) (context : Context)
    (candidates : list string) :
  is_Some (stylesheetCache (assemble env context candidates)).
Proof.
  rewrite assemble_cases. simpl.
  destruct (stylesheetIsStale _ _) eqn:Hs; [by eexists|].
  unfold stylesheetIsStale in Hs. apply orb_false_iff in Hs as [Hs _].
  apply negb_false_iff in Hs. simpl in *.
  destruct (stylesheetCache context); [by eexists|done].
Qed.

(** The build step: lines 242 to 257. *)
Lemma assemble_spec (env : Collaborators) (context : Context) (cands : list string) :
  let generated := generateRules env cands context in
  let context' := assemble env context cands in
  let stale := stylesheetCache context = None
               ∨ size generated.2 ≠ size (classCache context) in
  classCache context' = generated.2 ∧
  minimumScreen context' = minimumScreen context ∧
  layerOrder context' = layerOrder context ∧
  (stale →
     ruleCache context' = Set_addAll sameEntry (ruleCache context) generated.1 ∧
     stylesheetCache context'
     = Some (buildStylesheet (entryPair <$> ruleCache context') context)) ∧
  (¬ stale →
     ruleCache context' = ruleCache context ∧
     stylesheetCache context' = stylesheetCache context).
Proof.
  intros generated context' stale.
  unfold context'. rewrite assemble_cases. simpl. fold generated.
  pose proof (stylesheetIsStale_spec (withClassCache context generated.2)
                (size (classCache context))) as Hspec.
  simpl in Hspec. fold stale in Hspec.
  destruct (stylesheetIsStale _ _).
  - do 3 (split; [done|]). split; [intros _; split; reflexivity|].
    intros Hn. destruct Hn. by apply Hspec.
  - do 3 (split; [done|]). split; [|done].
    intros Hs. apply Hspec in Hs. done.
Qed.

(** C2, as the code has it. A pass that finds no Layer Node returns before
    the rules are generated: its context is the one it was given, and a
    stylesheet cache that was [null] is still [null]. In a pass that finds a
    Layer Node, let the rule generator be called on the candidates of the
    pass and compare the size of the class cache it leaves with the size
    just before the call. If the stylesheet cache was [null] or the two
    sizes differ, the generated entries are merged into the rule cache (the
    entries it held stay in place, every generated array the cache did not
    hold is appended once, in the order of generation, and nothing else) and
    the stylesheet cache becomes the partition built from the merged rule
    cache: a rule node is in a bucket exactly when the precedence sends one
    of the entries to that bucket, and never twice. If not, the rule cache
    and the stylesheet cache are the ones the context had before the pass. *)
Theorem stylesheetCache_rebuilt_iff_stale (env : Collaborators) (w : World) (root : Node) :
  let context := w_context w in
  let context' := w_context (expandTailwindAtRules env w root).1 in
  let generated := generateRules env (candidates (passCollector env w root)) context in
  let stale := stylesheetCache context = None
               ∨ size generated.2 ≠ size (classCache context) in
  (allNull (scanLayerNodes root) = true → context' = context) ∧
  (allNull (scanLayerNodes root) = false →
     classCache context' = generated.2 ∧
     (stale →
        (∃ added, ruleCache context' = ruleCache context ++ added ∧
           added `sublist_of` generated.1 ∧
           NoDup (entryId <$> added) ∧
           (∀ e, e ∈ added → entryId e ∉ entryId <$> ruleCache context)) ∧
        (∀ e, e ∈ generated.1 → entryId e ∈ entryId <$> ruleCache context') ∧
        ∃ sheet, stylesheetCache context' = Some sheet ∧
          sheet = buildStylesheet (entryPair <$> ruleCache context') context ∧
          ∀ b, NoDup (nid <$> bucket b sheet) ∧
               ∀ rule, (∃ n, n ∈ bucket b sheet ∧ nid n = nid rule) ↔
                       ∃ e, e ∈ ruleCache context' ∧ nid (entryRule e) = nid rule ∧
                            bucketOfKey context (entrySort e) = Some b) ∧
     (¬ stale →
        ruleCache context' = ruleCache context ∧
        stylesheetCache context' = stylesheetCache context)).
Proof.
  intros context context' generated stale. split; intros Hnull.
  { unfold context', expandTailwindAtRules. by rewrite Hnull. }
  unfold context'. rewrite expandTailwindAtRules_unfold by done. simpl.
  unfold passContext. fold context.
  destruct (assemble_spec env context (candidates (passCollector env w root)))
    as (Hcc & _ & _ & Hstale & Hfresh).
  fold generated in Hcc, Hstale, Hfresh. fold stale in Hstale, Hfresh.
  split; [done|]. split; [|done].
  intros Hs. destruct (Hstale Hs) as [Hrules Hsheet].
  rewrite Hrules, Hsheet, Hrules. split; [|split].
  - apply (Set_addAll_added sameEntry entryId sameEntry_key).
  - intros e He. apply (Set_addAll_elem sameEntry entryId sameEntry_key).
    right. by apply list_elem_of_fmap_2.
  - eexists. split; [done|]. split; [done|]. intros b.
    destruct (buildStylesheet_bucket
                (entryPair <$> Set_addAll sameEntry (ruleCache context) generated.1)
                context b) as [Hnd Hmem].
    split; [done|]. intros rule. rewrite Hmem. split.
    + intros (p & (e & -> & He)%list_elem_of_fmap & Hid & Hb). by exists e.
    + intros (e & He & Hid & Hb). exists (entryPair e).
      split; [by apply list_elem_of_fmap_2|done].
Qed.

Lemma keepVariant_spec (layerNodes : LayerNodes) (node : Node) :
  keepVariant layerNodes node = true ↔
  (parentLayer node = Some "components" → is_Some (ln_components layerNodes)) ∧
  (parentLayer node = Some "utilities" → is_Some (ln_utilities layerNodes)).
Proof.
  unfold keepVariant, isSome, is_Some.
  destruct (ln_components layerNodes), (ln_utilities layerNodes);
    repeat case_bool_decide; naive_solver congruence.
Qed.

(** C4. The variant rules a pass copies into the tree are [variantNodes], the
    rules of the variants bucket that pass the filter, in the order of the
    bucket. A rule of the bucket tagged [components] (or [utilities]) is
    among them only if the scan found a [components] (or [utilities]) Layer
    Node, and then it is; a rule with no tag is always among them. *)
Theorem variants_filtered_by_layer (env : Collaborators) (w : World) (root : Node) :
  let layerNodes := scanLayerNodes root in
  let screenNodes := ss_variants (passStylesheet env w root) in
  let variantNodes := passVariantNodes env w root in
  (∀ node, node ∈ variantNodes ↔
     node ∈ screenNodes ∧
     (parentLayer node = Some "components" → is_Some (ln_components layerNodes)) ∧
     (parentLayer node = Some "utilities" → is_Some (ln_utilities layerNodes))) ∧
  (∀ node, node ∈ screenNodes → parentLayer node = None → node ∈ variantNodes) ∧
  (allNull layerNodes = false →
   let effective := (resolveRoot root layerNodes).1 in
   let replaced := passLayersReplaced env w root in
   (expandTailwindAtRules env w root).2 =
   cleanupAt (nid effective)
     (placeVariants layerNodes variantNodes effective replaced.1 replaced.2).1).
Proof.
  intros layerNodes screenNodes variantNodes.
  assert (Hfilter : ∀ node, node ∈ variantNodes ↔
     node ∈ screenNodes ∧
     (parentLayer node = Some "components" → is_Some (ln_components layerNodes)) ∧
     (parentLayer node = Some "utilities" → is_Some (ln_utilities layerNodes))).
  { intros node. unfold variantNodes, passVariantNodes, filterVariants.
    rewrite list_elem_of_In, filter_In, <- list_elem_of_In, keepVariant_spec. done. }
  split; [done|]. split.
  - intros node Hin Htag. apply Hfilter. split; [done|]. rewrite Htag. by split.
  - intros Hnull. simpl. by rewrite expandTailwindAtRules_unfold.
Qed.

(** C7. When the scan finds no Layer Node for any of the four layer names,
    the pass returns the tree it was given and leaves the state as it was:
    nothing is logged, no extractor and no rule generation is run, the
    context and the caches are unchanged. *)
Theorem no_layer_node_no_change (env : Collaborators) (w : World) (root : Node) :
  (∀ key, key ∈ layerNames → layerNodes_get (scanLayerNodes root) key = None) →
  expandTailwindAtRules env w root = (w, root).
Proof.
  intros Hnone. unfold expandTailwindAtRules.
  assert (allNull (scanLayerNodes root) = true) as ->; [|done].
  apply allNull_spec.
  pose proof (Hnone "base") as Hb. pose proof (Hnone "components") as Hc.
  pose proof (Hnone "utilities") as Hu. pose proof (Hnone "variants") as Hv.
  unfold layerNames in *. unfold layerNodes_get in *. simpl in *.
  repeat split; [apply Hb|apply Hc|apply Hu|apply Hv]; set_solver.
Qed.

(** C8, as the code has it. A pass that finds a Layer Node resets the
    changed-content list of the context to empty; a pass that finds none
    returns before the reset and leaves the list as it was. *)
Theorem changedContent_reset_unless_bailout (env : Collaborators) (w : World) (root : Node) :
  let context' := w_context (expandTailwindAtRules env w root).1 in
  (allNull (scanLayerNodes root) = false → changedContent context' = []) ∧
  (allNull (scanLayerNodes root) = true →
     changedContent context' = changedContent (w_context w)).
Proof.
  simpl. split; intros Hnull.
  - by rewrite expandTailwindAtRules_unfold.
  - unfold expandTailwindAtRules. by rewrite Hnull.
Qed.

Lemma resolveRoot_warnings (root : Node) (layerNodes : LayerNodes) :
  ∀ ev, ev ∈ (resolveRoot root layerNodes).2 → ev = Warn "postcss-document-root-missing".
Proof.
  intros ev. unfold resolveRoot, findRootInDocument.
  case_bool_decide; simpl; [|by intros ?%elem_of_nil].
  destruct (isSome _); simpl; [by intros ?%elem_of_nil|].
  destruct (last _); simpl; [by intros ?%elem_of_nil|].
  by intros ->%list_elem_of_singleton.
Qed.

Lemma hasUtilityVariants_spec (variantNodes : list Node) :
  hasUtilityVariants variantNodes = true ↔
  ∃ node, node ∈ variantNodes ∧ parentLayer node = Some "utilities".
Proof.
  unfold hasUtilityVariants. rewrite existsb_exists.
  split; intros (node & H1 & H2); exists node.
  - apply bool_decide_eq_true in H2. by rewrite list_elem_of_In.
  - rewrite <- list_elem_of_In. by rewrite bool_decide_eq_true.
Qed.

Lemma utilitiesWarning_spec (layerNodes : LayerNodes) (utilityNodes variantNodes : list Node) :
  Warn "content-problems" ∈ utilitiesWarning layerNodes utilityNodes variantNodes ↔
  is_Some (ln_utilities layerNodes) ∧ utilityNodes = [] ∧
  ¬ ∃ node, node ∈ variantNodes ∧ parentLayer node = Some "utilities".
Proof.
  unfold utilitiesWarning. rewrite <- hasUtilityVariants_spec.
  destruct (ln_utilities layerNodes); simpl.
  - destruct utilityNodes; simpl.
    + destruct (hasUtilityVariants variantNodes); simpl.
      * rewrite elem_of_nil. split; [done|]. by intros (_ & _ & []).
      * rewrite list_elem_of_singleton. split; [|done]. intros _.
        split; [by eexists|]. by split.
    + rewrite elem_of_nil. split; [done|]. by intros (_ & [=] & _).
  - rewrite elem_of_nil. split; [done|]. by intros ([? [=]] & _).
Qed.

(** The stylesheet cache of the context a pass leaves is the stylesheet
    whose buckets the pass destructured. *)
Lemma pass_stylesheetCache (env : Collaborators) (w : World) (root : Node) :
  allNull (scanLayerNodes root) = false →
  stylesheetCache (w_context (expandTailwindAtRules env w root).1)
  = Some (passStylesheet env w root).
Proof.
  intros Hnull. rewrite expandTailwindAtRules_unfold by done. simpl.
  unfold passStylesheet, currentStylesheet, passContext.
  by destruct (assemble_stylesheetCache env (w_context w)
                 (candidates (passCollector env w root))) as [sheet ->].
Qed.

Lemma filterVariants_elem (layerNodes : LayerNodes) (screenNodes : list Node) (node : Node) :
  node ∈ filterVariants layerNodes screenNodes ↔
  node ∈ screenNodes ∧
  (parentLayer node = Some "components" → is_Some (ln_components layerNodes)) ∧
  (parentLayer node = Some "utilities" → is_Some (ln_utilities layerNodes)).
Proof.
  unfold filterVariants.
  by rewrite list_elem_of_In, filter_In, <- list_elem_of_In, keepVariant_spec.
Qed.

(** C9. What a pass adds to the log contains the advisory warning
    [content-problems] exactly when the scan found a [utilities] Layer Node,
    the utilities bucket of the stylesheet cache of the context (the cache
    as the build step of the pass left it) is empty, and no rule of its
    variants bucket that passes the filter is tagged [utilities]; it is then
    logged once. A pass that finds a Layer Node always leaves a stylesheet
    cache. *)
Theorem utilities_warning_iff (env : Collaborators) (w : World) (root : Node) :
  let layerNodes := scanLayerNodes root in
  let context' := w_context (expandTailwindAtRules env w root).1 in
  ∃ new, w_trace (expandTailwindAtRules env w root).1 = w_trace w ++ new ∧
    (allNull layerNodes = false → is_Some (stylesheetCache context')) ∧
    (Warn "content-problems" ∈ new ↔
       is_Some (ln_utilities layerNodes) ∧
       ∃ sheet, stylesheetCache context' = Some sheet ∧
         ss_utilities sheet = [] ∧
         ¬ ∃ node, node ∈ ss_variants sheet ∧
             (parentLayer node = Some "components" →
              is_Some (ln_components layerNodes)) ∧
             (parentLayer node = Some "utilities" →
              is_Some (ln_utilities layerNodes)) ∧
             parentLayer node = Some "utilities") ∧
    (length (filter (λ ev, ev = Warn "content-problems") new) ≤ 1)%nat.
Proof.
  intros layerNodes context'.
  destruct (allNull (scanLayerNodes root)) eqn:Hnull.
  - unfold context', expandTailwindAtRules. rewrite Hnull. exists []. simpl.
    rewrite app_nil_r. split; [done|].
    split; [intros H; unfold layerNodes in H; congruence|]. split; [|simpl; lia].
    apply allNull_spec in Hnull as (_ & _ & Hu & _).
    rewrite elem_of_nil. unfold layerNodes. rewrite Hu.
    split; [done|]. by intros ([? [=]] & _).
  - pose proof (pass_stylesheetCache env w root Hnull) as Hcache.
    fold context' in Hcache. unfold layerNodes in *. clear layerNodes.
    set (layerNodes := scanLayerNodes root) in *.
    assert (Hsurvive :
      (∃ node, node ∈ passVariantNodes env w root
               ∧ parentLayer node = Some "utilities") ↔
      ∃ node, node ∈ ss_variants (passStylesheet env w root) ∧
        (parentLayer node = Some "components" → is_Some (ln_components layerNodes)) ∧
        (parentLayer node = Some "utilities" → is_Some (ln_utilities layerNodes)) ∧
        parentLayer node = Some "utilities").
    { unfold passVariantNodes. fold layerNodes. split.
      - intros (node & (? & ? & ?)%filterVariants_elem & ?). by exists node.
      - intros (node & ? & ? & ? & ?). exists node. split; [|done].
        by apply filterVariants_elem. }
    rewrite expandTailwindAtRules_unfold by done. simpl.
    destruct (collectUnits_events env (tailwindConfig (w_context w))
                (changedContent (w_context w))
                {| candidates := Set_new sameString ["*"]; seen := ∅;
                   extractorCache := w_extractorCache w;
                   trace := w_trace w ++ (resolveRoot root (scanLayerNodes root)).2 |})
      as (events & Ht & Hev).
    fold (collectCandidates env (w_context w) (w_extractorCache w)
            (w_trace w ++ (resolveRoot root (scanLayerNodes root)).2)) in Ht.
    fold (passCollector env w root) in Ht. simpl in Ht.
    set (advisory := utilitiesWarning layerNodes
                       (ss_utilities (passStylesheet env w root))
                       (passVariantNodes env w root)).
    exists ((resolveRoot root (scanLayerNodes root)).2 ++ events
            ++ GenerateRules (candidates (passCollector env w root)) :: advisory).
    rewrite Ht. split; [by rewrite <- !app_assoc|].
    split; [intros _; rewrite Hcache; by eexists|].
    assert (Hother : ∀ l, (∀ ev, ev ∈ l → ev ≠ Warn "content-problems") →
              filter (λ ev, ev = Warn "content-problems") l = []).
    { intros l Hl. induction l as [|x l IH]; [done|].
      rewrite filter_cons. case_decide as Hx; [by apply Hl in Hx; [|left]|].
      apply IH. intros ev Hin. apply Hl. by right. }
    assert (H1 : ∀ ev, ev ∈ (resolveRoot root (scanLayerNodes root)).2 →
                 ev ≠ Warn "content-problems").
    { intros ev Hin. by rewrite (resolveRoot_warnings _ _ _ Hin). }
    assert (H2 : ∀ ev, ev ∈ events → ev ≠ Warn "content-problems").
    { intros ev Hin ->. by destruct (Hev _ Hin) as [? [=]]. }
    split.
    + assert (Hadv : Warn "content-problems" ∈ advisory ↔
                is_Some (ln_utilities layerNodes) ∧
                ∃ sheet, stylesheetCache context' = Some sheet ∧
                  ss_utilities sheet = [] ∧
                  ¬ ∃ node, node ∈ ss_variants sheet ∧
                      (parentLayer node = Some "components" →
                       is_Some (ln_components layerNodes)) ∧
                      (parentLayer node = Some "utilities" →
                       is_Some (ln_utilities layerNodes)) ∧
                      parentLayer node = Some "utilities").
      { unfold advisory. rewrite utilitiesWarning_spec, Hsurvive. split.
        - intros (Hu & He & Hno). split; [done|].
          exists (passStylesheet env w root). by split.
        - intros (Hu & sheet & Hs & He & Hno). rewrite Hcache in Hs.
          injection Hs as <-. by split. }
      rewrite <- Hadv. rewrite !elem_of_app, elem_of_cons.
      split; [|tauto]. intros [Hin|[Hin|[[=]|Hin]]]; [|  |done].
      * by apply H1 in Hin.
      * by apply H2 in Hin.
    + rewrite !filter_app, (Hother _ H1), (Hother _ H2).
      rewrite filter_cons. case_decide; [done|]. simpl.
      unfold advisory, utilitiesWarning. destruct (_ && _); simpl; lia.
Qed.

(** ** Root resolution *)

Lemma hasChild_spec (node child : Node) :
  hasChild node child = true ↔ ∃ c, c ∈ nodes node ∧ nid c = nid child.
Proof.
  unfold hasChild. rewrite existsb_exists. split.
  - intros (c & Hc & Hs). exists c. apply sameNode_key in Hs.
    by rewrite list_elem_of_In.
  - intros (c & Hc & Hs). exists c. rewrite <- list_elem_of_In.
    split; [done|]. by apply sameNode_key.
Qed.

Lemma layerChild_spec (directive : option Node) (node : Node) :
  match directive with Some d => hasChild node d | None => false end = true ↔
  ∃ d, directive = Some d ∧ ∃ c, c ∈ nodes node ∧ nid c = nid d.
Proof.
  destruct directive as [d|].
  - rewrite hasChild_spec. split; [intros H; by exists d|by intros (? & [= <-] & ?)].
  - split; [done|by intros (? & [=] & _)].
Qed.

Lemma holdsLayerNode_spec (layerNodes : LayerNodes) (node : Node) :
  holdsLayerNode layerNodes node = true ↔
  type node = "root" ∧
  ∃ d, (ln_components layerNodes = Some d ∨ ln_utilities layerNodes = Some d) ∧
       ∃ c, c ∈ nodes node ∧ nid c = nid d.
Proof.
  unfold holdsLayerNode.
  pose proof (layerChild_spec (ln_components layerNodes) node) as Hc.
  pose proof (layerChild_spec (ln_utilities layerNodes) node) as Hu.
  case_bool_decide as Ht; simpl; [|by split; [|intros [? _]]].
  destruct (match ln_components layerNodes with Some _ => _ | None => _ end).
  { split; [intros _|done]. split; [done|].
    destruct (proj1 Hc eq_refl) as (d & Hd & Hch). exists d. auto. }
  destruct (match ln_utilities layerNodes with Some _ => _ | None => _ end).
  { split; [intros _|done]. split; [done|].
    destruct (proj1 Hu eq_refl) as (d & Hd & Hch). exists d. auto. }
  split; [done|]. intros (_ & d & [Hd|Hd] & Hch).
  - apply Hc. by exists d.
  - apply Hu. by exists d.
Qed.

Lemma filter_none {A : Type} (f : A → bool) (l : list A) :
  (∀ y, y ∈ l → f y = false) → List.filter f l = [].
Proof.
  induction l as [|x l IH]; intros H; simpl; [done|].
  rewrite (H x) by constructor. apply IH. intros y Hy. apply H. by constructor.
Qed.

Lemma last_filter (f : Node → bool) (before after : list Node) (x : Node) :
  f x = true → (∀ y, y ∈ after → f y = false) →
  last (List.filter f (before ++ x :: after)) = Some x.
Proof.
  intros Hx Hafter. rewrite List.filter_app. simpl.
  rewrite Hx, (filter_none f after Hafter). apply last_snoc.
Qed.

Lemma last_true_split {A : Type} (f : A → bool) (l : list A) :
  (∀ y, y ∈ l → f y = false) ∨
  ∃ before x after, l = before ++ x :: after ∧ f x = true ∧
                    ∀ y, y ∈ after → f y = false.
Proof.
  induction l as [|x l IH] using rev_ind.
  - left. by intros y ?%elem_of_nil.
  - destruct (f x) eqn:Hx.
    + right. exists l, x, []. split; [done|]. split; [done|]. by intros y ?%elem_of_nil.
    + destruct IH as [Hnone|(before & x' & after & -> & Hx' & Hafter)].
      * left. intros y [Hy| ->%list_elem_of_singleton]%elem_of_app; auto.
      * right. exists before, x', (after ++ [x]).
        split; [by rewrite <- app_assoc|]. split; [done|].
        intros y [Hy| ->%list_elem_of_singleton]%elem_of_app; auto.
Qed.

(** C5. [findRootInDocument] returns the document, without looking at its
    roots, when there is a [variants] Layer Node. When there is none, a
    top-level node of the document qualifies when it is a root and the
    [components] or the [utilities] Layer Node is one of its children; the
    last qualifying node is returned and nothing is logged; when no node
    qualifies a warning is logged and the document is returned; one of the
    two is always the case. The node
    returned is the one the surviving variant rules are appended to. *)
Theorem findRootInDocument_last_root (doc : Node) (layerNodes : LayerNodes) :
  (∀ node, holdsLayerNode layerNodes node = true ↔
     type node = "root" ∧
     ∃ d, (ln_components layerNodes = Some d ∨ ln_utilities layerNodes = Some d) ∧
          ∃ c, c ∈ nodes node ∧ nid c = nid d) ∧
  (is_Some (ln_variants layerNodes) → findRootInDocument doc layerNodes = (doc, [])) ∧
  (ln_variants layerNodes = None →
   ∀ before target after,
     nodes doc = before ++ target :: after →
     holdsLayerNode layerNodes target = true →
     (∀ y, y ∈ after → holdsLayerNode layerNodes y = false) →
     findRootInDocument doc layerNodes = (target, [])) ∧
  (ln_variants layerNodes = None →
   (∀ y, y ∈ nodes doc → holdsLayerNode layerNodes y = false) →
   findRootInDocument doc layerNodes = (doc, [Warn "postcss-document-root-missing"])) ∧
  ((∀ y, y ∈ nodes doc → holdsLayerNode layerNodes y = false) ∨
   ∃ before target after,
     nodes doc = before ++ target :: after ∧
     holdsLayerNode layerNodes target = true ∧
     ∀ y, y ∈ after → holdsLayerNode layerNodes y = false) ∧
  (ln_variants layerNodes = None →
   ∀ variantNodes tree next,
     variantNodes ≠ [] →
     let target := (findRootInDocument doc layerNodes).1 in
     let clones := cloneNodes variantNodes (source target) next in
     placeVariants layerNodes variantNodes target tree next
     = (appendTo (nid target) clones.1 tree, clones.2)).
Proof.
  split; [apply holdsLayerNode_spec|]. unfold findRootInDocument.
  split; [by intros [d ->]|].
  split; [|split; [|split]].
  - intros -> before target after Hdoc Ht Hafter. simpl.
    by rewrite Hdoc, last_filter.
  - intros -> Hnone. simpl. by rewrite filter_none.
  - apply last_true_split.
  - intros Hv variantNodes tree next Hne. simpl. unfold placeVariants. rewrite Hv.
    destruct variantNodes as [|v vs]; [done|].
    rewrite bool_decide_eq_true_2 by (simpl; lia).
    by destruct (cloneNodes _ _ _).
Qed.

(** ** The scan for Layer Nodes *)

Lemma layerNodes_get_set (l : LayerNodes) (key key' : string) (rule : Node) :
  key ∈ layerNames → key' ∈ layerNames →
  layerNodes_get (layerNodes_set l key rule) key'
  = if decide (key = key') then Some rule else layerNodes_get l key'.
Proof.
  unfold layerNames. intros Hk Hk'.
  repeat (apply elem_of_cons in Hk as [->|Hk]); [| | | |by apply elem_of_nil in Hk];
  repeat (apply elem_of_cons in Hk' as [->|Hk']); try (by apply elem_of_nil in Hk');
  reflexivity.
Qed.

Lemma recordLayerNode_get (l : LayerNodes) (rule : Node) (key : string) :
  key ∈ layerNames →
  layerNodes_get (recordLayerNode l rule) key
  = if decide (isDirective key rule) then Some rule else layerNodes_get l key.
Proof.
  intros Hk. unfold recordLayerNode, isDirective.
  case_bool_decide as Hn.
  - case_bool_decide as Hp.
    + rewrite layerNodes_get_set by done.
      repeat case_decide; naive_solver.
    + case_decide as Hd; [|done]. destruct Hd as [_ Hd]. by rewrite Hd in Hp.
  - case_decide as Hd; [|done]. by destruct Hd.
Qed.

Lemma scan_get (rules : list Node) (init : LayerNodes) (key : string) :
  key ∈ layerNames →
  layerNodes_get (fold_left recordLayerNode rules init) key
  = match last (filter (isDirective key) rules) with
    | Some r => Some r
    | None => layerNodes_get init key
    end.
Proof.
  intros Hk. induction rules as [|rule rules IH] using rev_ind; [done|].
  rewrite fold_left_app, filter_app. simpl.
  rewrite recordLayerNode_get by done. rewrite filter_cons, filter_nil.
  case_decide.
  - by rewrite last_snoc.
  - by rewrite app_nil_r.
Qed.

Lemma scanLayerNodes_get (root : Node) (key : string) :
  key ∈ layerNames →
  layerNodes_get (scanLayerNodes root) key
  = last (filter (isDirective key) (walkAtRules root)).
Proof.
  intros Hk. unfold scanLayerNodes. rewrite scan_get by done.
  destruct (last _); [done|].
  unfold layerNames in Hk.
  repeat (apply elem_of_cons in Hk as [->|Hk]); try reflexivity.
  by apply elem_of_nil in Hk.
Qed.

(** ** The tree operations keep what they do not target *)

Lemma NoDup_fmap_eq {A B : Type} (f : A → B) (l : list A) (x y : A) :
  NoDup (f <$> l) → x ∈ l → y ∈ l → f x = f y → x = y.
Proof.
  induction l as [|a l IH]; intros Hnd Hx Hy Hf; [by apply elem_of_nil in Hx|].
  rewrite fmap_cons in Hnd. apply NoDup_cons in Hnd as [Ha Hnd].
  apply elem_of_cons in Hx as [->|Hx]; apply elem_of_cons in Hy as [->|Hy]; auto.
  - destruct Ha. rewrite Hf. by apply list_elem_of_fmap_2.
  - destruct Ha. rewrite <- Hf. by apply list_elem_of_fmap_2.
Qed.

Lemma elem_of_flat_map {A B : Type} (f : A → list B) (l : list A) (y : B) :
  y ∈ flat_map f l ↔ ∃ x, x ∈ l ∧ y ∈ f x.
Proof.
  rewrite list_elem_of_In, in_flat_map.
  split; intros (x & Hx & Hy); exists x; by rewrite ?list_elem_of_In in *.
Qed.

Lemma walk_nodes (n c : Node) :
  c ∈ walk n ↔ ∃ child, child ∈ nodes n ∧ (c = child ∨ c ∈ walk child).
Proof.
  destruct n as [j t nm p s pl cs]. simpl. rewrite elem_of_flat_map.
  split; intros (child & Hc & Hi); exists child; (split; [done|]).
  - by apply elem_of_cons in Hi.
  - by apply elem_of_cons.
Qed.


Lemma sameHead_refl (c : Node) : sameHead c c.
Proof. by repeat split. Qed.

Lemma sameHead_trans (a b c : Node) : sameHead a b → sameHead b c → sameHead a c.
Proof.
  unfold sameHead. intros (? & ? & ? & ? & ? & ?) (? & ? & ? & ? & ? & ?).
  repeat split; congruence.
Qed.

Lemma removedByPass_head (layerNodes : LayerNodes) (a b : Node) :
  sameHead a b → removedByPass layerNodes b = removedByPass layerNodes a.
Proof.
  intros (Hi & Ht & Hn & Hp & _). unfold removedByPass, isLayerMarker.
  by rewrite Hi, Ht, Hn, Hp.
Qed.

Lemma removedByPass_target (layerNodes : LayerNodes) (d c : Node) :
  Some d ∈ layerNodes_values layerNodes →
  removedByPass layerNodes c = false → nid c ≠ nid d.
Proof.
  intros Hd Hc Heq. unfold removedByPass in Hc.
  apply orb_false_iff in Hc as [_ Hc].
  apply not_true_iff_false in Hc. apply Hc. apply existsb_exists.
  exists (Some d). split; [by apply list_elem_of_In|]. by apply bool_decide_eq_true.
Qed.

Section KeptIn.
Variable layerNodes : LayerNodes.
Variable f : Node → Node.
Hypothesis f_head : ∀ c, sameHead c (f c).
Hypothesis f_nodes : ∀ n c,
  c ∈ nodes n → removedByPass layerNodes c = false →
  f c ∈ nodes (f n) ∨ c ∈ nodes (f n).

Lemma keptIn_preserved (d n : Node) :
  keptIn layerNodes d n → keptIn layerNodes d (f n).
Proof using f_head f_nodes.
  induction 1 as [n c Hc Hr Hd|n c Hc Hr Hk IH].
  - destruct (f_nodes n c Hc Hr) as [Hin|Hin].
    + eapply keptIn_child; [exact Hin| |].
      * by rewrite (removedByPass_head _ c (f c)).
      * eapply sameHead_trans; [exact Hd|apply f_head].
    + by eapply keptIn_child.
  - destruct (f_nodes n c Hc Hr) as [Hin|Hin].
    + eapply keptIn_below; [exact Hin| |exact IH].
      by rewrite (removedByPass_head _ c (f c)).
    + by eapply keptIn_below.
Qed.
End KeptIn.

Lemma insertBefore_head (target : nat) (add : list Node) (c : Node) :
  sameHead c (insertBefore target add c).
Proof. destruct c. by repeat split. Qed.

Lemma removeNode_head (target : nat) (c : Node) : sameHead c (removeNode target c).
Proof. destruct c. by repeat split. Qed.

Lemma appendTo_head (target : nat) (add : list Node) (c : Node) :
  sameHead c (appendTo target add c).
Proof. destruct c. simpl. case_bool_decide; by repeat split. Qed.

Lemma removeLayerAtRules_head (c : Node) : sameHead c (removeLayerAtRules c).
Proof. destruct c. by repeat split. Qed.

Lemma cleanupAt_head (target : nat) (c : Node) : sameHead c (cleanupAt target c).
Proof. destruct c. simpl. case_bool_decide; by repeat split. Qed.

Lemma keptIn_insertBefore (layerNodes : LayerNodes) (target : nat) (add : list Node)
    (d n : Node) :
  keptIn layerNodes d n → keptIn layerNodes d (insertBefore target add n).
Proof.
  apply keptIn_preserved; [apply insertBefore_head|].
  intros [i t nm p s pl cs] c Hc _. simpl in *.
  destruct (decide (nid c = target)) as [Ht|Ht].
  - right. apply list_elem_of_In, in_flat_map. exists c.
    split; [by apply list_elem_of_In|].
    rewrite bool_decide_eq_true_2 by done. apply in_or_app. right. by left.
  - left. apply list_elem_of_In, in_flat_map. exists c.
    split; [by apply list_elem_of_In|].
    rewrite bool_decide_eq_false_2 by done. by left.
Qed.

Lemma keptIn_removeNode (layerNodes : LayerNodes) (target d n : Node) :
  Some target ∈ layerNodes_values layerNodes →
  keptIn layerNodes d n → keptIn layerNodes d (removeNode (nid target) n).
Proof.
  intros Ht. apply keptIn_preserved; [apply removeNode_head|].
  intros [i t nm p s pl cs] c Hc Hr. simpl in *.
  left. apply list_elem_of_In, in_flat_map. exists c.
  split; [by apply list_elem_of_In|].
  rewrite bool_decide_eq_false_2 by by eapply removedByPass_target. by left.
Qed.

Lemma keptIn_appendTo (layerNodes : LayerNodes) (target : nat) (add : list Node)
    (d n : Node) :
  keptIn layerNodes d n → keptIn layerNodes d (appendTo target add n).
Proof.
  apply keptIn_preserved; [apply appendTo_head|].
  intros [i t nm p s pl cs] c Hc _. simpl in *. case_bool_decide; simpl.
  - right. apply elem_of_app. by left.
  - left. by apply list_elem_of_fmap_2.
Qed.

Lemma keptIn_removeLayerAtRules (layerNodes : LayerNodes) (d n : Node) :
  keptIn layerNodes d n → keptIn layerNodes d (removeLayerAtRules n).
Proof.
  apply keptIn_preserved; [apply removeLayerAtRules_head|].
  intros [i t nm p s pl cs] c Hc Hr. simpl in *.
  left. apply list_elem_of_In, in_flat_map. exists c.
  split; [by apply list_elem_of_In|].
  unfold removedByPass in Hr. apply orb_false_iff in Hr as [-> _]. by left.
Qed.

Lemma keptIn_cleanupAt (layerNodes : LayerNodes) (target : nat) (d n : Node) :
  keptIn layerNodes d n → keptIn layerNodes d (cleanupAt target n).
Proof.
  induction 1 as [n c Hc Hr Hd|n c Hc Hr Hk IH].
  - destruct (decide (nid n = target)) as [Ht|Ht].
    + replace (cleanupAt target n) with (removeLayerAtRules n)
        by (destruct n; simpl in *; by rewrite bool_decide_eq_true_2).
      apply keptIn_removeLayerAtRules. by eapply keptIn_child.
    + eapply (keptIn_child _ _ _ (cleanupAt target c)).
      * destruct n; simpl in *. rewrite bool_decide_eq_false_2 by done.
        simpl. by apply list_elem_of_fmap_2.
      * by rewrite (removedByPass_head _ c) by apply cleanupAt_head.
      * eapply sameHead_trans; [exact Hd|apply cleanupAt_head].
  - destruct (decide (nid n = target)) as [Ht|Ht].
    + replace (cleanupAt target n) with (removeLayerAtRules n)
        by (destruct n; simpl in *; by rewrite bool_decide_eq_true_2).
      apply keptIn_removeLayerAtRules. by eapply keptIn_below.
    + eapply (keptIn_below _ _ _ (cleanupAt target c)); [| |exact IH].
      * destruct n; simpl in *. rewrite bool_decide_eq_false_2 by done.
        simpl. by apply list_elem_of_fmap_2.
      * by rewrite (removedByPass_head _ c) by apply cleanupAt_head.
Qed.

Lemma keptIn_replaceIfPresent (layerNodes : LayerNodes) (directive : option Node)
    (bucket : list Node) (tree : Node) (next : nat) (d : Node) :
  directive ∈ layerNodes_values layerNodes →
  keptIn layerNodes d tree →
  keptIn layerNodes d (replaceIfPresent directive bucket tree next).1.
Proof.
  intros Hd Hk. destruct directive as [target|]; [|done]. simpl.
  unfold replaceDirective. destruct (cloneNodes _ _ _) as [clones k]. simpl.
  by apply keptIn_removeNode, keptIn_insertBefore.
Qed.

Lemma keptIn_placeVariants (layerNodes : LayerNodes) (variantNodes : list Node)
    (effective tree : Node) (next : nat) (d : Node) :
  keptIn layerNodes d tree →
  keptIn layerNodes d (placeVariants layerNodes variantNodes effective tree next).1.
Proof.
  intros Hk. unfold placeVariants.
  destruct (ln_variants layerNodes) as [target|] eqn:Hv.
  - unfold replaceDirective. destruct (cloneNodes _ _ _) as [clones k]. simpl.
    apply keptIn_removeNode, keptIn_insertBefore; [|done].
    unfold layerNodes_values. rewrite Hv. set_solver.
  - case_bool_decide; [|done].
    destruct (cloneNodes _ _ _) as [clones k]. simpl. by apply keptIn_appendTo.
Qed.

(** A node outside of what the pass removes is still in the tree after it. *)
Lemma keptIn_pass (env : Collaborators) (w : World) (root d : Node) :
  keptIn (scanLayerNodes root) d root →
  keptIn (scanLayerNodes root) d (expandTailwindAtRules env w root).2.
Proof.
  intros Hk. destruct (allNull (scanLayerNodes root)) eqn:Hnull.
  { unfold expandTailwindAtRules. by rewrite Hnull. }
  rewrite expandTailwindAtRules_unfold by done. simpl.
  apply keptIn_cleanupAt, keptIn_placeVariants.
  unfold passLayersReplaced.
  set (sheet := passStylesheet env w root).
  set (layerNodes := scanLayerNodes root) in *.
  pose proof (keptIn_replaceIfPresent layerNodes (ln_base layerNodes)
                (ss_base sheet ++ ss_defaults sheet) root (w_nextId w) d) as H1.
  destruct (replaceIfPresent (ln_base layerNodes) _ root _) as [t1 k1].
  pose proof (keptIn_replaceIfPresent layerNodes (ln_components layerNodes)
                (ss_components sheet) t1 k1 d) as H2.
  destruct (replaceIfPresent (ln_components layerNodes) _ t1 _) as [t2 k2].
  apply keptIn_replaceIfPresent; [unfold layerNodes_values; set_solver|].
  apply H2; [unfold layerNodes_values; set_solver|].
  apply H1; [unfold layerNodes_values; set_solver|done].
Qed.

Lemma keptIn_walk (layerNodes : LayerNodes) (d n : Node) :
  keptIn layerNodes d n → ∃ c, c ∈ walk n ∧ sameHead d c.
Proof.
  induction 1 as [n c Hc Hr Hd|n c Hc Hr Hk (c' & Hc' & Hd)].
  - exists c. split; [|done]. destruct n. simpl in *.
    apply list_elem_of_In, in_flat_map. exists c.
    split; [by apply list_elem_of_In|by left].
  - exists c'. split; [|done]. destruct n. simpl in *.
    apply list_elem_of_In, in_flat_map. exists c.
    split; [by apply list_elem_of_In|]. right. by apply list_elem_of_In.
Qed.

(** *** A node without children is kept as it is *)

Section UntouchedIn.
Variable layerNodes : LayerNodes.
Variable d : Node.
Variable f : Node → Node.
Hypothesis f_head : ∀ c, sameHead c (f c).
Hypothesis f_fix : f d = d.
Hypothesis f_nodes : ∀ n c,
  c ∈ nodes n → removedByPass layerNodes c = false →
  f c ∈ nodes (f n) ∨ c ∈ nodes (f n).

Lemma untouchedIn_preserved (n : Node) :
  untouchedIn layerNodes d n → untouchedIn layerNodes d (f n).
Proof using f_head f_fix f_nodes.
  induction 1 as [n Hd Hr|n c Hc Hr Hk IH].
  - apply untouchedIn_child; [|done].
    destruct (f_nodes n d Hd Hr) as [Hin|Hin]; [by rewrite f_fix in Hin|done].
  - destruct (f_nodes n c Hc Hr) as [Hin|Hin].
    + eapply untouchedIn_below; [exact Hin| |exact IH].
      by rewrite (removedByPass_head _ c (f c)).
    + by eapply untouchedIn_below.
Qed.
End UntouchedIn.

Lemma insertBefore_leaf (target : nat) (add : list Node) (d : Node) :
  nodes d = [] → insertBefore target add d = d.
Proof. destruct d. simpl. by intros ->. Qed.

Lemma removeNode_leaf (target : nat) (d : Node) :
  nodes d = [] → removeNode target d = d.
Proof. destruct d. simpl. by intros ->. Qed.

Lemma appendTo_leaf (target : nat) (add : list Node) (d : Node) :
  nodes d = [] → nid d ≠ target → appendTo target add d = d.
Proof. destruct d. simpl. intros -> Hne. by rewrite bool_decide_eq_false_2. Qed.

Lemma removeLayerAtRules_leaf (d : Node) : nodes d = [] → removeLayerAtRules d = d.
Proof. destruct d. simpl. by intros ->. Qed.

Lemma cleanupAt_leaf (target : nat) (d : Node) : nodes d = [] → cleanupAt target d = d.
Proof. destruct d. simpl. intros ->. by case_bool_decide. Qed.

Lemma untouchedIn_insertBefore (layerNodes : LayerNodes) (target : nat) (add : list Node)
    (d n : Node) :
  nodes d = [] →
  untouchedIn layerNodes d n → untouchedIn layerNodes d (insertBefore target add n).
Proof.
  intros Hleaf.
  apply untouchedIn_preserved; [apply insertBefore_head|by apply insertBefore_leaf|].
  intros [i t nm p s pl cs] c Hc _. simpl in *.
  destruct (decide (nid c = target)) as [Ht|Ht].
  - right. apply list_elem_of_In, in_flat_map. exists c.
    split; [by apply list_elem_of_In|].
    rewrite bool_decide_eq_true_2 by done. apply in_or_app. right. by left.
  - left. apply list_elem_of_In, in_flat_map. exists c.
    split; [by apply list_elem_of_In|].
    rewrite bool_decide_eq_false_2 by done. by left.
Qed.

Lemma untouchedIn_removeNode (layerNodes : LayerNodes) (target d n : Node) :
  nodes d = [] →
  Some target ∈ layerNodes_values layerNodes →
  untouchedIn layerNodes d n → untouchedIn layerNodes d (removeNode (nid target) n).
Proof.
  intros Hleaf Ht.
  apply untouchedIn_preserved; [apply removeNode_head|by apply removeNode_leaf|].
  intros [i t nm p s pl cs] c Hc Hr. simpl in *.
  left. apply list_elem_of_In, in_flat_map. exists c.
  split; [by apply list_elem_of_In|].
  rewrite bool_decide_eq_false_2 by by eapply removedByPass_target. by left.
Qed.

Lemma untouchedIn_appendTo (layerNodes : LayerNodes) (target : nat) (add : list Node)
    (d n : Node) :
  nodes d = [] → nid d ≠ target →
  untouchedIn layerNodes d n → untouchedIn layerNodes d (appendTo target add n).
Proof.
  intros Hleaf Hne.
  apply untouchedIn_preserved; [apply appendTo_head|by apply appendTo_leaf|].
  intros [i t nm p s pl cs] c Hc _. simpl in *. case_bool_decide; simpl.
  - right. apply elem_of_app. by left.
  - left. by apply list_elem_of_fmap_2.
Qed.

Lemma untouchedIn_removeLayerAtRules (layerNodes : LayerNodes) (d n : Node) :
  nodes d = [] →
  untouchedIn layerNodes d n → untouchedIn layerNodes d (removeLayerAtRules n).
Proof.
  intros Hleaf.
  apply untouchedIn_preserved;
    [apply removeLayerAtRules_head|by apply removeLayerAtRules_leaf|].
  intros [i t nm p s pl cs] c Hc Hr. simpl in *.
  left. apply list_elem_of_In, in_flat_map. exists c.
  split; [by apply list_elem_of_In|].
  unfold removedByPass in Hr. apply orb_false_iff in Hr as [-> _]. by left.
Qed.

Lemma untouchedIn_cleanupAt (layerNodes : LayerNodes) (target : nat) (d n : Node) :
  nodes d = [] →
  untouchedIn layerNodes d n → untouchedIn layerNodes d (cleanupAt target n).
Proof.
  intros Hleaf. induction 1 as [n Hd Hr|n c Hc Hr Hk IH].
  - destruct (decide (nid n = target)) as [Ht|Ht].
    + replace (cleanupAt target n) with (removeLayerAtRules n)
        by (destruct n; simpl in *; by rewrite bool_decide_eq_true_2).
      apply untouchedIn_removeLayerAtRules; [done|]. by apply untouchedIn_child.
    + apply untouchedIn_child; [|done].
      pose proof (list_elem_of_fmap_2 (cleanupAt target) _ _ Hd) as Hin.
      rewrite cleanupAt_leaf in Hin by done.
      destruct n; simpl in *. by rewrite bool_decide_eq_false_2.
  - destruct (decide (nid n = target)) as [Ht|Ht].
    + replace (cleanupAt target n) with (removeLayerAtRules n)
        by (destruct n; simpl in *; by rewrite bool_decide_eq_true_2).
      apply untouchedIn_removeLayerAtRules; [done|]. by eapply untouchedIn_below.
    + eapply (untouchedIn_below _ _ _ (cleanupAt target c)); [| |exact IH].
      * destruct n; simpl in *. rewrite bool_decide_eq_false_2 by done.
        simpl. by apply list_elem_of_fmap_2.
      * by rewrite (removedByPass_head _ c) by apply cleanupAt_head.
Qed.

Lemma untouchedIn_replaceIfPresent (layerNodes : LayerNodes) (directive : option Node)
    (bucket : list Node) (tree : Node) (next : nat) (d : Node) :
  nodes d = [] →
  directive ∈ layerNodes_values layerNodes →
  untouchedIn layerNodes d tree →
  untouchedIn layerNodes d (replaceIfPresent directive bucket tree next).1.
Proof.
  intros Hleaf Hd Hk. destruct directive as [target|]; [|done]. simpl.
  unfold replaceDirective. destruct (cloneNodes _ _ _) as [clones k]. simpl.
  by apply untouchedIn_removeNode, untouchedIn_insertBefore.
Qed.

Lemma untouchedIn_placeVariants (layerNodes : LayerNodes) (variantNodes : list Node)
    (effective tree : Node) (next : nat) (d : Node) :
  nodes d = [] → nid d ≠ nid effective →
  untouchedIn layerNodes d tree →
  untouchedIn layerNodes d (placeVariants layerNodes variantNodes effective tree next).1.
Proof.
  intros Hleaf Hne Hk. unfold placeVariants.
  destruct (ln_variants layerNodes) as [target|] eqn:Hv.
  - unfold replaceDirective. destruct (cloneNodes _ _ _) as [clones k]. simpl.
    apply untouchedIn_removeNode, untouchedIn_insertBefore; try done.
    unfold layerNodes_values. rewrite Hv. set_solver.
  - case_bool_decide; [|done].
    destruct (cloneNodes _ _ _) as [clones k]. simpl. by apply untouchedIn_appendTo.
Qed.

(** A node without children, outside of what the pass removes and other
    than the node the variants are appended to, is in the tree after the
    pass exactly as it was. *)
Lemma untouchedIn_pass (env : Collaborators) (w : World) (root d : Node) :
  nodes d = [] →
  nid d ≠ nid (resolveRoot root (scanLayerNodes root)).1 →
  untouchedIn (scanLayerNodes root) d root →
  untouchedIn (scanLayerNodes root) d (expandTailwindAtRules env w root).2.
Proof.
  intros Hleaf Hne Hk. destruct (allNull (scanLayerNodes root)) eqn:Hnull.
  { unfold expandTailwindAtRules. by rewrite Hnull. }
  rewrite expandTailwindAtRules_unfold by done. simpl.
  apply untouchedIn_cleanupAt; [done|]. apply untouchedIn_placeVariants; [done|done|].
  unfold passLayersReplaced.
  set (sheet := passStylesheet env w root).
  set (layerNodes := scanLayerNodes root) in *.
  pose proof (untouchedIn_replaceIfPresent layerNodes (ln_base layerNodes)
                (ss_base sheet ++ ss_defaults sheet) root (w_nextId w) d Hleaf) as H1.
  destruct (replaceIfPresent (ln_base layerNodes) _ root _) as [t1 k1].
  pose proof (untouchedIn_replaceIfPresent layerNodes (ln_components layerNodes)
                (ss_components sheet) t1 k1 d Hleaf) as H2.
  destruct (replaceIfPresent (ln_components layerNodes) _ t1 _) as [t2 k2].
  apply untouchedIn_replaceIfPresent; [done|unfold layerNodes_values; set_solver|].
  apply H2; [unfold layerNodes_values; set_solver|].
  apply H1; [unfold layerNodes_values; set_solver|done].
Qed.

Lemma untouchedIn_walk (layerNodes : LayerNodes) (d n : Node) :
  untouchedIn layerNodes d n → d ∈ walk n.
Proof.
  induction 1 as [n Hd Hr|n c Hc Hr Hk IH]; apply walk_nodes.
  - exists d. split; [done|by left].
  - exists c. split; [done|by right].
Qed.

(** With distinct objects in the tree, the node found under the nodes that
    are kept is the node itself. *)
Lemma keptIn_untouchedIn (layerNodes : LayerNodes) (tree d n : Node) :
  NoDup (nid <$> walk tree) → d ∈ walk tree →
  (∀ x, x ∈ walk n → x ∈ walk tree) →
  keptIn layerNodes d n → untouchedIn layerNodes d n.
Proof.
  intros Hnd Hd Hsub Hk. induction Hk as [n c Hc Hr (Hid & _)|n c Hc Hr Hk IH].
  - assert (c ∈ walk tree) as Hct.
    { apply Hsub, walk_nodes. exists c. split; [done|by left]. }
    assert (c = d) as -> by by apply (NoDup_fmap_eq nid (walk tree)).
    by apply untouchedIn_child.
  - eapply untouchedIn_below; [exact Hc|done|]. apply IH.
    intros x Hx. apply Hsub, walk_nodes. exists c. split; [done|by right].
Qed.

(** The node the variants are appended to is the root given, or a child of
    it of type [root]. *)
Lemma resolveRoot_cases (root : Node) (layerNodes : LayerNodes) :
  let effective := (resolveRoot root layerNodes).1 in
  effective = root ∨ (effective ∈ nodes root ∧ type effective = "root").
Proof.
  unfold resolveRoot, findRootInDocument.
  case_bool_decide; simpl; [|by left].
  destruct (isSome _); simpl; [by left|].
  destruct (last _) as [r|] eqn:Hl; simpl; [|by left].
  right. apply last_Some_elem_of, list_elem_of_In, filter_In in Hl as [Hin Hr].
  split; [by apply list_elem_of_In|].
  by apply holdsLayerNode_spec in Hr as [Ht _].
Qed.

Lemma layerNodes_values_get (l : LayerNodes) (target : Node) :
  Some target ∈ layerNodes_values l →
  ∃ key, key ∈ layerNames ∧ layerNodes_get l key = Some target.
Proof.
  unfold layerNodes_values, layerNames. intros H.
  repeat (apply elem_of_cons in H as [H|H]);
    [exists "base"|exists "components"|exists "utilities"|exists "variants"
    |by apply elem_of_nil in H];
    (split; [set_solver|by symmetry]).
Qed.

(** The directive recorded when a later duplicate exists is a later one. *)
Lemma last_directive_after (key : string) (before after : list Node) (d : Node) :
  isDirective key d →
  (∃ d', d' ∈ after ∧ isDirective key d') →
  ∃ r, r ∈ after ∧ isDirective key r ∧
       last (filter (isDirective key) (before ++ d :: after)) = Some r.
Proof.
  intros Hd (d' & Hin & Hd').
  rewrite filter_app, filter_cons. case_decide; [|done].
  rewrite last_app_cons. change (d :: ?l) with ([d] ++ l). rewrite last_app.
  destruct (last (filter (isDirective key) after)) as [r|] eqn:Hl.
  - apply last_Some_elem_of, list_elem_of_filter in Hl as [Hr Hra]. by exists r.
  - apply last_None in Hl.
    assert (d' ∈ filter (isDirective key) after) as Hf by by apply list_elem_of_filter.
    rewrite Hl in Hf. by apply elem_of_nil in Hf.
Qed.


(** * The statements on the example project *)

(** C1 on [Example.rules]: the rule with key 8 is in the utilities bucket
    and in no other. *)
Lemma buildStylesheet_partition_witness :
  (8, Example.ruleNode 102 None) ∈ Example.rules ∧
  ∀ b, Set_has sameNode (bucket b (buildStylesheet Example.rules Example.context))
         (Example.ruleNode 102 None) = true
       ↔ bucketOfKey Example.context 8 = Some b.
Proof.
  assert (Hin : (8, Example.ruleNode 102 None) ∈ Example.rules)
    by (unfold Example.rules; set_solver).
  split; [exact Hin|].
  apply (proj2 (proj2 (proj2 (proj2 (proj2
           (buildStylesheet_partition Example.rules Example.context)))))); [exact Hin|].
  intros e He Hid. unfold Example.rules in He.
  repeat (apply elem_of_cons in He as [->|He]); try done.
  by apply elem_of_nil in He.
Defined.

(** C2 as claimed fails on [Example.plainRoot]: the stylesheet cache is
    [null] before the pass, the pass finds no Layer Node, and afterwards the
    cache is still [null] and nothing was merged into the rule cache. *)
Lemma stylesheetCache_null_after_bailout :
  stylesheetCache (w_context Example.world) = None ∧
  stylesheetCache
    (w_context (expandTailwindAtRules Example.env Example.world Example.plainRoot).1)
  = None ∧
  ruleCache
    (w_context (expandTailwindAtRules Example.env Example.world Example.plainRoot).1)
  = [].
Proof. repeat split. Qed.

(** C2, as the code has it, on the example: the stylesheet cache is [null]
    before the pass over [Example.root], so the six generated entries are
    merged and the partition is built; the pass over [Example.plainRoot]
    leaves the context as it was. *)
Lemma stylesheetCache_rebuilt_iff_stale_witness :
  allNull (scanLayerNodes Example.plainRoot) = true ∧
  w_context (expandTailwindAtRules Example.env Example.world Example.plainRoot).1
  = w_context Example.world ∧
  allNull (scanLayerNodes Example.root) = false ∧
  stylesheetCache (w_context Example.world) = None ∧
  entryId <$> ruleCache
    (w_context (expandTailwindAtRules Example.env Example.world Example.root).1)
  = [100; 102; 104; 103; 105]%nat ∧
  ∀ e, e ∈ (generateRules Example.env
              (candidates (passCollector Example.env Example.world Example.root))
              (w_context Example.world)).1 →
       entryId e ∈ entryId <$> ruleCache
         (w_context (expandTailwindAtRules Example.env Example.world Example.root).1).
Proof.
  destruct (stylesheetCache_rebuilt_iff_stale Example.env Example.world Example.plainRoot)
    as [Hbail _].
  destruct (stylesheetCache_rebuilt_iff_stale Example.env Example.world Example.root)
    as [_ Hpass].
  split; [reflexivity|]. split; [exact (Hbail eq_refl)|].
  split; [reflexivity|]. split; [reflexivity|]. split; [reflexivity|].
  exact (proj1 (proj2 (proj1 (proj2 (Hpass eq_refl)) (or_introl eq_refl)))).
Defined.

(** C3 on the example: a line that was seen is skipped; the call processes
    each of the other lines once, and its lines fit in the new cache, which
    holds every processed line afterwards. *)
Lemma getClassCandidates_lines_witness :
  trim " p-4" ∈ seen Example.collector ∧
  processLine Example.lineExtractor Example.collector " p-4" = Example.collector ∧
  (size (list_to_set (trimmedLines "m-2
 p-4
m-2 ") : gset string)
   ≤ Pos.to_nat (maxSize (cacheOf Example.lineExtractor Example.collector)))%nat ∧
  ∃ new,
    trace (getClassCandidates "m-2
 p-4
m-2 " Example.lineExtractor Example.collector) = trace Example.collector ++ new ∧
    NoDup (processedLines new) ∧
    ∀ line, line ∈ processedLines new →
      is_Some (LRU_lookup line
                 (cacheOf Example.lineExtractor
                    (getClassCandidates "m-2
 p-4
m-2 " Example.lineExtractor Example.collector))).
Proof.
  assert (Hseen : trim " p-4" ∈ seen Example.collector)
    by (change ("p-4" ∈ ({[ "p-4" ]} : gset string)); by apply elem_of_singleton_2).
  assert (Hcap : (size (list_to_set (trimmedLines "m-2
 p-4
m-2 ") : gset string)
   ≤ Pos.to_nat (maxSize (cacheOf Example.lineExtractor Example.collector)))%nat)
    by (apply Nat.leb_le; by vm_compute).
  pose proof (getClassCandidates_lines "m-2
 p-4
m-2 " Example.lineExtractor Example.collector)
    as (Hskip & _ & _ & _ & new & Ht & Hnd & _ & _ & _ & _ & _ & _ & Hfull).
  split; [exact Hseen|]. split; [exact (Hskip _ _ Hseen)|]. split; [exact Hcap|].
  exists new. split; [exact Ht|]. split; [exact Hnd|]. exact (Hfull Hcap).
Defined.

(** C4 on the example: there is no [components] Layer Node, and the tree of
    the pass is the one with the filtered variants placed. *)
Lemma variants_filtered_by_layer_witness :
  allNull (scanLayerNodes Example.root) = false ∧
  (∀ node, node ∈ passVariantNodes Example.env Example.world Example.root →
     parentLayer node = Some "components" →
     is_Some (ln_components (scanLayerNodes Example.root))) ∧
  (expandTailwindAtRules Example.env Example.world Example.root).2 =
  cleanupAt (nid (resolveRoot Example.root (scanLayerNodes Example.root)).1)
    (placeVariants (scanLayerNodes Example.root)
       (passVariantNodes Example.env Example.world Example.root)
       (resolveRoot Example.root (scanLayerNodes Example.root)).1
       (passLayersReplaced Example.env Example.world Example.root).1
       (passLayersReplaced Example.env Example.world Example.root).2).1.
Proof.
  destruct (variants_filtered_by_layer Example.env Example.world Example.root)
    as (Hfilter & _ & Htree).
  split; [reflexivity|]. split.
  - intros node Hin. by apply Hfilter in Hin as (_ & Hc & _).
  - exact (Htree eq_refl).
Defined.

(** C5 on [Example.document]: the last root holding the [utilities] Layer
    Node is the second one. *)
Lemma findRootInDocument_last_root_witness :
  let layerNodes := scanLayerNodes Example.document in
  ln_variants layerNodes = None ∧
  findRootInDocument Example.document layerNodes
  = (mkNode 20 "root" "" "" None None [Example.atRule 21 "tailwind" "utilities"], []).
Proof.
  split; [reflexivity|].
  destruct (findRootInDocument_last_root Example.document
              (scanLayerNodes Example.document)) as (_ & _ & H & _ & _ & _).
  apply (H eq_refl
           [mkNode 10 "root" "" "" None None [Example.atRule 11 "tailwind" "base"]]
           _
           [mkNode 30 "root" "" "" None None [mkNode 31 "rule" "" "" None None []]]);
    [reflexivity|reflexivity|].
  intros y Hy. apply list_elem_of_singleton in Hy as ->. reflexivity.
Defined.



(** C7 on [Example.plainRoot]. *)
Lemma no_layer_node_no_change_witness :
  (∀ key, key ∈ layerNames →
          layerNodes_get (scanLayerNodes Example.plainRoot) key = None) ∧
  expandTailwindAtRules Example.env Example.world Example.plainRoot
  = (Example.world, Example.plainRoot).
Proof.
  assert (H : ∀ key, key ∈ layerNames →
                layerNodes_get (scanLayerNodes Example.plainRoot) key = None).
  { intros key Hk. unfold layerNames in Hk.
    repeat (apply elem_of_cons in Hk as [->|Hk]); try reflexivity.
    by apply elem_of_nil in Hk. }
  split; [exact H|].
  exact (no_layer_node_no_change Example.env Example.world Example.plainRoot H).
Defined.

(** C8 as claimed fails on [Example.plainRoot]: the pass finds no Layer Node
    and the two changed-content units are still in the context after it. *)
Lemma changedContent_kept_on_bailout :
  changedContent
    (w_context (expandTailwindAtRules Example.env Example.world Example.plainRoot).1)
  ≠ [].
Proof. vm_compute. discriminate. Qed.

(** C8, as the code has it, on the example. *)
Lemma changedContent_reset_unless_bailout_witness :
  allNull (scanLayerNodes Example.root) = false ∧
  changedContent
    (w_context (expandTailwindAtRules Example.env Example.world Example.root).1) = [] ∧
  allNull (scanLayerNodes Example.plainRoot) = true ∧
  changedContent
    (w_context (expandTailwindAtRules Example.env Example.world Example.plainRoot).1)
  = changedContent (w_context Example.world).
Proof.
  split; [reflexivity|]. split.
  - exact (proj1 (changedContent_reset_unless_bailout
                    Example.env Example.world Example.root) eq_refl).
  - split; [reflexivity|].
    exact (proj2 (changedContent_reset_unless_bailout
                    Example.env Example.world Example.plainRoot) eq_refl).
Defined.

(** C9 on the example without content: the stylesheet cache left by the
    pass has an empty utilities bucket and the warning is logged. *)
Lemma utilities_warning_iff_witness :
  is_Some (ln_utilities (scanLayerNodes Example.root)) ∧
  (∃ sheet,
     stylesheetCache
       (w_context (expandTailwindAtRules Example.env Example.idleWorld Example.root).1)
     = Some sheet ∧ ss_utilities sheet = []) ∧
  ∃ new,
    w_trace (expandTailwindAtRules Example.env Example.idleWorld Example.root).1
    = w_trace Example.idleWorld ++ new ∧
    Warn "content-problems" ∈ new.
Proof.
  assert (Hu : is_Some (ln_utilities (scanLayerNodes Example.root))) by by eexists.
  split; [exact Hu|]. split; [by eexists|].
  destruct (utilities_warning_iff Example.env Example.idleWorld Example.root)
    as (new & Ht & _ & Hiff & _).
  exists new. split; [exact Ht|]. apply Hiff.
  split; [exact Hu|]. eexists. split; [reflexivity|]. split; [reflexivity|].
  intros (node & Hin & _). vm_compute in Hin. by apply elem_of_nil in Hin.
Defined.

(** C10 on the example: the line [p-4] is in both units, which select
    different extractors; the candidates are those of the first unit's
    extractor and [x-p-4], which the second one would yield, is absent. *)
Lemma collectCandidates_shared_seen_witness :
  (∃ new,
     trace (collectCandidates Example.env Example.context ∅ []) = [] ++ new ∧
     NoDup (processedLines new) ∧
     ∀ ev, ev ∈ new →
       ownedByFirstUnit Example.env Example.config (changedContent Example.context) ev) ∧
  candidates (collectCandidates Example.env Example.context ∅ [])
  = ["*"; "p-4"; "md:p-4"; "md:btn"; "print"; "x-btn"].
Proof.
  destruct (collectCandidates_shared_seen Example.env Example.context ∅ [])
    as (new & Ht & Hnd & _ & Hown & _).
  split; [|reflexivity]. exists new. by repeat split.
Defined.

(** ** The definitions run on the example project *)

Example trimmedLines_example :
  trimmedLines "  a b 
c	
" = ["a b"; "c"; ""].
Proof. reflexivity. Qed.

Example replaceClassDirective_example :
  replaceClassDirective 0 true "class:a class:b xclass:c
class:d" = " a b xclass:c d".
Proof. reflexivity. Qed.

(** Two arrays with the same key and the same rule node are two entries of
    the rule cache; the same array is one. *)
Example ruleCache_by_reference :
  let a := {| entryId := 1; entrySort := 8; entryRule := Example.ruleNode 102 None |} in
  let b := {| entryId := 2; entrySort := 8; entryRule := Example.ruleNode 102 None |} in
  Set_addAll sameEntry [a] [b; a; b] = [a; b].
Proof. reflexivity. Qed.

(** The first [html] unit is read by the default extractor; the line [p-4]
    of the [svelte] unit was seen and only [btn] goes to its extractor. *)
Example pass_trace_example :
  w_trace (expandTailwindAtRules Example.env Example.world Example.root).1
  = [ ExtractorCall 0 "p-4"; ExtractorCall 0 "md:p-4"; ExtractorCall 0 "md:btn";
      ExtractorCall 0 "print"; ExtractorCall 1 "btn";
      GenerateRules ["*"; "p-4"; "md:p-4"; "md:btn"; "print"; "x-btn"] ].
Proof. vm_compute. reflexivity. Qed.

(** In the tree of [Example.root] the copies (fresh objects, from 1000)
    replace the recorded directives, the first [@tailwind utilities] (object
    2) stays, and the two surviving variants are appended. *)
Example pass_tree_example :
  nid <$> nodes (expandTailwindAtRules Example.env Example.world Example.root).2
  = [1000; 2; 1001; 4; 1002; 1003]%nat.
Proof. vm_compute. reflexivity. Qed.

(** In the document the variants are appended to the second root, which
    holds the [utilities] Layer Node. *)
Example pass_document_example :
  (λ r, nid <$> nodes r)
    <$> nodes (expandTailwindAtRules Example.env Example.world Example.document).2
  = [[1000]; [1001; 1002; 1003]; [31]]%nat.
Proof. vm_compute. reflexivity. Qed.

(** * Further properties of the module *)

(** ** The fallback chains of [getExtractor] and [getTransformer] *)

Lemma prefix_append (pat s : string) :
  String.prefix pat s = true → ∃ post, s = String.append pat post.
Proof.
  revert s. induction pat as [|a pat IH]; intros s H.
  - by exists s.
  - destruct s as [|b s]; [done|]. simpl in H.
    destruct (Ascii.ascii_dec a b) as [->|]; [|done].
    destruct (IH s H) as (post & ->). by exists post.
Qed.

Lemma occursIn_tail (pat : string) (c : ascii) (s : string) :
  occursIn pat s → occursIn pat (String c s).
Proof. intros (pre & post & ->). by exists (String c pre), post. Qed.

Lemma readProperty_DEFAULT {A : Type} (obj : gmap string A) :
  readProperty obj "DEFAULT" = Own <$> obj !! "DEFAULT".
Proof. unfold readProperty. by destruct (obj !! "DEFAULT"). Qed.

(** X1. What [getExtractor] returns for a string: the extractor configured
    for it; else, for a member name of [Object.prototype] ([constructor],
    [toString], ...), the inherited member, which is no extractor; else the
    configured [DEFAULT]; else the default extractor. The built-in table
    never contributes anything but the default extractor. On the extensions
    that are configured or are no such member name the result is an
    extractor, the one [getExtractor] stands for in the pass. *)
Theorem getExtractor_fallback (env : Collaborators) (tailwindConfig : Config)
    (fileExtension : string) :
  let extractors := content_extract tailwindConfig in
  getExtractorMember env tailwindConfig fileExtension =
    match extractors !! fileExtension with
    | Some extractor => Own extractor
    | None =>
        if bool_decide (fileExtension ∈ objectPrototypeKeys)
        then Inherited fileExtension
        else match extractors !! "DEFAULT" with
             | Some extractor => Own extractor
             | None => Own (defaultExtractor env)
             end
    end ∧
  (∀ extractor,
     getExtractorMember env tailwindConfig fileExtension = Own extractor →
     getExtractor env tailwindConfig fileExtension = extractor) ∧
  (is_Some (extractors !! fileExtension) ∨ fileExtension ∉ objectPrototypeKeys →
   getExtractorMember env tailwindConfig fileExtension
   = Own (getExtractor env tailwindConfig fileExtension)).
Proof.
  intros extractors.
  assert (Hchain : getExtractorMember env tailwindConfig fileExtension =
    match extractors !! fileExtension with
    | Some extractor => Own extractor
    | None =>
        if bool_decide (fileExtension ∈ objectPrototypeKeys)
        then Inherited fileExtension
        else match extractors !! "DEFAULT" with
             | Some extractor => Own extractor
             | None => Own (defaultExtractor env)
             end
    end).
  { unfold getExtractorMember. fold extractors.
    rewrite !readProperty_DEFAULT. unfold readProperty at 1.
    destruct (extractors !! fileExtension); [done|].
    case_bool_decide; [done|]. simpl.
    destruct (extractors !! "DEFAULT"); [done|]. simpl.
    unfold readProperty, builtInExtractors.
    destruct (decide (fileExtension = "DEFAULT")) as [->|Hne].
    - by rewrite lookup_singleton_eq.
    - rewrite lookup_singleton_ne by done.
      rewrite bool_decide_eq_false_2 by done. simpl. by rewrite lookup_singleton_eq. }
  assert (Hown : getExtractor env tailwindConfig fileExtension =
    match extractors !! fileExtension with
    | Some extractor => extractor
    | None =>
        match extractors !! "DEFAULT" with
        | Some extractor => extractor
        | None => defaultExtractor env
        end
    end).
  { unfold getExtractor, builtInExtractors. fold extractors.
    destruct (extractors !! fileExtension); [done|].
    destruct (extractors !! "DEFAULT"); [done|]. simpl.
    destruct (decide (fileExtension = "DEFAULT")) as [->|Hne].
    - by rewrite lookup_singleton_eq.
    - rewrite lookup_singleton_ne by done. simpl. by rewrite lookup_singleton_eq. }
  split; [exact Hchain|]. rewrite Hchain, Hown. split.
  - intros extractor. destruct (extractors !! fileExtension); [by intros [= ->]|].
    case_bool_decide; [done|].
    destruct (extractors !! "DEFAULT"); by intros [= ->].
  - intros [[x Hx]|Hno].
    + by rewrite Hx.
    + destruct (extractors !! fileExtension); [done|].
      rewrite bool_decide_eq_false_2 by done.
      by destruct (extractors !! "DEFAULT").
Qed.

Lemma prefix_class (post : string) :
  String.prefix "class:" (String.append "class:" post) = true.
Proof. simpl. by destruct post. Qed.

(** [class:] at the start is replaced by a space. *)
Lemma replaceClassDirective_start (post : string) :
  replaceClassDirective 0 true (String.append "class:" post)
  = String " " (replaceClassDirective 0 false post).
Proof.
  change (replaceClassDirective 0 true (String.append "class:" post))
    with (if true && String.prefix "class:" (String.append "class:" post)
          then String " " (replaceClassDirective 5 false (String.append "lass:" post))
          else if isWhiteSpace "c" && String.prefix "class:" (String.append "lass:" post)
          then String " " (replaceClassDirective 6 false (String.append "lass:" post))
          else String "c" (replaceClassDirective 0 false (String.append "lass:" post))).
  by rewrite prefix_class.
Qed.

(** No match of the regular expression begins before the first occurrence
    of [class:] that follows a white space character. *)
Lemma no_early_match (pre rest : string) (w : ascii) :
  isWhiteSpace w = true → ¬ occursIn "class:" pre →
  String.prefix "class:" (String.append pre (String w rest)) = false.
Proof.
  intros Hw Hno. apply not_true_is_false. intros Hp.
  destruct (prefix_append _ _ Hp) as (post & Heq).
  do 6 (destruct pre as [|? pre]; simpl in Heq;
        [injection Heq as Hc _; subst; by vm_compute in Hw
        |injection Heq as -> Heq]).
  apply Hno. by exists EmptyString, pre.
Qed.

(** The first match after the start: the text before it is kept, the white
    space character and [class:] become one space, and the scan goes on
    behind the match. *)
Lemma replaceClassDirective_first_match (atStart : bool) (pre post : string) (w : ascii) :
  isWhiteSpace w = true → ¬ occursIn "class:" pre →
  replaceClassDirective 0 atStart
    (String.append pre (String w (String.append "class:" post)))
  = String.append pre (String " " (replaceClassDirective 0 false post)).
Proof.
  intros Hw. revert atStart. induction pre as [|c pre IH]; intros atStart Hno.
  - change (replaceClassDirective 0 atStart
              (String.append "" (String w (String.append "class:" post))))
      with (if atStart && String.prefix "class:" (String w (String.append "class:" post))
            then String " " (replaceClassDirective 5 false (String.append "class:" post))
            else if isWhiteSpace w && String.prefix "class:" (String.append "class:" post)
            then String " " (replaceClassDirective 6 false (String.append "class:" post))
            else String w (replaceClassDirective 0 false (String.append "class:" post))).
    assert (H0 : String.prefix "class:" (String w (String.append "class:" post)) = false)
      by exact (no_early_match "" _ w Hw Hno).
    rewrite H0, andb_false_r, Hw, prefix_class. reflexivity.
  - change (replaceClassDirective 0 atStart
              (String.append (String c pre) (String w (String.append "class:" post))))
      with (let s := String.append pre (String w (String.append "class:" post)) in
            if atStart && String.prefix "class:" (String c s)
            then String " " (replaceClassDirective 5 false s)
            else if isWhiteSpace c && String.prefix "class:" s
            then String " " (replaceClassDirective 6 false s)
            else String c (replaceClassDirective 0 false s)).
    cbv zeta.
    assert (Hs : String.prefix "class:"
                   (String c (String.append pre (String w (String.append "class:" post))))
                 = false)
      by exact (no_early_match (String c pre) (String.append "class:" post) w Hw Hno).
    rewrite Hs.
    assert (Hno' : ¬ occursIn "class:" pre) by (intros Ho; by apply Hno, occursIn_tail).
    rewrite (no_early_match pre _ w Hw Hno'), !andb_false_r.
    change (String.append (String c pre) ?x) with (String c (String.append pre x)).
    f_equal. by apply IH.
Qed.

(** X2. What [getTransformer] returns for a string: the transformer
    configured for it; else, for a member name of [Object.prototype], the
    inherited member, which is no transformer of the configuration; else
    the configured [DEFAULT], which so takes the place of the built-in
    [svelte] transformer; else the built-in transformer. On the extensions
    that are configured or are no such member name the result is the
    transformer [getTransformer] stands for in the pass. With nothing
    configured, the content of an extension other than [svelte] is left as
    it is, and in [svelte] content [class:] at the start, and the first
    [class:] that follows a white space character, are replaced, with that
    character, by one space, the text before being kept. *)
Theorem getTransformer_fallback (tailwindConfig : Config) (fileExtension : string) :
  let transformers := content_transform tailwindConfig in
  getTransformerMember tailwindConfig fileExtension =
    match transformers !! fileExtension with
    | Some transformer => Own transformer
    | None =>
        if bool_decide (fileExtension ∈ objectPrototypeKeys)
        then Inherited fileExtension
        else match transformers !! "DEFAULT" with
             | Some transformer => Own transformer
             | None =>
                 Own (if bool_decide (fileExtension = "svelte")
                      then replaceClassDirective 0 true
                      else fun content => content)
             end
    end ∧
  (∀ transformer,
     getTransformerMember tailwindConfig fileExtension = Own transformer →
     getTransformer tailwindConfig fileExtension = transformer) ∧
  (is_Some (transformers !! fileExtension) ∨ fileExtension ∉ objectPrototypeKeys →
   getTransformerMember tailwindConfig fileExtension
   = Own (getTransformer tailwindConfig fileExtension)) ∧
  (transformers !! fileExtension = None → transformers !! "DEFAULT" = None →
   (fileExtension ≠ "svelte" → fileExtension ∉ objectPrototypeKeys →
    ∀ content, getTransformer tailwindConfig fileExtension content = content) ∧
   (fileExtension = "svelte" →
    (∀ post,
       getTransformer tailwindConfig fileExtension (String.append "class:" post)
       = String " " (replaceClassDirective 0 false post)) ∧
    (∀ pre w post,
       isWhiteSpace w = true → ¬ occursIn "class:" pre →
       getTransformer tailwindConfig fileExtension
         (String.append pre (String w (String.append "class:" post)))
       = String.append pre (String " " (replaceClassDirective 0 false post))))).
Proof.
  intros transformers.
  assert (Hbuiltin : default (fun content : string => content)
                       (orElse (builtInTransformers !! fileExtension)
                          (builtInTransformers !! "DEFAULT"))
                     = if bool_decide (fileExtension = "svelte")
                       then replaceClassDirective 0 true
                       else fun content => content).
  { unfold builtInTransformers. case_bool_decide as Hs; [subst|].
    - rewrite lookup_insert_ne by done. by rewrite lookup_singleton_eq.
    - destruct (decide (fileExtension = "DEFAULT")) as [->|Hd].
      + by rewrite lookup_insert_eq.
      + rewrite lookup_insert_ne by done. rewrite lookup_singleton_ne by done.
        simpl. by rewrite lookup_insert_eq. }
  assert (Hown : getTransformer tailwindConfig fileExtension =
    match transformers !! fileExtension with
    | Some transformer => transformer
    | None =>
        match transformers !! "DEFAULT" with
        | Some transformer => transformer
        | None => if bool_decide (fileExtension = "svelte")
                  then replaceClassDirective 0 true
                  else fun content => content
        end
    end).
  { unfold getTransformer. fold transformers.
    destruct (transformers !! fileExtension); [done|].
    destruct (transformers !! "DEFAULT"); [done|]. exact Hbuiltin. }
  assert (Hchain : getTransformerMember tailwindConfig fileExtension =
    match transformers !! fileExtension with
    | Some transformer => Own transformer
    | None =>
        if bool_decide (fileExtension ∈ objectPrototypeKeys)
        then Inherited fileExtension
        else match transformers !! "DEFAULT" with
             | Some transformer => Own transformer
             | None =>
                 Own (if bool_decide (fileExtension = "svelte")
                      then replaceClassDirective 0 true
                      else fun content => content)
             end
    end).
  { unfold getTransformerMember. fold transformers.
    rewrite !readProperty_DEFAULT. unfold readProperty at 1.
    destruct (transformers !! fileExtension); [done|].
    destruct (bool_decide (fileExtension ∈ objectPrototypeKeys)) eqn:Hp; [done|]. simpl.
    destruct (transformers !! "DEFAULT"); [done|]. simpl.
    unfold readProperty. rewrite Hp, <- Hbuiltin.
    destruct (builtInTransformers !! fileExtension); [done|]. simpl.
    by destruct (builtInTransformers !! "DEFAULT"). }
  split; [exact Hchain|]. rewrite Hchain, Hown. split; [|split].
  - intros transformer. destruct (transformers !! fileExtension); [by intros [= ->]|].
    destruct (bool_decide (fileExtension ∈ objectPrototypeKeys)); [done|].
    destruct (transformers !! "DEFAULT"); by intros [= ->].
  - intros [[x Hx]|Hno].
    + by rewrite Hx.
    + destruct (transformers !! fileExtension); [done|].
      rewrite bool_decide_eq_false_2 by done.
      by destruct (transformers !! "DEFAULT").
  - intros -> ->. split.
    + intros Hne _ content. by rewrite bool_decide_eq_false_2.
    + intros ->. rewrite bool_decide_eq_true_2 by done. split.
      * intros post. apply replaceClassDirective_start.
      * intros pre w post Hw Hno. by apply replaceClassDirective_first_match.
Qed.

(** ** The [svelte] transformer *)

(** X3. Content in which [class:] does not occur is returned as it is by
    the [svelte] transformer (and by the scan resumed after a match). *)
Theorem replaceClassDirective_without_directive (atStart : bool) (content : string) :
  ¬ occursIn "class:" content → replaceClassDirective 0 atStart content = content.
Proof.
  revert atStart. induction content as [|c s IH]; intros atStart Hno; [done|].
  change (replaceClassDirective 0 atStart (String c s))
    with (if atStart && String.prefix "class:" (String c s)
          then String " " (replaceClassDirective 5 false s)
          else if isWhiteSpace c && String.prefix "class:" s
          then String " " (replaceClassDirective 6 false s)
          else String c (replaceClassDirective 0 false s)).
  assert (Hs : String.prefix "class:" (String c s) = false).
  { apply not_true_is_false. intros Hp. apply Hno.
    destruct (prefix_append _ _ Hp) as (post & Heq). exists EmptyString, post.
    exact Heq. }
  assert (Hs' : String.prefix "class:" s = false).
  { apply not_true_is_false. intros Hp. apply Hno, occursIn_tail.
    destruct (prefix_append _ _ Hp) as (post & Heq). exists EmptyString, post.
    exact Heq. }
  rewrite Hs, Hs', !andb_false_r. f_equal. apply IH.
  intros Ho. by apply Hno, occursIn_tail.
Qed.

(** X4. The [svelte] transformer never makes the content longer, wherever
    the scan stands. *)
Theorem svelte_transformer_shrinks (skip : nat) (atStart : bool) (content : string) :
  (String.length (replaceClassDirective skip atStart content) ≤ String.length content)%nat.
Proof.
  revert skip atStart. induction content as [|c s IH]; intros skip atStart; [done|].
  destruct skip as [|k].
  - change (replaceClassDirective 0 atStart (String c s))
      with (if atStart && String.prefix "class:" (String c s)
            then String " " (replaceClassDirective 5 false s)
            else if isWhiteSpace c && String.prefix "class:" s
            then String " " (replaceClassDirective 6 false s)
            else String c (replaceClassDirective 0 false s)).
    destruct (atStart && _); [|destruct (isWhiteSpace c && _)];
      cbn [String.length]; apply le_n_S, IH.
  - change (replaceClassDirective (S k) atStart (String c s))
      with (replaceClassDirective k false s).
    cbn [String.length]. by apply Nat.le_le_succ_r, IH.
Qed.


Lemma prefix_of_append (pat post : string) :
  String.prefix pat (String.append pat post) = true.
Proof.
  induction pat as [|a pat IH]; simpl; [by destruct post|].
  by destruct (Ascii.ascii_dec a a).
Qed.

Lemma occursIn_containsb (pat s : string) : occursIn pat s → containsb pat s = true.
Proof.
  intros (pre & post & ->). induction pre as [|c pre IH].
  - change (String.append EmptyString ?x) with x.
    pose proof (prefix_of_append pat post) as Hp.
    destruct (String.append pat post); cbn [containsb]; by rewrite Hp.
  - change (String.append (String c pre) ?x) with (String c (String.append pre x)).
    cbn [containsb]. rewrite IH. apply orb_true_r.
Qed.

(** ** What [getClassCandidates] keeps *)

Lemma Set_add_prefix {A : Type} (same : A → A → bool) (s : list A) (x : A) :
  s `prefix_of` Set_add same s x.
Proof. unfold Set_add. destruct (Set_has same s x); [done|]. by apply prefix_app_r. Qed.

Lemma Set_addAll_prefix {A : Type} (same : A → A → bool) (xs s : list A) :
  s `prefix_of` Set_addAll same s xs.
Proof.
  revert s. induction xs as [|x xs IH]; intros s; [done|].
  unfold Set_addAll in *. simpl. etrans; [apply Set_add_prefix|apply IH].
Qed.

Lemma candidates_NoDup (s xs : list string) :
  NoDup s → NoDup (Set_addAll sameString s xs).
Proof.
  intros Hs. pose proof (Set_addAll_NoDup sameString id sameString_key xs s) as H.
  rewrite !list_fmap_id in H. by apply H.
Qed.

(** One turn of the loop: candidates are only added, without repetition,
    and only the cache of the extractor at hand is written. *)
Lemma processLine_frame (extractor : Extractor) (st : Collector) (line : string) :
  let st' := processLine extractor st line in
  candidates st `prefix_of` candidates st' ∧
  (NoDup (candidates st) → NoDup (candidates st')) ∧
  seen st ⊆ seen st' ∧
  (∀ e, e ≠ eid extractor → extractorCache st' !! e = extractorCache st !! e) ∧
  (is_Some (extractorCache st !! eid extractor) →
   is_Some (extractorCache st' !! eid extractor)).
Proof.
  unfold processLine. case_bool_decide; [done|].
  destruct (LRU_has _ _).
  - destruct (LRU_get _ _) as [cached lru]. simpl.
    split; [apply Set_addAll_prefix|]. split; [apply candidates_NoDup|].
    split; [apply union_subseteq_r|]. split.
    + intros e He. by rewrite lookup_insert_ne.
    + intros _. rewrite lookup_insert_eq. by eexists.
  - simpl.
    split; [apply Set_addAll_prefix|]. split; [apply candidates_NoDup|].
    split; [apply union_subseteq_r|]. split.
    + intros e He. by rewrite lookup_insert_ne.
    + intros _. rewrite lookup_insert_eq. by eexists.
Qed.

Lemma processLines_frame (extractor : Extractor) (lines : list string) (st : Collector) :
  let st' := fold_left (processLine extractor) lines st in
  candidates st `prefix_of` candidates st' ∧
  (NoDup (candidates st) → NoDup (candidates st')) ∧
  seen st ⊆ seen st' ∧
  (∀ e, e ≠ eid extractor → extractorCache st' !! e = extractorCache st !! e) ∧
  (is_Some (extractorCache st !! eid extractor) →
   is_Some (extractorCache st' !! eid extractor)).
Proof.
  revert st. induction lines as [|line lines IH]; intros st; [done|].
  cbn [fold_left].
  destruct (processLine_frame extractor st line) as (H1 & H2 & H3 & H4 & H5).
  destruct (IH (processLine extractor st line)) as (I1 & I2 & I3 & I4 & I5).
  split; [by etrans|]. split; [auto|]. split; [by etrans|]. split.
  - intros e He. by rewrite I4, H4.
  - auto.
Qed.

Lemma getClassCandidates_frame (content : string) (extractor : Extractor)
    (st : Collector) :
  let st' := getClassCandidates content extractor st in
  candidates st `prefix_of` candidates st' ∧
  (NoDup (candidates st) → NoDup (candidates st')) ∧
  seen st ⊆ seen st' ∧
  is_Some (extractorCache st' !! eid extractor) ∧
  (∀ e, e ≠ eid extractor → extractorCache st' !! e = extractorCache st !! e).
Proof.
  unfold getClassCandidates.
  destruct (extractorCache st !! eid extractor) as [lru|] eqn:Hc.
  - destruct (processLines_frame extractor (split_newline content) st)
      as (H1 & H2 & H3 & H4 & H5).
    repeat (split; [done|]). split; [|done]. apply H5. by rewrite Hc.
  - match goal with |- context [fold_left _ _ ?s] => set (st1 := s) end.
    destruct (processLines_frame extractor (split_newline content) st1)
      as (H1 & H2 & H3 & H4 & H5).
    repeat (split; [done|]). split.
    + apply H5. subst st1. simpl. rewrite lookup_insert_eq. by eexists.
    + intros e He. rewrite H4 by done. subst st1. simpl. by rewrite lookup_insert_ne.
Qed.

(** X5. A call of [getClassCandidates] only adds: the candidates it was
    given stay, in place, and the set stays free of repetitions; every line
    seen stays seen; afterwards the extractor has a cache, and the caches of
    all other extractors are the ones they were. *)
Theorem getClassCandidates_only_adds (content : string) (extractor : Extractor)
    (st : Collector) :
  let st' := getClassCandidates content extractor st in
  candidates st `prefix_of` candidates st' ∧
  (NoDup (candidates st) → NoDup (candidates st')) ∧
  seen st ⊆ seen st' ∧
  is_Some (extractorCache st' !! eid extractor) ∧
  (∀ e, e ≠ eid extractor → extractorCache st' !! e = extractorCache st !! e).
Proof.
  destruct (getClassCandidates_frame content extractor st) as (H1 & H2 & _ & H4 & H5).
  destruct (getClassCandidates_trace content extractor st) as (_ & _ & _ & _ & _ & Hs).
  simpl. repeat (split; [done|]). split; [|by split].
  rewrite Hs. apply union_subseteq_r.
Qed.

Lemma collectUnits_frame (env : Collaborators) (cfg : Config)
    (units : list ContentUnit) (st : Collector) :
  let st' := fold_left (collectUnit env cfg) units st in
  candidates st `prefix_of` candidates st' ∧
  (NoDup (candidates st) → NoDup (candidates st')) ∧
  (∀ e, is_Some (extractorCache st !! e) → is_Some (extractorCache st' !! e)).
Proof.
  revert st. induction units as [|u units IH]; intros st; [done|].
  cbn [fold_left].
  destruct (getClassCandidates_frame
              (getTransformer cfg (extension u) (content u))
              (getExtractor env cfg (extension u)) st) as (H1 & H2 & _ & H4 & H5).
  fold (collectUnit env cfg st u) in H1, H2, H4, H5.
  destruct (IH (collectUnit env cfg st u)) as (I1 & I2 & I3).
  split; [by etrans|]. split; [auto|].
  intros e He. apply I3.
  destruct (decide (e = eid (getExtractor env cfg (extension u)))) as [->|Hne]; [done|].
  by rewrite H5.
Qed.

(** X6. The candidates of a pass begin with the wildcard [*] and hold no
    candidate twice; no extractor loses its cache; and with no changed
    content the result is the wildcard alone, nothing is run and the caches
    are the ones they were. *)
Theorem collectCandidates_wildcard (env : Collaborators) (context : Context)
    (cache : gmap nat LRU) (tr : list Event) :
  let st := collectCandidates env context cache tr in
  ["*"] `prefix_of` candidates st ∧
  NoDup (candidates st) ∧
  (∀ e, is_Some (cache !! e) → is_Some (extractorCache st !! e)) ∧
  (changedContent context = [] →
   candidates st = ["*"] ∧ extractorCache st = cache ∧ trace st = tr).
Proof.
  unfold collectCandidates.
  match goal with |- context [fold_left _ _ ?s] => set (st0 := s) end.
  destruct (collectUnits_frame env (tailwindConfig context) (changedContent context) st0)
    as (H1 & H2 & H3).
  split; [exact H1|]. split; [apply H2, NoDup_singleton|]. split; [exact H3|].
  by intros ->.
Qed.

(** ** The noise token *)

Lemma LRU_lookup_get_inv (key line : string) (c : LRU) (S : list string) :
  LRU_lookup key (LRU_get line c).2 = Some S → LRU_lookup key c = Some S.
Proof.
  destruct (decide (key = line)) as [->|Hne].
  - unfold LRU_get. destruct (LRU_lookup line c) as [v|] eqn:Hv;
      [|simpl; by rewrite Hv].
    unfold LRU_lookup at 1. simpl. unfold sameString at 1.
    by rewrite bool_decide_eq_true_2.
  - by rewrite LRU_lookup_get_other.
Qed.

Lemma LRU_lookup_set_inv (key line : string) (v S : list string) (c : LRU) :
  LRU_lookup key (LRU_set line v c) = Some S →
  (key = line ∧ S = v) ∨ LRU_lookup key c = Some S.
Proof.
  destruct (decide (key = line)) as [->|Hne].
  - rewrite LRU_lookup_set_same. intros [= <-]. by left.
  - intros H. right. by eapply LRU_lookup_set_other.
Qed.

Lemma processLine_clean (extractor : Extractor) (st : Collector) (line : string) :
  cleanCache (extractorCache st) → "!*" ∉ candidates st →
  cleanCache (extractorCache (processLine extractor st line)) ∧
  "!*" ∉ candidates (processLine extractor st line).
Proof.
  intros Hclean Hcand. unfold processLine. case_bool_decide; [done|].
  destruct (LRU_has _ _) eqn:Hhas.
  - pose proof (LRU_get_value (trim line) (cacheOf extractor st)) as Hv.
    destruct (LRU_get (trim line) (cacheOf extractor st)) as [cached lru] eqn:Hg.
    simpl in *. split.
    + intros e l S. rewrite lruOf_insert. case_decide; [subst e|apply Hclean].
      replace lru with (LRU_get (trim line) (cacheOf extractor st)).2 by by rewrite Hg.
      intros HS%LRU_lookup_get_inv. by eapply Hclean.
    + rewrite candidates_union. intros [?|Hin]; [done|].
      destruct cached as [cached|]; [|by apply elem_of_nil in Hin].
      symmetry in Hv. by eapply (Hclean (eid extractor)) in Hin.
  - simpl. split.
    + intros e l S. rewrite lruOf_insert. case_decide; [subst e|apply Hclean].
      intros [[-> ->]|HS]%LRU_lookup_set_inv; [|by eapply Hclean].
      intros Hin. by apply lineMatches_spec in Hin as [_ ?].
    + rewrite candidates_union. intros [?|Hin]; [done|].
      by apply lineMatches_spec in Hin as [_ ?].
Qed.

Lemma collectUnit_clean (env : Collaborators) (cfg : Config) (st : Collector)
    (u : ContentUnit) :
  cleanCache (extractorCache st) → "!*" ∉ candidates st →
  cleanCache (extractorCache (collectUnit env cfg st u)) ∧
  "!*" ∉ candidates (collectUnit env cfg st u).
Proof.
  intros Hclean Hcand. unfold collectUnit, getClassCandidates.
  set (extractor := getExtractor env cfg (extension u)).
  match goal with |- context [fold_left _ _ ?s] => set (st1 := s) end.
  assert (H1 : cleanCache (extractorCache st1) ∧ "!*" ∉ candidates st1).
  { subst st1. destruct (extractorCache st !! eid extractor) eqn:He; [done|].
    simpl. split; [|done]. intros e l S. rewrite lruOf_insert.
    case_decide; [done|apply Hclean]. }
  clearbody st1. clear Hclean Hcand.
  generalize (split_newline (getTransformer cfg (extension u) (content u))).
  intros lines. revert st1 H1.
  induction lines as [|line lines IH]; intros st1 [H1 H2]; [done|].
  cbn [fold_left]. apply IH. by apply processLine_clean.
Qed.

(** X7. The noise token [!*] never reaches the candidates of a pass, and
    never enters a cache: when no cached set holds it before the collection
    (as in an empty cache), none holds it afterwards, so the same is true
    of every later pass. *)
Theorem noise_token_never_collected (env : Collaborators) (context : Context)
    (cache : gmap nat LRU) (tr : list Event) :
  cleanCache cache →
  let st := collectCandidates env context cache tr in
  ("!*" ∉ candidates st) ∧ cleanCache (extractorCache st).
Proof.
  intros Hclean. unfold collectCandidates.
  match goal with |- context [fold_left _ _ ?s] => set (st0 := s) end.
  assert (H0 : cleanCache (extractorCache st0) ∧ "!*" ∉ candidates st0).
  { split; [done|]. subst st0. simpl. by intros [=]%list_elem_of_singleton. }
  clearbody st0. simpl.
  generalize dependent st0.
  induction (changedContent context) as [|u units IH]; intros st0 [H1 H2]; [done|].
  cbn [fold_left]. apply IH. by apply collectUnit_clean.
Qed.

(** ** The assembled buckets *)

Lemma Set_addAll_distinct {A K : Type} (same : A → A → bool) (key : A → K)
    (same_key : ∀ x y, same x y = true ↔ key x = key y) (xs s : list A) :
  NoDup (key <$> (s ++ xs)) → Set_addAll same s xs = s ++ xs.
Proof.
  revert s. induction xs as [|x xs IH]; intros s Hnd; [by rewrite app_nil_r|].
  unfold Set_addAll in *. simpl. unfold Set_add.
  destruct (Set_has same s x) eqn:Hx.
  - apply (Set_has_spec same key same_key) in Hx.
    rewrite fmap_app, fmap_cons in Hnd. apply NoDup_app in Hnd as (_ & Hd & _).
    destruct (Hd _ Hx). by left.
  - rewrite IH; rewrite <- app_assoc; done.
Qed.

Lemma routedTo_sublist (context : Context) (b : Bucket) (l : list (Z * Node)) :
  routedTo context b l `sublist_of` l.*2.
Proof. unfold routedTo. apply fmap_sublist, sublist_filter. Qed.

(** X8. When the rules of the list are pairwise distinct nodes, each bucket
    is exactly the rules the precedence sends to it, in ascending order of
    their sort keys, and no rule is in two buckets. *)
Theorem buildStylesheet_distinct_rules (rules : list (Z * Node)) (context : Context) :
  NoDup (nid <$> rules.*2) →
  let sortedRules := Array_sort compareRules rules in
  let sheet := buildStylesheet rules context in
  StronglySorted keyLe sortedRules ∧
  (∀ b, bucket b sheet
        = (filter (λ e, bucketOfKey context e.1 = Some b) sortedRules).*2) ∧
  (∀ b1 b2 r1 r2,
     r1 ∈ bucket b1 sheet → r2 ∈ bucket b2 sheet → nid r1 = nid r2 → b1 = b2).
Proof.
  intros Hnd sortedRules sheet.
  assert (Hsorted : NoDup (nid <$> sortedRules.*2)).
  { unfold sortedRules. by rewrite Array_sort_perm. }
  assert (Hbuckets : ∀ b, bucket b sheet = routedTo context b sortedRules).
  { intros b. unfold sheet, buildStylesheet. rewrite routeRules_bucket.
    replace (bucket b emptyStylesheet) with (@nil Node) by by destruct b.
    apply (Set_addAll_distinct sameNode nid sameNode_key).
    eapply sublist_NoDup; [exact Hsorted|]. apply fmap_sublist, routedTo_sublist. }
  split; [apply Array_sort_sorted|]. split; [exact Hbuckets|].
  intros b1 b2 r1 r2. rewrite !Hbuckets. unfold routedTo.
  intros (e1 & -> & [Hb1 He1]%list_elem_of_filter)%list_elem_of_fmap.
  intros (e2 & -> & [Hb2 He2]%list_elem_of_filter)%list_elem_of_fmap Hid.
  assert (e1 = e2) as ->.
  { apply (NoDup_fmap_eq (λ e : Z * Node, nid e.2) sortedRules); try done.
    by rewrite <- list_fmap_compose in Hsorted. }
  congruence.
Qed.

(** Two sorted lists with the same entries are the same list when the keys
    are pairwise distinct. *)
Lemma sorted_unique (l1 l2 : list (Z * Node)) :
  NoDup l1.*1 → l1 ≡ₚ l2 →
  StronglySorted keyLe l1 → StronglySorted keyLe l2 → l1 = l2.
Proof.
  revert l2. induction l1 as [|x l1 IH]; intros l2 Hnd Hp H1 H2.
  - by apply Permutation_nil_l in Hp.
  - destruct l2 as [|y l2]; [by apply Permutation_nil_r in Hp|].
    assert (x = y) as ->.
    { assert (Hx : x ∈ y :: l2) by (rewrite <- Hp; by left).
      assert (Hy : y ∈ x :: l1) by (rewrite Hp; by left).
      apply elem_of_cons in Hx as [?|Hx]; [done|].
      apply elem_of_cons in Hy as [?|Hy]; [done|].
      apply StronglySorted_inv in H1 as [_ H1]. apply StronglySorted_inv in H2 as [_ H2].
      rewrite Forall_forall in H1, H2.
      specialize (H1 y Hy). specialize (H2 x Hx). unfold keyLe in *.
      apply (NoDup_fmap_eq fst (x :: l1)); [done|by left|by right|lia]. }
    f_equal. apply IH.
    + rewrite fmap_cons in Hnd. by apply NoDup_cons in Hnd as [_ ?].
    + by apply Permutation_cons_inv in Hp.
    + by apply StronglySorted_inv in H1 as [? _].
    + by apply StronglySorted_inv in H2 as [? _].
Qed.

(** X9. With pairwise distinct sort keys the stylesheet does not depend on
    the order in which the rules are listed: two lists with the same entries
    give the same buckets, in the same order. *)
Theorem buildStylesheet_order_independent (rules1 rules2 : list (Z * Node))
    (context : Context) :
  NoDup rules1.*1 → rules1 ≡ₚ rules2 →
  buildStylesheet rules1 context = buildStylesheet rules2 context.
Proof.
  intros Hnd Hp. unfold buildStylesheet. f_equal.
  apply sorted_unique; try apply Array_sort_sorted.
  - by rewrite Array_sort_perm.
  - by rewrite !Array_sort_perm.
Qed.

(** ** Root resolution and the bail-out *)

Lemma passCollector_trace (env : Collaborators) (w : World) (root : Node) :
  ∃ events, trace (passCollector env w root)
            = w_trace w ++ (resolveRoot root (scanLayerNodes root)).2 ++ events.
Proof.
  unfold passCollector, collectCandidates.
  match goal with |- context [fold_left _ _ ?s] => set (st0 := s) end.
  destruct (collectUnits_events env (tailwindConfig (w_context w))
              (changedContent (w_context w)) st0) as (events & Ht & _).
  exists events. rewrite Ht. subst st0. simpl. by rewrite app_assoc.
Qed.

(** X10. [findRootInDocument] looks for the [components] and the
    [utilities] Layer Node only. With neither of them, and no [variants]
    Layer Node, it warns and returns the document whatever the roots hold:
    a pass over a document whose only directive is [@tailwind base] logs
    [postcss-document-root-missing]. *)
Theorem findRootInDocument_ignores_base (env : Collaborators) (w : World)
    (doc : Node) (layerNodes : LayerNodes) :
  ln_variants layerNodes = None →
  ln_components layerNodes = None →
  ln_utilities layerNodes = None →
  findRootInDocument doc layerNodes = (doc, [Warn "postcss-document-root-missing"]) ∧
  (layerNodes = scanLayerNodes doc → is_Some (ln_base layerNodes) →
   type doc = "document" →
   Warn "postcss-document-root-missing" ∈ w_trace (expandTailwindAtRules env w doc).1).
Proof.
  intros Hv Hc Hu.
  assert (Hfind : findRootInDocument doc layerNodes
                  = (doc, [Warn "postcss-document-root-missing"])).
  { unfold findRootInDocument. rewrite Hv. simpl.
    rewrite filter_none; [done|].
    intros y _. unfold holdsLayerNode. rewrite Hc, Hu. by destruct (negb _). }
  split; [exact Hfind|]. intros -> [d Hb] Ht.
  rewrite expandTailwindAtRules_unfold.
  - simpl. destruct (passCollector_trace env w doc) as (events & ->).
    unfold resolveRoot. rewrite bool_decide_eq_true_2 by done. rewrite Hfind. simpl.
    rewrite !elem_of_app. left. right. by left.
  - apply not_true_is_false. intros Hnull%allNull_spec.
    destruct Hnull as (Hnb & _). by rewrite Hb in Hnb.
Qed.

Lemma last_None_filter (key : string) (rules : list Node) :
  last (filter (isDirective key) rules) = None ↔
  ∀ r, r ∈ rules → ¬ isDirective key r.
Proof.
  rewrite last_None. split.
  - intros Hnil r Hr Hd.
    assert (r ∈ filter (isDirective key) rules) as Hin by by apply list_elem_of_filter.
    rewrite Hnil in Hin. by apply elem_of_nil in Hin.
  - intros Hno. destruct (filter (isDirective key) rules) as [|r l] eqn:Hf; [done|].
    assert (r ∈ filter (isDirective key) rules) as Hin by (rewrite Hf; by left).
    apply list_elem_of_filter in Hin as [Hd Hr]. by destruct (Hno r Hr).
Qed.

Lemma allNull_no_directive (root : Node) :
  allNull (scanLayerNodes root) = true ↔
  ∀ r, r ∈ walkAtRules root → ¬ isLayerDirective r.
Proof.
  rewrite allNull_spec.
  pose proof (scanLayerNodes_get root "base") as Hb.
  pose proof (scanLayerNodes_get root "components") as Hc.
  pose proof (scanLayerNodes_get root "utilities") as Hu.
  pose proof (scanLayerNodes_get root "variants") as Hv.
  unfold layerNodes_get in *. simpl in *.
  rewrite Hb, Hc, Hu, Hv by (unfold layerNames; set_solver).
  rewrite !last_None_filter. unfold isLayerDirective, isDirective, layerNames. split.
  - intros (H1 & H2 & H3 & H4) r Hr [Hn Hp].
    repeat (apply elem_of_cons in Hp as [Hp|Hp]);
      [by apply (H1 r)|by apply (H2 r)|by apply (H3 r)|by apply (H4 r)
      |by apply elem_of_nil in Hp].
  - intros H. repeat split; intros r Hr [Hn Hp]; apply (H r Hr);
      (split; [done|]); rewrite Hp; set_solver.
Qed.

(** X11. The pass bails out exactly when the tree holds no at-rule
    [@tailwind] with one of the four layer names: other [@tailwind]
    parameters do not count, a directive at any depth does. Without one the
    tree and the state come back as they were; with one, the rule generator
    is called and the changed content is consumed. *)
Theorem pass_runs_iff_directive (env : Collaborators) (w : World) (root : Node) :
  ((∀ r, r ∈ walkAtRules root → ¬ isLayerDirective r) →
   expandTailwindAtRules env w root = (w, root)) ∧
  ((∃ r, r ∈ walkAtRules root ∧ isLayerDirective r) →
   GenerateRules (candidates (passCollector env w root))
     ∈ w_trace (expandTailwindAtRules env w root).1 ∧
   changedContent (w_context (expandTailwindAtRules env w root).1) = []).
Proof.
  split.
  - intros Hno%allNull_no_directive. unfold expandTailwindAtRules. by rewrite Hno.
  - intros (r & Hr & Hd).
    assert (allNull (scanLayerNodes root) = false) as Hnull.
    { apply not_true_is_false. intros Hn.
      by apply (proj1 (allNull_no_directive root) Hn r). }
    rewrite expandTailwindAtRules_unfold by done. simpl. split; [|done].
    rewrite elem_of_app. right. by left.
Qed.

(** ** The variants *)

Lemma List_filter_sublist {A : Type} (f : A → bool) (l : list A) :
  List.filter f l `sublist_of` l.
Proof.
  induction l as [|x l IH]; simpl; [done|].
  destruct (f x); by constructor.
Qed.

(** X12. The post-filtering does not alter the order of the variants: what
    is left is a sublist of the variants bucket. With both a [components]
    and a [utilities] Layer Node nothing is filtered out; with neither, what
    is left are the rules tagged with neither layer. *)
Theorem filterVariants_keeps_order (layerNodes : LayerNodes) (screenNodes : list Node) :
  filterVariants layerNodes screenNodes `sublist_of` screenNodes ∧
  (is_Some (ln_components layerNodes) → is_Some (ln_utilities layerNodes) →
   filterVariants layerNodes screenNodes = screenNodes) ∧
  (ln_components layerNodes = None → ln_utilities layerNodes = None →
   ∀ node, node ∈ filterVariants layerNodes screenNodes ↔
           node ∈ screenNodes ∧ parentLayer node ≠ Some "components"
           ∧ parentLayer node ≠ Some "utilities").
Proof.
  unfold filterVariants. split; [apply List_filter_sublist|]. split.
  - intros [c Hc] [u Hu]. apply List_filter_all. intros node _.
    unfold keepVariant. rewrite Hc, Hu. simpl. by repeat case_bool_decide.
  - intros Hc Hu node.
    rewrite list_elem_of_In, filter_In, <- list_elem_of_In, keepVariant_spec.
    rewrite Hc, Hu. unfold is_Some. naive_solver.
Qed.

(** ** The caches of the context *)

(** X13. A pass never shrinks the rule cache (the entries it had stay, in
    place), never sets the stylesheet cache back to [null], and leaves it
    defined whenever a Layer Node was found; the configuration, the variant
    threshold and the layer flags of the context are never changed. *)
Theorem pass_caches_grow (env : Collaborators) (w : World) (root : Node) :
  let context := w_context w in
  let context' := w_context (expandTailwindAtRules env w root).1 in
  ruleCache context `prefix_of` ruleCache context' ∧
  (is_Some (stylesheetCache context) → is_Some (stylesheetCache context')) ∧
  (allNull (scanLayerNodes root) = false → is_Some (stylesheetCache context')) ∧
  tailwindConfig context' = tailwindConfig context ∧
  minimumScreen context' = minimumScreen context ∧
  layerOrder context' = layerOrder context.
Proof.
  simpl. destruct (allNull (scanLayerNodes root)) eqn:Hnull.
  { unfold expandTailwindAtRules. rewrite Hnull. simpl. by repeat split. }
  rewrite expandTailwindAtRules_unfold by done. simpl.
  unfold passContext. set (cands := candidates _).
  pose proof (assemble_stylesheetCache env (w_context w) cands) as Hsome.
  rewrite assemble_cases in *. simpl in *.
  destruct (stylesheetIsStale _ _); simpl.
  - split; [apply Set_addAll_prefix|]. by repeat split.
  - by repeat split.
Qed.

(** ** The tree after a pass *)

Lemma Node_induction (P : Node → Prop) :
  (∀ n, Forall P (nodes n) → P n) → ∀ n, P n.
Proof.
  intros H. fix IH 1. intros n. apply H.
  destruct n as [i t nm p s pl cs]. simpl.
  revert cs. fix IHcs 1. intros [|c cs]; constructor; [apply IH|apply IHcs].
Qed.

Lemma idsBelow_nodes (n : Node) : idsBelow n = idsOf (nodes n).
Proof.
  unfold idsBelow, idsOf. destruct n as [i t nm p s pl cs]. simpl.
  induction cs as [|c cs IH]; [done|].
  simpl. rewrite fmap_app. by rewrite IH.
Qed.

Lemma elem_of_idsOf (l : list Node) (i : nat) :
  i ∈ idsOf l ↔ ∃ c, c ∈ l ∧ (i = nid c ∨ i ∈ idsBelow c).
Proof.
  unfold idsOf. rewrite list_elem_of_In, in_flat_map. split.
  - intros (c & Hc & Hi). exists c. rewrite list_elem_of_In. split; [done|].
    apply list_elem_of_In, elem_of_cons in Hi. naive_solver.
  - intros (c & Hc & Hi). exists c. rewrite <- list_elem_of_In. split; [done|].
    apply list_elem_of_In, elem_of_cons. naive_solver.
Qed.

Lemma removeNode_ids (target : nat) (n : Node) (i : nat) :
  i ∈ idsBelow (removeNode target n) → i ≠ target ∧ i ∈ idsBelow n.
Proof.
  revert i. induction n as [n IH] using Node_induction. intros i.
  rewrite !idsBelow_nodes, !elem_of_idsOf. rewrite Forall_forall in IH.
  destruct n as [j t nm p s pl cs]. simpl in *.
  intros (c' & Hc' & Hi). apply elem_of_flat_map in Hc' as (c & Hc & Hin).
  case_bool_decide as Hne; [by apply elem_of_nil in Hin|].
  apply list_elem_of_singleton in Hin as ->.
  destruct Hi as [->|Hi].
  - rewrite (proj1 (removeNode_head target c)). split; [done|]. exists c. auto.
  - destruct (IH c Hc i Hi) as [H1 H2]. split; [done|]. exists c. auto.
Qed.

Lemma insertBefore_ids (target : nat) (add : list Node) (n : Node) (i : nat) :
  i ∈ idsBelow (insertBefore target add n) → i ∈ idsBelow n ∨ i ∈ idsOf add.
Proof.
  revert i. induction n as [n IH] using Node_induction. intros i.
  rewrite !idsBelow_nodes, !elem_of_idsOf. rewrite Forall_forall in IH.
  destruct n as [j t nm p s pl cs]. simpl in *.
  intros (c' & Hc' & Hi). apply elem_of_flat_map in Hc' as (c & Hc & Hin).
  case_bool_decide as Hne.
  - apply elem_of_app in Hin as [Hin| ->%list_elem_of_singleton].
    + right. by exists c'.
    + left. by exists c.
  - apply list_elem_of_singleton in Hin as ->.
    destruct Hi as [->|Hi].
    + left. exists c. rewrite (proj1 (insertBefore_head target add c)). auto.
    + destruct (IH c Hc i Hi) as [H1|H1]; [|right; by apply elem_of_idsOf].
      left. exists c. auto.
Qed.

Lemma appendTo_ids (target : nat) (add : list Node) (n : Node) (i : nat) :
  i ∈ idsBelow (appendTo target add n) → i ∈ idsBelow n ∨ i ∈ idsOf add.
Proof.
  revert i. induction n as [n IH] using Node_induction. intros i.
  rewrite !idsBelow_nodes, !elem_of_idsOf. rewrite Forall_forall in IH.
  destruct n as [j t nm p s pl cs]. simpl in *.
  case_bool_decide as Hj; simpl.
  - intros (c' & [Hc'|Hc']%elem_of_app & Hi); [left|right]; by exists c'.
  - intros (c' & (c & -> & Hc)%list_elem_of_fmap & Hi).
    destruct Hi as [->|Hi].
    + left. exists c. rewrite (proj1 (appendTo_head target add c)). auto.
    + destruct (IH c Hc i Hi) as [H1|H1]; [|right; by apply elem_of_idsOf].
      left. exists c. auto.
Qed.

Lemma removeLayerAtRules_ids (n : Node) (i : nat) :
  i ∈ idsBelow (removeLayerAtRules n) → i ∈ idsBelow n.
Proof.
  revert i. induction n as [n IH] using Node_induction. intros i.
  rewrite !idsBelow_nodes, !elem_of_idsOf. rewrite Forall_forall in IH.
  destruct n as [j t nm p s pl cs]. simpl in *.
  intros (c' & Hc' & Hi). apply elem_of_flat_map in Hc' as (c & Hc & Hin).
  destruct (isLayerMarker c); [by apply elem_of_nil in Hin|].
  apply list_elem_of_singleton in Hin as ->. exists c. split; [done|].
  destruct Hi as [->|Hi].
  - left. apply (removeLayerAtRules_head c).
  - right. by apply IH.
Qed.

Lemma cleanupAt_ids (target : nat) (n : Node) (i : nat) :
  i ∈ idsBelow (cleanupAt target n) → i ∈ idsBelow n.
Proof.
  revert i. induction n as [n IH] using Node_induction. intros i.
  destruct (decide (nid n = target)) as [Ht|Ht].
  - replace (cleanupAt target n) with (removeLayerAtRules n)
      by (destruct n; simpl in *; by rewrite bool_decide_eq_true_2).
    apply removeLayerAtRules_ids.
  - rewrite !idsBelow_nodes, !elem_of_idsOf. rewrite Forall_forall in IH.
    destruct n as [j t nm p s pl cs]. simpl in *.
    rewrite bool_decide_eq_false_2 by done. simpl.
    intros (c' & (c & -> & Hc)%list_elem_of_fmap & Hi). exists c. split; [done|].
    destruct Hi as [->|Hi].
    + left. apply (cleanupAt_head target c).
    + right. by apply IH.
Qed.

Lemma cloneNode_unfold (src : option nat) (n : Node) (next : nat) :
  cloneNode src n next =
  (mkNode next (type n) (name n) (params n)
     (match src with Some _ => src | None => source n end) (parentLayer n)
     (cloneNodes (nodes n) src (S next)).1,
   (cloneNodes (nodes n) src (S next)).2).
Proof.
  destruct n as [j t nm p s pl cs]. simpl.
  match goal with
  | |- context [?f cs (S next)] =>
      assert (Hfix : ∀ l k, f l k = cloneNodes l src k)
  end.
  { induction l as [|c l IH]; intros k; simpl; [done|].
    destruct (cloneNode src c k) as [c' k1]. by rewrite IH. }
  rewrite Hfix. by destruct (cloneNodes cs src (S next)).
Qed.

Lemma cloneNodes_ids_from (src : option nat) (l : list Node) :
  Forall (λ n, ∀ next,
            nid (cloneNode src n next).1 = next ∧
            (next < (cloneNode src n next).2)%nat ∧
            ∀ i, i ∈ idsBelow (cloneNode src n next).1 →
                 (next < i < (cloneNode src n next).2)%nat) l →
  ∀ next,
    (next ≤ (cloneNodes l src next).2)%nat ∧
    ∀ i, i ∈ idsOf (cloneNodes l src next).1 →
         (next ≤ i < (cloneNodes l src next).2)%nat.
Proof.
  induction 1 as [|c l Hc Hl IH]; intros next; simpl.
  - split; [done|]. by intros i ?%elem_of_nil.
  - destruct (Hc next) as (H1 & H2 & H3).
    destruct (cloneNode src c next) as [c' k1]. simpl in *.
    destruct (IH k1) as (I1 & I2).
    destruct (cloneNodes l src k1) as [r' k2]. simpl in *.
    split; [lia|]. intros i [->|[Hi|Hi]%elem_of_app]%elem_of_cons.
    + lia.
    + apply H3 in Hi. lia.
    + apply I2 in Hi. lia.
Qed.

Lemma cloneNode_ids (src : option nat) (n : Node) (next : nat) :
  nid (cloneNode src n next).1 = next ∧
  (next < (cloneNode src n next).2)%nat ∧
  ∀ i, i ∈ idsBelow (cloneNode src n next).1 →
       (next < i < (cloneNode src n next).2)%nat.
Proof.
  revert next. induction n as [n IH] using Node_induction. intros next.
  rewrite cloneNode_unfold. simpl.
  destruct (cloneNodes_ids_from src (nodes n) IH (S next)) as (H1 & H2).
  split; [done|]. split; [lia|].
  intros i Hi. rewrite idsBelow_nodes in Hi. simpl in Hi. apply H2 in Hi. lia.
Qed.

(** The copies are fresh objects: their identities start at [next]. *)
Lemma cloneNodes_ids (src : option nat) (l : list Node) (next : nat) :
  (next ≤ (cloneNodes l src next).2)%nat ∧
  ∀ i, i ∈ idsOf (cloneNodes l src next).1 →
       (next ≤ i < (cloneNodes l src next).2)%nat.
Proof.
  apply cloneNodes_ids_from. apply Forall_forall. intros n _ k. apply cloneNode_ids.
Qed.

Lemma replaceDirective_ids (d : Node) (bucket : list Node) (tree : Node) (next i : nat) :
  (next ≤ (replaceDirective d bucket tree next).2)%nat ∧
  (i ∈ idsBelow (replaceDirective d bucket tree next).1 →
   i ≠ nid d ∧ (i ∈ idsBelow tree ∨ (next ≤ i)%nat)).
Proof.
  unfold replaceDirective.
  destruct (cloneNodes_ids (source d) bucket next) as (H1 & H2).
  destruct (cloneNodes bucket (source d) next) as [clones k]. simpl in *.
  split; [done|]. intros [Hne Hi]%removeNode_ids. split; [done|].
  apply insertBefore_ids in Hi as [Hi|Hi]; [by left|].
  right. apply H2 in Hi. lia.
Qed.

Lemma replaceIfPresent_ids (directive : option Node) (bucket : list Node)
    (tree : Node) (next i : nat) :
  (next ≤ (replaceIfPresent directive bucket tree next).2)%nat ∧
  (i ∈ idsBelow (replaceIfPresent directive bucket tree next).1 →
   (∀ d, directive = Some d → i ≠ nid d) ∧ (i ∈ idsBelow tree ∨ (next ≤ i)%nat)).
Proof.
  destruct directive as [d|]; simpl.
  - destruct (replaceDirective_ids d bucket tree next i) as (H1 & H2).
    split; [done|]. intros Hi. destruct (H2 Hi) as [H3 H4].
    split; [by intros ? [= <-]|done].
  - split; [done|]. intros Hi. split; [done|by left].
Qed.

Lemma placeVariants_ids (layerNodes : LayerNodes) (variantNodes : list Node)
    (effective tree : Node) (next i : nat) :
  i ∈ idsBelow (placeVariants layerNodes variantNodes effective tree next).1 →
  (∀ d, ln_variants layerNodes = Some d → i ≠ nid d) ∧
  (i ∈ idsBelow tree ∨ (next ≤ i)%nat).
Proof.
  unfold placeVariants. destruct (ln_variants layerNodes) as [d|].
  - intros Hi. destruct (replaceDirective_ids d variantNodes tree next i) as (_ & H2).
    destruct (H2 Hi) as [H3 H4]. split; [by intros ? [= <-]|done].
  - case_bool_decide; [|by intros Hi; split; [|left]].
    destruct (cloneNodes_ids (source effective) variantNodes next) as (H1 & H2).
    destruct (cloneNodes variantNodes (source effective) next) as [clones k]. simpl in *.
    intros Hi. split; [done|].
    apply appendTo_ids in Hi as [Hi|Hi]; [by left|]. right. apply H2 in Hi. lia.
Qed.

(** X14. After a pass no recorded Layer Node is left in the tree: every
    directive the scan recorded is removed and not put back (the copies
    inserted are objects created after it). *)
Theorem recorded_directives_removed (env : Collaborators) (w : World) (root d : Node) :
  Some d ∈ layerNodes_values (scanLayerNodes root) →
  (nid d < w_nextId w)%nat →
  ∀ c, c ∈ walk (expandTailwindAtRules env w root).2 → nid c ≠ nid d.
Proof.
  intros Hd Hfresh c Hc Heq.
  assert (Hnull : allNull (scanLayerNodes root) = false).
  { apply not_true_is_false. intros (H1 & H2 & H3 & H4)%allNull_spec.
    unfold layerNodes_values in Hd. rewrite H1, H2, H3, H4 in Hd.
    repeat (apply elem_of_cons in Hd as [[=]|Hd]). by apply elem_of_nil in Hd. }
  assert (Hi : nid d ∈ idsBelow (expandTailwindAtRules env w root).2).
  { rewrite <- Heq. by apply list_elem_of_fmap_2. }
  clear c Hc Heq.
  rewrite expandTailwindAtRules_unfold in Hi by done. simpl in Hi.
  apply cleanupAt_ids in Hi. unfold passLayersReplaced in Hi.
  set (layerNodes := scanLayerNodes root) in *.
  set (sheet := passStylesheet env w root) in *.
  destruct (replaceIfPresent_ids (ln_base layerNodes)
              (ss_base sheet ++ ss_defaults sheet) root (w_nextId w) (nid d)) as (N1 & B1).
  destruct (replaceIfPresent (ln_base layerNodes) _ root _) as [t1 k1]. simpl in *.
  destruct (replaceIfPresent_ids (ln_components layerNodes)
              (ss_components sheet) t1 k1 (nid d)) as (N2 & B2).
  destruct (replaceIfPresent (ln_components layerNodes) _ t1 _) as [t2 k2]. simpl in *.
  destruct (replaceIfPresent_ids (ln_utilities layerNodes)
              (ss_utilities sheet) t2 k2 (nid d)) as (N3 & B3).
  destruct (replaceIfPresent (ln_utilities layerNodes) _ t2 _) as [t3 k3]. simpl in *.
  apply placeVariants_ids in Hi as [Hv [Hi|Hi]]; [|lia].
  destruct (B3 Hi) as [Hu [Hi3|Hi3]]; [|lia].
  destruct (B2 Hi3) as [Hc [Hi2|Hi2]]; [|lia].
  destruct (B1 Hi2) as [Hb _].
  unfold layerNodes_values in Hd.
  repeat (apply elem_of_cons in Hd as [Hd|Hd]);
    [by apply (Hb d)|by apply (Hc d)|by apply (Hu d)|by apply (Hv d)
    |by apply elem_of_nil in Hd].
Qed.

Lemma isLayerMarker_head (a b : Node) : sameHead a b → isLayerMarker b = isLayerMarker a.
Proof. intros (_ & Ht & Hn & Hp & _). unfold isLayerMarker. by rewrite Ht, Hn, Hp. Qed.

Lemma removeLayerAtRules_clean (n c : Node) :
  c ∈ walk (removeLayerAtRules n) → isLayerMarker c = false.
Proof.
  revert c. induction n as [n IH] using Node_induction. intros c.
  rewrite walk_nodes. rewrite Forall_forall in IH.
  destruct n as [j t nm p s pl cs]. simpl in *.
  intros (c' & Hc' & Hi). apply elem_of_flat_map in Hc' as (child & Hchild & Hin).
  destruct (isLayerMarker child) eqn:Hm; [by apply elem_of_nil in Hin|].
  apply list_elem_of_singleton in Hin as ->.
  destruct Hi as [->|Hi]; [|by eapply IH].
  by rewrite (isLayerMarker_head child) by apply removeLayerAtRules_head.
Qed.

Lemma replaceIfPresent_head (directive : option Node) (bucket : list Node)
    (tree : Node) (next : nat) :
  nid (replaceIfPresent directive bucket tree next).1 = nid tree.
Proof.
  destruct directive as [d|]; [|done]. simpl. unfold replaceDirective.
  destruct (cloneNodes _ _ _) as [clones k]. simpl.
  rewrite (proj1 (removeNode_head _ _)). apply (insertBefore_head _ _ tree).
Qed.

Lemma placeVariants_head (layerNodes : LayerNodes) (variantNodes : list Node)
    (effective tree : Node) (next : nat) :
  nid (placeVariants layerNodes variantNodes effective tree next).1 = nid tree.
Proof.
  unfold placeVariants. destruct (ln_variants layerNodes) as [d|].
  - unfold replaceDirective. destruct (cloneNodes _ _ _) as [clones k]. simpl.
    rewrite (proj1 (removeNode_head _ _)). apply (insertBefore_head _ _ tree).
  - case_bool_decide; [|done]. destruct (cloneNodes _ _ _) as [clones k]. simpl.
    apply (appendTo_head _ _ tree).
Qed.

(** X15. After a pass over a root that is not a document and holds a
    directive, no at-rule [@layer] with one of the four layer names is left
    anywhere in the tree, the rules copied into it included. *)
Theorem stale_layer_markers_removed (env : Collaborators) (w : World) (root : Node) :
  type root ≠ "document" →
  allNull (scanLayerNodes root) = false →
  ∀ c, c ∈ walk (expandTailwindAtRules env w root).2 →
       ¬ (type c = "atrule" ∧ name c = "layer" ∧ params c ∈ layerNames).
Proof.
  intros Htype Hnull c Hc (Ht & Hn & Hp).
  rewrite expandTailwindAtRules_unfold in Hc by done. simpl in Hc.
  assert (Heff : (resolveRoot root (scanLayerNodes root)).1 = root).
  { unfold resolveRoot. by rewrite bool_decide_eq_false_2. }
  rewrite Heff in Hc.
  match type of Hc with
  | _ ∈ walk (cleanupAt _ ?t) => set (tree := t) in *
  end.
  assert (Hid : nid tree = nid root).
  { subst tree. rewrite placeVariants_head. unfold passLayersReplaced.
    pose proof (replaceIfPresent_head (ln_base (scanLayerNodes root))
                  (ss_base (passStylesheet env w root)
                   ++ ss_defaults (passStylesheet env w root)) root (w_nextId w)) as H1.
    destruct (replaceIfPresent (ln_base _) _ root _) as [t1 k1].
    pose proof (replaceIfPresent_head (ln_components (scanLayerNodes root))
                  (ss_components (passStylesheet env w root)) t1 k1) as H2.
    destruct (replaceIfPresent (ln_components _) _ t1 _) as [t2 k2].
    rewrite replaceIfPresent_head. simpl in *. congruence. }
  replace (cleanupAt (nid root) tree) with (removeLayerAtRules tree) in Hc
    by (destruct tree; simpl in *; by rewrite bool_decide_eq_true_2).
  apply removeLayerAtRules_clean in Hc. unfold isLayerMarker in Hc.
  by rewrite !bool_decide_eq_true_2 in Hc.
Qed.

(** ** A second call on the same content *)

Lemma processLine_hit_cache (extractor : Extractor) (st : Collector) (raw : string)
    (v : list string) :
  trim raw ∉ seen st →
  LRU_lookup (trim raw) (cacheOf extractor st) = Some v →
  cacheOf extractor (processLine extractor st raw)
  = (LRU_get (trim raw) (cacheOf extractor st)).2.
Proof.
  intros Hs Hv. unfold processLine. rewrite bool_decide_eq_false_2 by done.
  assert (LRU_has (trim raw) (cacheOf extractor st) = true) as ->
    by (apply LRU_has_lookup; by rewrite Hv).
  destruct (LRU_get (trim raw) (cacheOf extractor st)) as [o lru].
  by rewrite cacheOf_insert.
Qed.

(** A call in which every line is in the cache. *)
Lemma served_call (extractor : Extractor) (served : string → option (list string))
    (lines : list string) (st : Collector) :
  (∀ k, LRU_lookup k (cacheOf extractor st) = served k) →
  (∀ raw, raw ∈ lines → trim raw ∉ seen st → is_Some (served (trim raw))) →
  let st' := fold_left (processLine extractor) lines st in
  (candidates st', seen st')
  = fold_left (replayStep served) lines (candidates st, seen st) ∧
  ∃ new, trace st' = trace st ++ new ∧
         ∀ ev, ev ∈ new → ∃ line, ev = CacheHit (eid extractor) line.
Proof.
  revert st. induction lines as [|raw rest IH]; intros st Hserved Hall.
  { simpl. split; [done|]. exists []. rewrite app_nil_r. split; [done|].
    by intros ev ?%elem_of_nil. }
  cbn [fold_left].
  destruct (decide (trim raw ∈ seen st)) as [Hs|Hs].
  - rewrite processLine_seen by done.
    destruct (IH st Hserved) as (I1 & I2);
      [intros r Hr; apply Hall; by right|].
    split; [|done]. by rewrite replayStep_seen.
  - destruct (Hall raw) as [v Hv]; [by left|done|].
    assert (Hc : LRU_lookup (trim raw) (cacheOf extractor st) = Some v)
      by by rewrite Hserved.
    destruct (processLine_hit extractor st raw v Hs Hc) as (H1 & H2 & H3 & _).
    pose proof (processLine_hit_cache extractor st raw v Hs Hc) as H4.
    set (s1 := processLine extractor st raw) in *.
    destruct (IH s1) as (I1 & new & I2 & I3).
    { intros k. rewrite H4. destruct (decide (k = trim raw)) as [->|Hne].
      - rewrite (LRU_lookup_get_same _ _ _ Hc). by rewrite <- Hserved.
      - rewrite LRU_lookup_get_other by done. apply Hserved. }
    { intros r Hr Hr'. apply Hall; [by right|]. rewrite H2 in Hr'. set_solver. }
    split.
    + rewrite I1. f_equal. rewrite (replayStep_unseen _ _ _ v) by done.
      by rewrite H1, H2.
    + exists (CacheHit (eid extractor) (trim raw) :: new).
      rewrite I2, H3, <- app_assoc. split; [done|].
      intros ev [->|Hev]%elem_of_cons; [by eexists|by apply I3].
Qed.

(** X16. When the distinct lines of a content fit in the cache of the
    extractor, collecting the same content once more, from the same
    candidates and the same seen lines, runs no extractor: every line is
    found in the cache, and the candidates and the seen lines come out as in
    the first call. *)
Theorem second_call_served_by_cache (content : string) (extractor : Extractor)
    (st : Collector) :
  (size (list_to_set (trimmedLines content) : gset string)
   ≤ Pos.to_nat (maxSize (cacheOf extractor st)))%nat →
  let st1 := getClassCandidates content extractor st in
  let st2 := getClassCandidates content extractor
               {| candidates := candidates st; seen := seen st;
                  extractorCache := extractorCache st1; trace := trace st1 |} in
  candidates st2 = candidates st1 ∧
  seen st2 = seen st1 ∧
  ∃ new, trace st2 = trace st1 ++ new ∧
         ∀ ev, ev ∈ new → ∃ line, ev = CacheHit (eid extractor) line.
Proof.
  intros Hcap st1 st2.
  set (lines := split_newline content).
  set (all := list_to_set (trimmedLines content) : gset string) in *.
  assert (Hall : ∀ raw, raw ∈ lines → trim raw ∈ all).
  { intros raw Hr. apply elem_of_list_to_set. by apply list_elem_of_fmap_2. }
  (* the first call *)
  assert (H1 : ∃ st0, st1 = fold_left (processLine extractor) lines st0 ∧
                 candidates st0 = candidates st ∧ seen st0 = seen st ∧
                 cacheOf extractor st0 = cacheOf extractor st).
  { unfold st1, getClassCandidates.
    destruct (extractorCache st !! eid extractor) eqn:Hc; [by exists st|].
    eexists. split; [done|]. repeat split.
    rewrite cacheOf_insert. unfold cacheOf. by rewrite Hc. }
  destruct H1 as (st0 & Hst1 & Hc0 & Hs0 & Hcache0).
  destruct (first_call_fills_cache extractor all lines st0 []
              (entries (cacheOf extractor st0))) as (F1 & _ & F3);
    [done|constructor|by intros k ?%elem_of_nil|done|by rewrite Hcache0|].
  rewrite <- Hst1, Hc0, Hs0 in F1. rewrite <- Hst1, Hs0 in F3.
  (* the second call *)
  assert (Hsome : is_Some (extractorCache st1 !! eid extractor)).
  { by destruct (getClassCandidates_frame content extractor st) as (_ & _ & _ & ? & _). }
  destruct Hsome as [lru Hlru].
  assert (Hst2 : st2 = fold_left (processLine extractor) lines
                         {| candidates := candidates st; seen := seen st;
                            extractorCache := extractorCache st1; trace := trace st1 |}).
  { unfold st2, getClassCandidates. simpl. by rewrite Hlru. }
  destruct (served_call extractor (λ k, LRU_lookup k (cacheOf extractor st1)) lines
              {| candidates := candidates st; seen := seen st;
                 extractorCache := extractorCache st1; trace := trace st1 |})
    as (S1 & new & S2 & S3); [done|exact F3|].
  rewrite <- Hst2 in S1, S2. simpl in S1, S2.
  rewrite <- F1 in S1. injection S1 as Hc Hs.
  split; [done|]. split; [done|]. by exists new.
Qed.

(** ** Empty content *)

Lemma split_newline_nonempty (content : string) : split_newline content ≠ [].
Proof.
  destruct content as [|c s]; simpl; [done|].
  case_bool_decide; [done|]. by destruct (split_newline s).
Qed.

Lemma NoDup_subset_length {A : Type} (l k : list A) :
  NoDup l → (∀ x, x ∈ l → x ∈ k) → (length l ≤ length k)%nat.
Proof. intros Hnd Hsub. by apply submseteq_length, NoDup_submseteq. Qed.

(** X17. No content is without lines: the empty content is one empty line.
    A call that starts with no seen line therefore always processes at least
    one line (cache lookup or extractor run), and never more lines than the
    content has; for the empty content it is the empty line. *)
Theorem getClassCandidates_at_least_one_line (content : string) (extractor : Extractor)
    (st : Collector) :
  seen st = ∅ →
  ∃ new,
    trace (getClassCandidates content extractor st) = trace st ++ new ∧
    (1 ≤ length (processedLines new) ≤ length (split_newline content))%nat ∧
    (content = "" → processedLines new = [""]).
Proof.
  intros Hseen.
  destruct (getClassCandidates_trace content extractor st)
    as (new & Ht & Hnd & Hin & _ & _).
  exists new. split; [done|].
  assert (Hin' : ∀ l, l ∈ processedLines new ↔ l ∈ trimmedLines content).
  { intros l. rewrite Hin, Hseen. set_solver. }
  split; [split|].
  - pose proof (split_newline_nonempty content) as Hne.
    destruct (split_newline content) as [|raw rest] eqn:Hs; [done|].
    assert (trim raw ∈ processedLines new) as Hp.
    { apply Hin'. unfold trimmedLines. rewrite Hs. by left. }
    destruct (processedLines new); [by apply elem_of_nil in Hp|simpl; lia].
  - rewrite <- (length_fmap trim (split_newline content)).
    apply NoDup_subset_length; [done|]. intros l. by rewrite Hin'.
  - intros ->. destruct (processedLines new) as [|a [|b rest]].
    + assert ("" ∈ @nil string) as H by (apply Hin'; by left).
      by apply elem_of_nil in H.
    + assert (a ∈ trimmedLines "") as Ha by (apply Hin'; by left).
      by apply list_elem_of_singleton in Ha as ->.
    + assert (a ∈ trimmedLines "") as Ha by (apply Hin'; by left).
      assert (b ∈ trimmedLines "") as Hb by (apply Hin'; right; by left).
      apply list_elem_of_singleton in Ha as ->.
      apply list_elem_of_singleton in Hb as ->.
      apply NoDup_cons in Hnd as [Hnd _]. destruct Hnd. by left.
Qed.

(** ** The objects of the tree *)

Lemma placeVariants_next (layerNodes : LayerNodes) (variantNodes : list Node)
    (effective tree : Node) (next : nat) :
  (next ≤ (placeVariants layerNodes variantNodes effective tree next).2)%nat.
Proof.
  unfold placeVariants. destruct (ln_variants layerNodes) as [d|].
  - apply (replaceDirective_ids d variantNodes tree next 0).
  - case_bool_decide; [|done].
    pose proof (proj1 (cloneNodes_ids (source effective) variantNodes next)).
    by destruct (cloneNodes _ _ _).
Qed.

(** X18. A pass keeps the root object it was given and takes no node from
    elsewhere: every node below the root after the pass is a node that was
    below it before, or an object created during the pass; the allocator
    never goes back. *)
Theorem pass_tree_objects (env : Collaborators) (w : World) (root : Node) :
  let w' := (expandTailwindAtRules env w root).1 in
  let tree := (expandTailwindAtRules env w root).2 in
  sameHead root tree ∧
  (∀ i, i ∈ idsBelow tree → i ∈ idsBelow root ∨ (w_nextId w ≤ i)%nat) ∧
  (w_nextId w ≤ w_nextId w')%nat.
Proof.
  simpl. destruct (allNull (scanLayerNodes root)) eqn:Hnull.
  { unfold expandTailwindAtRules. rewrite Hnull. simpl.
    split; [apply sameHead_refl|]. split; [|done]. intros i Hi. by left. }
  rewrite expandTailwindAtRules_unfold by done. simpl.
  unfold passLayersReplaced.
  set (layerNodes := scanLayerNodes root).
  set (sheet := passStylesheet env w root).
  set (effective := (resolveRoot root layerNodes).1).
  pose proof (λ i, replaceIfPresent_ids (ln_base layerNodes)
                (ss_base sheet ++ ss_defaults sheet) root (w_nextId w) i) as B1.
  assert (S1 : sameHead root (replaceIfPresent (ln_base layerNodes)
                 (ss_base sheet ++ ss_defaults sheet) root (w_nextId w)).1).
  { destruct (ln_base layerNodes) as [d|]; [|apply sameHead_refl]. simpl.
    unfold replaceDirective. destruct (cloneNodes _ _ _). simpl.
    eapply sameHead_trans; [apply insertBefore_head|apply removeNode_head]. }
  destruct (replaceIfPresent (ln_base layerNodes) _ root _) as [t1 k1]. simpl in *.
  pose proof (λ i, replaceIfPresent_ids (ln_components layerNodes)
                (ss_components sheet) t1 k1 i) as B2.
  assert (S2 : sameHead t1 (replaceIfPresent (ln_components layerNodes)
                 (ss_components sheet) t1 k1).1).
  { destruct (ln_components layerNodes) as [d|]; [|apply sameHead_refl]. simpl.
    unfold replaceDirective. destruct (cloneNodes _ _ _). simpl.
    eapply sameHead_trans; [apply insertBefore_head|apply removeNode_head]. }
  destruct (replaceIfPresent (ln_components layerNodes) _ t1 _) as [t2 k2]. simpl in *.
  pose proof (λ i, replaceIfPresent_ids (ln_utilities layerNodes)
                (ss_utilities sheet) t2 k2 i) as B3.
  assert (S3 : sameHead t2 (replaceIfPresent (ln_utilities layerNodes)
                 (ss_utilities sheet) t2 k2).1).
  { destruct (ln_utilities layerNodes) as [d|]; [|apply sameHead_refl]. simpl.
    unfold replaceDirective. destruct (cloneNodes _ _ _). simpl.
    eapply sameHead_trans; [apply insertBefore_head|apply removeNode_head]. }
  destruct (replaceIfPresent (ln_utilities layerNodes) _ t2 _) as [t3 k3]. simpl in *.
  set (variantNodes := passVariantNodes env w root).
  assert (S4 : sameHead t3 (placeVariants layerNodes variantNodes effective t3 k3).1).
  { unfold placeVariants. destruct (ln_variants layerNodes) as [d|].
    - unfold replaceDirective. destruct (cloneNodes _ _ _). simpl.
      eapply sameHead_trans; [apply insertBefore_head|apply removeNode_head].
    - case_bool_decide; [|apply sameHead_refl].
      destruct (cloneNodes _ _ _). simpl. apply appendTo_head. }
  split; [|split].
  - eapply sameHead_trans; [|apply cleanupAt_head].
    eapply sameHead_trans; [|exact S4].
    eapply sameHead_trans; [|exact S3].
    eapply sameHead_trans; [exact S1|exact S2].
  - intros i Hi%cleanupAt_ids%placeVariants_ids.
    destruct Hi as [_ [Hi|Hi]]; [|right; pose proof (proj1 (B1 i));
      pose proof (proj1 (B2 i)); pose proof (proj1 (B3 i)); lia].
    destruct (proj2 (B3 i) Hi) as [_ [Hi3|Hi3]];
      [|right; pose proof (proj1 (B1 i)); pose proof (proj1 (B2 i)); lia].
    destruct (proj2 (B2 i) Hi3) as [_ [Hi2|Hi2]];
      [|right; pose proof (proj1 (B1 i)); lia].
    destruct (proj2 (B1 i) Hi2) as [_ [Hi1|Hi1]]; [by left|by right].
  - pose proof (placeVariants_next layerNodes variantNodes effective t3 k3).
    pose proof (proj1 (B1 0%nat)). pose proof (proj1 (B2 0%nat)).
    pose proof (proj1 (B3 0%nat)). lia.
Qed.

(** ** The further properties on the example project *)

Lemma getExtractor_fallback_witness :
  getExtractorMember Example.env Example.config "constructor" = Inherited "constructor" ∧
  ("html" ∉ objectPrototypeKeys) ∧
  getExtractorMember Example.env Example.config "html" = Own Example.lineExtractor.
Proof.
  assert (Hno : "html" ∉ objectPrototypeKeys)
    by (apply (bool_decide_unpack _); by vm_compute).
  destruct (getExtractor_fallback Example.env Example.config "constructor") as (H1 & _).
  destruct (getExtractor_fallback Example.env Example.config "html") as (_ & _ & H3).
  split; [exact H1|]. split; [exact Hno|]. exact (H3 (or_intror Hno)).
Defined.

Lemma getTransformer_fallback_witness :
  getTransformerMember Example.config "toString" = Inherited "toString" ∧
  getTransformerMember Cases.config "svelte" = Own (String.append "T:") ∧
  content_transform Example.config !! "svelte" = None ∧
  isWhiteSpace " " = true ∧
  ¬ occursIn "class:" "a" ∧
  getTransformer Example.config "svelte" "a class:b" = "a b".
Proof.
  assert (Hno : ¬ occursIn "class:" "a").
  { intros Ho%occursIn_containsb. vm_compute in Ho. discriminate. }
  destruct (getTransformer_fallback Example.config "toString") as (H1 & _).
  destruct (getTransformer_fallback Cases.config "svelte") as (H2 & _).
  destruct (getTransformer_fallback Example.config "svelte") as (_ & _ & _ & H4).
  split; [exact H1|]. split; [exact H2|]. split; [reflexivity|].
  split; [reflexivity|]. split; [exact Hno|].
  exact (proj2 (proj2 (H4 eq_refl eq_refl) eq_refl) "a" " "%char "b" eq_refl Hno).
Defined.

Lemma replaceClassDirective_without_directive_witness :
  ¬ occursIn "class:" "p-4 m-2" ∧ replaceClassDirective 0 true "p-4 m-2" = "p-4 m-2".
Proof.
  assert (H : ¬ occursIn "class:" "p-4 m-2").
  { intros Ho%occursIn_containsb. vm_compute in Ho. discriminate. }
  split; [exact H|]. exact (replaceClassDirective_without_directive true _ H).
Defined.

Lemma getClassCandidates_only_adds_witness :
  NoDup (candidates Example.collector) ∧
  NoDup (candidates (getClassCandidates "a
b" Example.lineExtractor Example.collector)).
Proof.
  assert (H : NoDup (candidates Example.collector)) by apply NoDup_singleton.
  split; [exact H|].
  destruct (getClassCandidates_only_adds "a
b" Example.lineExtractor Example.collector) as (_ & H2 & _).
  exact (H2 H).
Defined.

Lemma collectCandidates_wildcard_witness :
  changedContent (w_context Example.idleWorld) = [] ∧
  candidates (collectCandidates Example.env (w_context Example.idleWorld) ∅ []) = ["*"].
Proof.
  split; [reflexivity|].
  destruct (collectCandidates_wildcard Example.env (w_context Example.idleWorld) ∅ [])
    as (_ & _ & _ & H).
  exact (proj1 (H eq_refl)).
Defined.

Lemma noise_token_never_collected_witness :
  cleanCache ∅ ∧
  "!*" ∉ candidates (collectCandidates Example.env Example.context ∅ []).
Proof.
  assert (H : cleanCache ∅).
  { intros e line cached. unfold lruOf. rewrite lookup_empty. discriminate. }
  split; [exact H|].
  exact (proj1 (noise_token_never_collected Example.env Example.context ∅ [] H)).
Defined.

Lemma buildStylesheet_distinct_rules_witness :
  NoDup (nid <$> Example.rules.*2) ∧
  bucket Utilities (buildStylesheet Example.rules Example.context)
  = (filter (λ e, bucketOfKey Example.context e.1 = Some Utilities)
       (Array_sort compareRules Example.rules)).*2.
Proof.
  assert (H : NoDup (nid <$> Example.rules.*2))
    by (apply (bool_decide_unpack _); by vm_compute).
  split; [exact H|].
  destruct (buildStylesheet_distinct_rules Example.rules Example.context H)
    as (_ & H2 & _).
  exact (H2 Utilities).
Defined.

Lemma buildStylesheet_order_independent_witness :
  NoDup Example.rules.*1 ∧
  Example.rules ≡ₚ reverse Example.rules ∧
  buildStylesheet Example.rules Example.context
  = buildStylesheet (reverse Example.rules) Example.context.
Proof.
  assert (H : NoDup Example.rules.*1)
    by (apply (bool_decide_unpack _); by vm_compute).
  assert (Hp : Example.rules ≡ₚ reverse Example.rules)
    by (symmetry; apply reverse_Permutation).
  split; [exact H|]. split; [exact Hp|].
  exact (buildStylesheet_order_independent _ _ Example.context H Hp).
Defined.

Lemma findRootInDocument_ignores_base_witness :
  ln_variants (scanLayerNodes Cases.baseDocument) = None ∧
  ln_components (scanLayerNodes Cases.baseDocument) = None ∧
  ln_utilities (scanLayerNodes Cases.baseDocument) = None ∧
  Warn "postcss-document-root-missing"
    ∈ w_trace (expandTailwindAtRules Example.env Example.world Cases.baseDocument).1.
Proof.
  repeat (split; [reflexivity|]).
  destruct (findRootInDocument_ignores_base Example.env Example.world
              Cases.baseDocument (scanLayerNodes Cases.baseDocument)
              eq_refl eq_refl eq_refl) as [_ H].
  apply H; [reflexivity|by eexists|reflexivity].
Defined.

Lemma pass_runs_iff_directive_witness :
  (∀ r, r ∈ walkAtRules Example.plainRoot → ¬ isLayerDirective r) ∧
  expandTailwindAtRules Example.env Example.world Example.plainRoot
  = (Example.world, Example.plainRoot) ∧
  (∃ r, r ∈ walkAtRules Example.root ∧ isLayerDirective r) ∧
  changedContent
    (w_context (expandTailwindAtRules Example.env Example.world Example.root).1) = [].
Proof.
  assert (H1 : ∀ r, r ∈ walkAtRules Example.plainRoot → ¬ isLayerDirective r).
  { assert (walkAtRules Example.plainRoot = [Example.atRule 2 "media" "print"]) as ->
      by reflexivity.
    intros r ->%list_elem_of_singleton [Hn _]. discriminate Hn. }
  assert (H2 : ∃ r, r ∈ walkAtRules Example.root ∧ isLayerDirective r).
  { exists (Example.atRule 1 "tailwind" "base"). split.
    - assert (walkAtRules Example.root
              = [Example.atRule 1 "tailwind" "base";
                 Example.atRule 2 "tailwind" "utilities";
                 Example.atRule 3 "tailwind" "utilities"]) as -> by reflexivity.
      by left.
    - split; [reflexivity|]. unfold layerNames. by left. }
  split; [exact H1|].
  split; [exact (proj1 (pass_runs_iff_directive Example.env Example.world
                          Example.plainRoot) H1)|].
  split; [exact H2|].
  exact (proj2 (proj2 (pass_runs_iff_directive Example.env Example.world
                         Example.root) H2)).
Defined.

Lemma filterVariants_keeps_order_witness :
  is_Some (ln_components Cases.bothLayers) ∧
  is_Some (ln_utilities Cases.bothLayers) ∧
  filterVariants Cases.bothLayers
    [Example.ruleNode 103 (Some "components"); Example.ruleNode 105 None]
  = [Example.ruleNode 103 (Some "components"); Example.ruleNode 105 None].
Proof.
  assert (Hc : is_Some (ln_components Cases.bothLayers)) by by eexists.
  assert (Hu : is_Some (ln_utilities Cases.bothLayers)) by by eexists.
  split; [exact Hc|]. split; [exact Hu|].
  destruct (filterVariants_keeps_order Cases.bothLayers
              [Example.ruleNode 103 (Some "components"); Example.ruleNode 105 None])
    as (_ & H & _).
  exact (H Hc Hu).
Defined.

Lemma pass_caches_grow_witness :
  allNull (scanLayerNodes Example.root) = false ∧
  is_Some (stylesheetCache
             (w_context (expandTailwindAtRules Example.env Example.world Example.root).1)).
Proof.
  split; [reflexivity|].
  destruct (pass_caches_grow Example.env Example.world Example.root)
    as (_ & _ & H & _).
  exact (H eq_refl).
Defined.

Lemma recorded_directives_removed_witness :
  Some (Example.atRule 3 "tailwind" "utilities")
    ∈ layerNodes_values (scanLayerNodes Example.root) ∧
  (3 < w_nextId Example.world)%nat ∧
  ∀ c, c ∈ walk (expandTailwindAtRules Example.env Example.world Example.root).2 →
       nid c ≠ 3%nat.
Proof.
  assert (H : Some (Example.atRule 3 "tailwind" "utilities")
                ∈ layerNodes_values (scanLayerNodes Example.root)).
  { assert (layerNodes_values (scanLayerNodes Example.root)
            = [Some (Example.atRule 1 "tailwind" "base"); None;
               Some (Example.atRule 3 "tailwind" "utilities"); None]) as ->
      by reflexivity.
    right. right. by left. }
  assert (Hlt : (3 < w_nextId Example.world)%nat) by (simpl; lia).
  split; [exact H|]. split; [exact Hlt|].
  exact (recorded_directives_removed Example.env Example.world Example.root
           (Example.atRule 3 "tailwind" "utilities") H Hlt).
Defined.

Lemma stale_layer_markers_removed_witness :
  type Cases.layeredRoot ≠ "document" ∧
  allNull (scanLayerNodes Cases.layeredRoot) = false ∧
  ∀ c, c ∈ walk (expandTailwindAtRules Example.env Example.world Cases.layeredRoot).2 →
       ¬ (type c = "atrule" ∧ name c = "layer" ∧ params c ∈ layerNames).
Proof.
  assert (H : type Cases.layeredRoot ≠ "document") by discriminate.
  split; [exact H|]. split; [reflexivity|].
  exact (stale_layer_markers_removed Example.env Example.world Cases.layeredRoot
           H eq_refl).
Defined.

Lemma second_call_served_by_cache_witness :
  (size (list_to_set (trimmedLines "a
b
a") : gset string)
   ≤ Pos.to_nat (maxSize (cacheOf Example.lineExtractor Cases.collector)))%nat ∧
  let st1 := getClassCandidates "a
b
a" Example.lineExtractor Cases.collector in
  candidates
    (getClassCandidates "a
b
a" Example.lineExtractor
       {| candidates := candidates Cases.collector; seen := seen Cases.collector;
          extractorCache := extractorCache st1; trace := trace st1 |})
  = candidates st1.
Proof.
  assert (H : (size (list_to_set (trimmedLines "a
b
a") : gset string)
   ≤ Pos.to_nat (maxSize (cacheOf Example.lineExtractor Cases.collector)))%nat).
  { apply Nat.leb_le. by vm_compute. }
  split; [exact H|].
  exact (proj1 (second_call_served_by_cache "a
b
a" Example.lineExtractor Cases.collector H)).
Defined.

Lemma getClassCandidates_at_least_one_line_witness :
  seen Cases.collector = ∅ ∧
  ∃ new,
    trace (getClassCandidates "" Example.lineExtractor Cases.collector)
    = trace Cases.collector ++ new ∧
    processedLines new = [""].
Proof.
  split; [reflexivity|].
  destruct (getClassCandidates_at_least_one_line "" Example.lineExtractor
              Cases.collector eq_refl) as (new & Ht & _ & H).
  exists new. split; [exact Ht|]. exact (H eq_refl).
Defined.

Lemma pass_tree_objects_witness :
  sameHead Example.root (expandTailwindAtRules Example.env Example.world Example.root).2 ∧
  ∀ i, i ∈ idsBelow (expandTailwindAtRules Example.env Example.world Example.root).2 →
       i ∈ idsBelow Example.root ∨ (w_nextId Example.world ≤ i)%nat.
Proof.
  destruct (pass_tree_objects Example.env Example.world Example.root) as (H1 & H2 & _).
  split; [exact H1 | exact H2].
Defined.
